(** * MoQT validator: a shallow embedding of [main.go] and its properties

    The development follows the Go source function by function.

    - Unsigned 64-bit integers are [Z], with the wrap-around written where
      the source has arithmetic that can wrap (the token-cache sizes); byte
      buffers are [list byte]; a [bytes.Reader] is the list of bytes not yet
      read; the maps of the validator are [gmap]s.
    - A Go error is the sentinel it wraps ([errors.Is]): [ErrValidation],
      [ErrProtocolViolation], or one of the [io] errors that several decoders
      return as they are.
    - A decoder that never touches the validator is a parser [P]; a method
      that reads or writes it is an [M], which returns the validator also
      when it fails, since a write made before an error stays.
    - A [map[string]interface{}] is a [Record], an association list from
      keys to [Value]s.
    - Loops are structural on an allowance of rounds, set to the number of
      bytes left to read; the section on fuel shows that no loop uses it up.
    - Not modelled: the text of error messages, and what the Go runtime does
      when [make] is asked for more memory than it can give (a length field
      far larger than the buffer), which the source does not guard against. *)

From Stdlib Require Import ZArith List Lia.
From Stdlib Require Import Strings.Byte.
From stdpp Require Import gmap list strings pretty.

Local Open Scope Z_scope.
Local Set Warnings "-register-all".

(** ** Bytes and fixed-width integers *)

(** [uint64(b)] for a byte [b]. *)
Definition u8 (b : byte) : Z := Z.of_N (Byte.to_N b).

(** [byte(z)]: the conversion to [uint8], which keeps the low eight bits. *)
Definition byte_of (z : Z) : byte :=
  match Byte.of_N (Z.to_N (z mod 256)) with
  | Some b => b
  | None => x00
  end.

Definition bytes_of (l : list Z) : list byte := map byte_of l.

Definition uint16 (z : Z) : Z := z mod 2 ^ 16.
Definition uint32 (z : Z) : Z := z mod 2 ^ 32.
Definition uint64 (z : Z) : Z := z mod 2 ^ 64.

(** [len(bs)] as an integer. *)
Definition len {A} (l : list A) : Z := Z.of_nat (length l).

(** ** Errors *)

(** The sentinel an error wraps.  [EOF] and [ErrUnexpectedEOF] are the [io]
    errors that several decoders return unwrapped; [ErrVarIntTooLarge] is the
    [errors.New] value of [VarInt.Encode]. *)
Inductive Error : Set :=
| ErrProtocolViolation
| ErrValidation
| EOF
| ErrUnexpectedEOF
| ErrVarIntTooLarge.

Inductive result (A : Type) : Type :=
| Ok (a : A)
| Err (e : Error).
Arguments Ok {A} a.
Arguments Err {A} e.

Definition is_ok {A} (x : result A) : bool :=
  match x with Ok _ => true | Err _ => false end.

(** ** encoding/binary, big endian *)

Module BigEndian.

Definition PutUint16 (v : Z) : list byte :=
  [byte_of (Z.shiftr v 8); byte_of v].

Definition PutUint32 (v : Z) : list byte :=
  [byte_of (Z.shiftr v 24); byte_of (Z.shiftr v 16);
   byte_of (Z.shiftr v 8); byte_of v].

Definition PutUint64 (v : Z) : list byte :=
  [byte_of (Z.shiftr v 56); byte_of (Z.shiftr v 48);
   byte_of (Z.shiftr v 40); byte_of (Z.shiftr v 32);
   byte_of (Z.shiftr v 24); byte_of (Z.shiftr v 16);
   byte_of (Z.shiftr v 8); byte_of v].

(** The readers are applied to slices of the right length only; on any other
    length Go panics, which no caller in the source can trigger. *)
Definition Uint16 (b : list byte) : Z :=
  match b with
  | [b0; b1] => Z.lor (u8 b1) (Z.shiftl (u8 b0) 8)
  | _ => 0
  end.

Definition Uint32 (b : list byte) : Z :=
  match b with
  | [b0; b1; b2; b3] =>
      Z.lor (Z.lor (Z.lor (u8 b3) (Z.shiftl (u8 b2) 8))
               (Z.shiftl (u8 b1) 16)) (Z.shiftl (u8 b0) 24)
  | _ => 0
  end.

Definition Uint64 (b : list byte) : Z :=
  match b with
  | [b0; b1; b2; b3; b4; b5; b6; b7] =>
      Z.lor (Z.lor (Z.lor (Z.lor (Z.lor (Z.lor (Z.lor
        (u8 b7) (Z.shiftl (u8 b6) 8)) (Z.shiftl (u8 b5) 16))
        (Z.shiftl (u8 b4) 24)) (Z.shiftl (u8 b3) 32))
        (Z.shiftl (u8 b2) 40)) (Z.shiftl (u8 b1) 48))
        (Z.shiftl (u8 b0) 56)
  | _ => 0
  end.

End BigEndian.

(** ** Readers *)

(** A [bytes.Reader] over a buffer: the bytes still to be read. *)
Definition Reader : Type := list byte.

(** [io.ReadFull(r, buf)] with [len(buf) = n]: the bytes read (or the error)
    and the reader afterwards.  A read of zero bytes always succeeds; a read
    that finds nothing is [EOF]; a read that finds too few bytes consumes them
    and is [ErrUnexpectedEOF]. *)
Definition ReadFull (n : Z) (r : Reader) : result (list byte) * Reader :=
  if n =? 0 then (Ok [], r)
  else if len r =? 0 then (Err EOF, r)
  else if len r <? n then (Err ErrUnexpectedEOF, [])
  else (Ok (take (Z.to_nat n) r), drop (Z.to_nat n) r).

(** [io.ReadAll(r)] on a [bytes.Reader] never fails. *)
Definition ReadAll (r : Reader) : list byte * Reader := (r, []).

(** ** VarInt *)

Module VarInt.

Definition Encode (value : Z) : result (list byte) :=
  if value <? 0x40 then Ok [byte_of value]
  else if value <? 0x4000 then
    Ok (BigEndian.PutUint16 (uint16 (Z.lor value 0x4000)))
  else if value <? 0x40000000 then
    Ok (BigEndian.PutUint32 (uint32 (Z.lor value 0x80000000)))
  else if value <? 0x4000000000000000 then
    Ok (BigEndian.PutUint64 (Z.lor value 0xC000000000000000))
  else Err ErrVarIntTooLarge.

(** The Go function returns [(value, n, err)]; the reader it advanced is
    the fourth component here. *)
Definition Decode (r : Reader) : Z * Z * option Error * Reader :=
  match ReadFull 1 r with
  | (Err e, r1) => (0, 0, Some e, r1)
  | (Ok firstByte, r1) =>
      let b0 := match firstByte with b :: _ => u8 b | [] => 0 end in
      let prefix := Z.shiftr b0 6 in
      if prefix =? 0 then (b0, 1, None, r1)
      else if prefix =? 1 then
        match ReadFull 1 r1 with
        | (Err e, r2) => (0, 1, Some e, r2)
        | (Ok buf, r2) =>
            let value := Z.land (BigEndian.Uint16 (firstByte ++ buf)) 0x3FFF in
            (value, 2, None, r2)
        end
      else if prefix =? 2 then
        match ReadFull 3 r1 with
        | (Err e, r2) => (0, 1, Some e, r2)
        | (Ok buf, r2) =>
            let value := Z.land (BigEndian.Uint32 (firstByte ++ buf)) 0x3FFFFFFF in
            (value, 4, None, r2)
        end
      else
        match ReadFull 7 r1 with
        | (Err e, r2) => (0, 1, Some e, r2)
        | (Ok buf, r2) =>
            let value :=
              Z.land (BigEndian.Uint64 (firstByte ++ buf)) 0x3FFFFFFFFFFFFFFF in
            (value, 8, None, r2)
        end
  end.

End VarInt.

(** ** Decoded records *)

(** The [map[string]interface{}] the validators build.  [VHex bs] stands for
    [hex.EncodeToString(bs)], [VVersion z] for [fmt.Sprintf("0x%08x", z)] and
    [VByteCount z] for [fmt.Sprintf("<%d bytes>", z)]: the rendering is left
    to the printer, the decoded datum is kept. *)
Inductive Value : Type :=
| VNil
| VUint (z : Z)
| VBool (b : bool)
| VString (s : string)
| VHex (bs : list byte)
| VVersion (z : Z)
| VByteCount (z : Z)
| VList (l : list Value)
| VMap (m : list (string * Value)).

Definition Record : Type := list (string * Value).

(** [m[k] = x] *)
Fixpoint mset (k : string) (x : Value) (m : Record) : Record :=
  match m with
  | [] => [(k, x)]
  | (k', y) :: m' =>
      if String.eqb k k' then (k, x) :: m' else (k', y) :: mset k x m'
  end.

(** [m[k]] *)
Fixpoint mget (k : string) (m : Record) : option Value :=
  match m with
  | [] => None
  | (k', y) :: m' => if String.eqb k k' then Some y else mget k m'
  end.

(** [for k, v := range details { result[k] = v }] *)
Definition mergeInto (details result : Record) : Record :=
  fold_left (fun acc kv => mset (fst kv) (snd kv) acc) details result.

(** ** Constants *)

Definition ClientSetup : Z := 0x20.
Definition ServerSetup : Z := 0x21.
Definition Goaway : Z := 0x10.
Definition MaxRequestID : Z := 0x15.
Definition RequestsBlocked : Z := 0x1A.
Definition Subscribe : Z := 0x3.
Definition SubscribeOK : Z := 0x4.
Definition SubscribeError : Z := 0x5.
Definition Unsubscribe : Z := 0xA.
Definition SubscribeUpdate : Z := 0x2.
Definition SubscribeDone : Z := 0xB.
Definition Fetch : Z := 0x16.
Definition FetchOK : Z := 0x18.
Definition FetchError : Z := 0x19.
Definition FetchCancel : Z := 0x17.
Definition TrackStatusRequest : Z := 0xD.
Definition TrackStatus : Z := 0xE.
Definition Announce : Z := 0x6.
Definition AnnounceOK : Z := 0x7.
Definition AnnounceError : Z := 0x8.
Definition Unannounce : Z := 0x9.
Definition AnnounceCancel : Z := 0xC.
Definition SubscribeAnnounces : Z := 0x11.
Definition SubscribeAnnouncesOK : Z := 0x12.
Definition SubscribeAnnouncesError : Z := 0x13.
Definition UnsubscribeAnnounces : Z := 0x14.

Definition NextGroupStart : Z := 0x1.
Definition LatestObject : Z := 0x2.
Definition AbsoluteStart : Z := 0x3.
Definition AbsoluteRange : Z := 0x4.

Definition ObjectStatusNormal : Z := 0x0.
Definition ObjectStatusDoesNotExist : Z := 0x1.
Definition ObjectStatusEndOfGroup : Z := 0x3.
Definition ObjectStatusEndOfTrack : Z := 0x4.

Definition ObjectDatagramNoExt : Z := 0x00.
Definition ObjectDatagramWithExt : Z := 0x01.
Definition ObjectStatusNoExt : Z := 0x02.
Definition ObjectStatusWithExt : Z := 0x03.

Definition SetupParamPath : Z := 0x01.
Definition SetupParamMaxRequestID : Z := 0x02.
Definition SetupParamMaxAuthTokenCacheSize : Z := 0x04.
Definition VersionParamAuthorizationToken : Z := 0x01.
Definition VersionParamDeliveryTimeout : Z := 0x02.
Definition VersionParamMaxCacheDuration : Z := 0x04.
Definition ExtHeaderPriorGroupIDGap : Z := 0x40.

Definition AliasTypeDelete : Z := 0x0.
Definition AliasTypeRegister : Z := 0x1.
Definition AliasTypeUseAlias : Z := 0x2.
Definition AliasTypeUseValue : Z := 0x3.

(** ** Helper functions *)

Definition validTypes : list Z :=
  [ClientSetup; ServerSetup; Goaway; MaxRequestID; RequestsBlocked;
   Subscribe; SubscribeOK; SubscribeError; Unsubscribe; SubscribeUpdate;
   SubscribeDone; Fetch; FetchOK; FetchError; FetchCancel;
   TrackStatusRequest; TrackStatus;
   Announce; AnnounceOK; AnnounceError; Unannounce; AnnounceCancel;
   SubscribeAnnounces; SubscribeAnnouncesOK; SubscribeAnnouncesError;
   UnsubscribeAnnounces].

Definition isValidMessageType (msgType : Z) : bool :=
  existsb (fun valid => msgType =? valid) validTypes.

Definition lookupName (names : list (Z * string)) (x : Z) : string :=
  match find (fun p => fst p =? x) names with
  | Some p => snd p
  | None => "UNKNOWN_" +:+ pretty x
  end.

Definition getMessageTypeName : Z -> string :=
  lookupName
    [(ClientSetup, "CLIENT_SETUP"); (ServerSetup, "SERVER_SETUP");
     (Goaway, "GOAWAY"); (MaxRequestID, "MAX_REQUEST_ID");
     (RequestsBlocked, "REQUESTS_BLOCKED"); (Subscribe, "SUBSCRIBE");
     (SubscribeOK, "SUBSCRIBE_OK"); (SubscribeError, "SUBSCRIBE_ERROR");
     (Unsubscribe, "UNSUBSCRIBE"); (SubscribeUpdate, "SUBSCRIBE_UPDATE");
     (SubscribeDone, "SUBSCRIBE_DONE"); (Fetch, "FETCH");
     (FetchOK, "FETCH_OK"); (FetchError, "FETCH_ERROR");
     (FetchCancel, "FETCH_CANCEL");
     (TrackStatusRequest, "TRACK_STATUS_REQUEST");
     (TrackStatus, "TRACK_STATUS"); (Announce, "ANNOUNCE");
     (AnnounceOK, "ANNOUNCE_OK"); (AnnounceError, "ANNOUNCE_ERROR");
     (Unannounce, "UNANNOUNCE"); (AnnounceCancel, "ANNOUNCE_CANCEL");
     (SubscribeAnnounces, "SUBSCRIBE_ANNOUNCES");
     (SubscribeAnnouncesOK, "SUBSCRIBE_ANNOUNCES_OK");
     (SubscribeAnnouncesError, "SUBSCRIBE_ANNOUNCES_ERROR");
     (UnsubscribeAnnounces, "UNSUBSCRIBE_ANNOUNCES")]%string.

Definition isValidFilterType (filterType : Z) : bool :=
  (NextGroupStart <=? filterType) && (filterType <=? AbsoluteRange).

Definition getFilterTypeName : Z -> string :=
  lookupName
    [(NextGroupStart, "NEXT_GROUP_START"); (LatestObject, "LATEST_OBJECT");
     (AbsoluteStart, "ABSOLUTE_START"); (AbsoluteRange, "ABSOLUTE_RANGE")]%string.

Definition getGroupOrderName : Z -> string :=
  lookupName [(0, "DEFAULT"); (1, "ASCENDING"); (2, "DESCENDING")]%string.

Definition isValidObjectStatus (status : Z) : bool :=
  (status =? ObjectStatusNormal) || (status =? ObjectStatusDoesNotExist)
  || (status =? ObjectStatusEndOfGroup) || (status =? ObjectStatusEndOfTrack).

Definition getObjectStatusName : Z -> string :=
  lookupName
    [(ObjectStatusNormal, "NORMAL");
     (ObjectStatusDoesNotExist, "OBJECT_DOES_NOT_EXIST");
     (ObjectStatusEndOfGroup, "END_OF_GROUP");
     (ObjectStatusEndOfTrack, "END_OF_TRACK")]%string.

Definition isValidDatagramType (datagramType : Z) : bool :=
  (ObjectDatagramNoExt <=? datagramType) && (datagramType <=? ObjectStatusWithExt).

Definition getDatagramTypeName : Z -> string :=
  lookupName
    [(ObjectDatagramNoExt, "OBJECT_DATAGRAM_NO_EXT");
     (ObjectDatagramWithExt, "OBJECT_DATAGRAM_WITH_EXT");
     (ObjectStatusNoExt, "OBJECT_STATUS_NO_EXT");
     (ObjectStatusWithExt, "OBJECT_STATUS_WITH_EXT")]%string.

(** ** Locations and track names *)

Record Location : Set := { GroupID : Z; ObjectID : Z }.

Definition Less (l other : Location) : bool :=
  if GroupID l <? GroupID other then true
  else if GroupID l =? GroupID other then ObjectID l <? ObjectID other
  else false.

Record TrackNamespace : Set := { Fields : list (list byte) }.

Definition NewTrackNamespace (fields : list (list byte)) : result TrackNamespace :=
  if (len fields =? 0) || (len fields >? 32) then Err ErrProtocolViolation
  else Ok {| Fields := fields |}.

Record FullTrackName : Set := { Namespace : TrackNamespace; Name : list byte }.

Definition NewFullTrackName (namespace : TrackNamespace) (name : list byte)
  : result FullTrackName :=
  let totalLength := fold_left (fun acc field => acc + len field) (Fields namespace) 0 in
  let totalLength := totalLength + len name in
  if totalLength >? 4096 then Err ErrProtocolViolation
  else Ok {| Namespace := namespace; Name := name |}.

(** ** The validator *)

(** What [validateSubscribe] stores per request ID. *)
Record SubscriptionInfo : Set := {
  track_alias : Z;
  full_track_name : FullTrackName;
  filter_type : Z
}.

Record MoQTValidator : Type := {
  currentVersion : Z;
  maxRequestIDClient : Z;
  maxRequestIDServer : Z;
  activeTracks : gmap Z FullTrackName;
  activeSubscriptions : gmap Z SubscriptionInfo;
  activeFetches : gmap Z Record;
  authTokens : gmap Z (list byte);
  maxAuthTokenCacheSize : Z;
  currentAuthTokenSize : Z
}.

Definition NewMoQTValidator : MoQTValidator :=
  {| currentVersion := 0x00000001;
     maxRequestIDClient := 0;
     maxRequestIDServer := 0;
     activeTracks := ∅;
     activeSubscriptions := ∅;
     activeFetches := ∅;
     authTokens := ∅;
     maxAuthTokenCacheSize := 0;
     currentAuthTokenSize := 0 |}.

Definition set_activeSubscriptions (m : gmap Z SubscriptionInfo) (v : MoQTValidator)
  : MoQTValidator :=
  {| currentVersion := currentVersion v;
     maxRequestIDClient := maxRequestIDClient v;
     maxRequestIDServer := maxRequestIDServer v;
     activeTracks := activeTracks v;
     activeSubscriptions := m;
     activeFetches := activeFetches v;
     authTokens := authTokens v;
     maxAuthTokenCacheSize := maxAuthTokenCacheSize v;
     currentAuthTokenSize := currentAuthTokenSize v |}.

Definition set_activeFetches (m : gmap Z Record) (v : MoQTValidator) : MoQTValidator :=
  {| currentVersion := currentVersion v;
     maxRequestIDClient := maxRequestIDClient v;
     maxRequestIDServer := maxRequestIDServer v;
     activeTracks := activeTracks v;
     activeSubscriptions := activeSubscriptions v;
     activeFetches := m;
     authTokens := authTokens v;
     maxAuthTokenCacheSize := maxAuthTokenCacheSize v;
     currentAuthTokenSize := currentAuthTokenSize v |}.

(** The two fields an auth-token operation writes. *)
Definition set_tokens (m : gmap Z (list byte)) (size : Z) (v : MoQTValidator)
  : MoQTValidator :=
  {| currentVersion := currentVersion v;
     maxRequestIDClient := maxRequestIDClient v;
     maxRequestIDServer := maxRequestIDServer v;
     activeTracks := activeTracks v;
     activeSubscriptions := activeSubscriptions v;
     activeFetches := activeFetches v;
     authTokens := m;
     maxAuthTokenCacheSize := maxAuthTokenCacheSize v;
     currentAuthTokenSize := size |}.

(** ** Parsers *)

(** A parser over a reader that does not touch the validator: the value and
    the reader afterwards, or the error. *)
Definition P (A : Type) : Type := Reader -> result (A * Reader).

Definition retP {A} (a : A) : P A := fun r => Ok (a, r).
Definition failP {A} (e : Error) : P A := fun _ => Err e.
Definition bindP {A B} (m : P A) (k : A -> P B) : P B :=
  fun r => match m r with
           | Ok (a, r') => k a r'
           | Err e => Err e
           end.

(** A method of the validator reading from a reader: on an error the
    validator keeps whatever was written to it before. *)
Definition M (A : Type) : Type :=
  Reader -> MoQTValidator -> result (A * Reader) * MoQTValidator.

Definition retM {A} (a : A) : M A := fun r v => (Ok (a, r), v).
Definition failM {A} (e : Error) : M A := fun _ v => (Err e, v).
Definition bindM {A B} (m : M A) (k : A -> M B) : M B :=
  fun r v => match m r v with
             | (Ok (a, r'), v') => k a r' v'
             | (Err e, v') => (Err e, v')
             end.
Definition liftP {A} (p : P A) : M A := fun r v => (p r, v).

(** A write to the validator. *)
Definition modifyV (f : MoQTValidator -> MoQTValidator) : M unit :=
  fun r v => (Ok (tt, r), f v).

Declare Scope parser_scope.
Delimit Scope parser_scope with parser.
Declare Scope validator_scope.
Delimit Scope validator_scope with validator.
Notation "'let*' x ':=' m 'in' k" := (bindP m (fun x => k))
  (at level 10, x pattern, m at level 100, k at level 200) : parser_scope.
Notation "'let*' x ':=' m 'in' k" := (bindM m (fun x => k))
  (at level 10, x pattern, m at level 100, k at level 200) : validator_scope.

(** [x, _, err := varInt.Decode(r); if err != nil { return nil, err }] *)
Definition decode : P Z :=
  fun r => match VarInt.Decode r with
           | (value, _, None, r') => Ok (value, r')
           | (_, _, Some e, _) => Err e
           end.

(** [buf := make([]byte, n); if _, err := io.ReadFull(r, buf); err != nil { return nil, err }] *)
Definition readFull (n : Z) : P (list byte) :=
  fun r => match ReadFull n r with
           | (Ok bs, r') => Ok (bs, r')
           | (Err e, _) => Err e
           end.

(** The same with the error replaced: [return nil, fmt.Errorf("%w: ...", e)]. *)
Definition readFullOr (e : Error) (n : Z) : P (list byte) :=
  fun r => match ReadFull n r with
           | (Ok bs, r') => Ok (bs, r')
           | (Err _, _) => Err e
           end.

(** One byte read into a one-byte buffer, and [buf[0]]. *)
Definition readByteOr (e : Error) : P Z :=
  fun r => match ReadFull 1 r with
           | (Ok (b :: _), r') => Ok (u8 b, r')
           | (Ok [], r') => Ok (0, r')
           | (Err _, _) => Err e
           end.

(** [for i := uint64(0); i < n; i++ { body }], the loop state being the
    variables the body updates.  Every body in the source reads at least one
    byte when it succeeds, so the loop runs at most [length r] times: [fuel]
    counts the iterations still allowed and the last branch is never taken
    when [fuel] starts at the length of the reader (see [forP_fuel]). *)
Fixpoint forP_from {S} (fuel : nat) (i n : Z) (body : S -> P S) (s : S) (r : Reader)
  : result (S * Reader) :=
  if i <? n then
    match body s r with
    | Err e => Err e
    | Ok (s', r') =>
        match fuel with
        | O => Err EOF
        | Datatypes.S fuel' => forP_from fuel' (i + 1) n body s' r'
        end
    end
  else Ok (s, r).

Definition forP {S} (n : Z) (body : S -> P S) (s : S) : P S :=
  fun r => forP_from (length r) 0 n body s r.

Fixpoint forM_from {S} (fuel : nat) (i n : Z) (body : S -> M S) (s : S)
  (r : Reader) (v : MoQTValidator) : result (S * Reader) * MoQTValidator :=
  if i <? n then
    match body s r v with
    | (Err e, v') => (Err e, v')
    | (Ok (s', r'), v') =>
        match fuel with
        | O => (Err EOF, v')
        | Datatypes.S fuel' => forM_from fuel' (i + 1) n body s' r' v'
        end
    end
  else (Ok (s, r), v).

Definition forM {S} (n : Z) (body : S -> M S) (s : S) : M S :=
  fun r v => forM_from (length r) 0 n body s r v.

(** [r := bytes.NewReader(buf)] and a call that reads from it: the caller's
    own reader is left where it was. *)
Definition onBuffer {A} (buf : list byte) (m : M A) : M A :=
  fun r v => match m buf v with
             | (Ok (a, _), v') => (Ok (a, r), v')
             | (Err e, v') => (Err e, v')
             end.

Definition onBufferP {A} (buf : list byte) (p : P A) : P A :=
  fun r => match p buf with
           | Ok (a, _) => Ok (a, r)
           | Err e => Err e
           end.

(** ** Structural readers *)

Definition hexList (fields : list (list byte)) : Value := VList (map VHex fields).

Definition readTuple : P (list (list byte)) :=
  (let* numFields := decode in
   forP numFields
     (fun fields =>
        let* fieldLength := decode in
        let* fieldData := readFullOr ErrValidation fieldLength in
        retP (fields ++ [fieldData]))
     [])%parser.

Definition setupParamName (paramType : Z) (paramInfo : Record) : Record :=
  if paramType =? SetupParamPath then mset "name" (VString "PATH") paramInfo
  else if paramType =? SetupParamMaxRequestID then
    mset "name" (VString "MAX_REQUEST_ID") paramInfo
  else if paramType =? SetupParamMaxAuthTokenCacheSize then
    mset "name" (VString "MAX_AUTH_TOKEN_CACHE_SIZE") paramInfo
  else paramInfo.

Definition validateSetupParameters (numParams : Z) : P (list Record) :=
  forP numParams
    (fun params =>
       let* paramType := decode in
       let paramInfo := [("type"%string, VUint paramType)] in
       let* paramInfo :=
         (if paramType mod 2 =? 0 then
            let* value := decode in
            retP (mset "value" (VUint value) paramInfo)
          else
            let* length := decode in
            if length >? 65535 then failP ErrProtocolViolation
            else
              let* value := readFullOr ErrValidation length in
              retP (mset "length" (VUint length)
                      (mset "value" (VHex value) paramInfo))) in
       retP (params ++ [setupParamName paramType paramInfo]))%parser
    [].

Definition validateExtensionHeader : P Record :=
  (let* headerType := decode in
   let header := [("type"%string, VUint headerType)] in
   let header :=
     if headerType =? ExtHeaderPriorGroupIDGap
     then mset "name" (VString "PRIOR_GROUP_ID_GAP") header else header in
   if headerType mod 2 =? 0 then
     let* value := decode in
     retP (mset "value" (VUint value) header)
   else
     let* length := decode in
     let* value := readFullOr ErrValidation length in
     retP (mset "length" (VUint length) (mset "value" (VHex value) header)))%parser.

(** [for r.Len() > 0 { ... }]: one header per round, each reading at least
    one byte, so [fuel] = [length r] rounds are enough. *)
Fixpoint extensionHeaders_from (fuel : nat) (headers : list Record) (r : Reader)
  : result (list Record) :=
  if len r >? 0 then
    match validateExtensionHeader r with
    | Err e => Err e
    | Ok (header, r') =>
        match fuel with
        | O => Err EOF
        | S fuel' => extensionHeaders_from fuel' (headers ++ [header]) r'
        end
    end
  else Ok headers.

Definition validateExtensionHeaders (data : list byte) : result (list Record) :=
  extensionHeaders_from (length data) [] data.

(** The tail shared by subgroup objects and fetch objects: payload length,
    then the status or the payload.  The source allocates the payload
    buffer with [make([]byte, payloadLength)] before [io.ReadFull]; for an
    announced length far beyond the buffer the Go runtime panics there,
    where this parser returns the [ErrValidation] of the short read.  The
    properties whose outcome depends on such a read carry the hypothesis
    [modestTail] or one of its companions below. *)
Definition objectPayload (obj : Record) : P Record :=
  (let* payloadLength := decode in
   let obj := mset "payload_length" (VUint payloadLength) obj in
   if payloadLength =? 0 then
     let* status := decode in
     if negb (isValidObjectStatus status) then failP ErrProtocolViolation
     else retP (mset "status" (VString (getObjectStatusName status)) obj)
   else
     let obj := mset "status" (VString "NORMAL") obj in
     let* payload := readFullOr ErrValidation payloadLength in
     if payloadLength <? 100 then retP (mset "payload" (VHex payload) obj)
     else retP (mset "payload" (VByteCount payloadLength) obj))%parser.

(** [extension_headers_length] and, when it is positive, the headers.  As
    for the payload, [make([]byte, extLength)] comes before [io.ReadFull]
    in the source, and an oversized announced length is a panic there and
    the [ErrValidation] of the short read here. *)
Definition objectExtensions (obj : Record) : P Record :=
  (let* extLength := decode in
   let obj := mset "extension_headers_length" (VUint extLength) obj in
   if extLength >? 0 then
     let* extData := readFullOr ErrValidation extLength in
     match validateExtensionHeaders extData with
     | Err e => failP e
     | Ok headers => retP (mset "extension_headers" (VList (map VMap headers)) obj)
     end
   else retP obj)%parser.

Definition validateSubgroupObject (extensionsPresent : bool) : P Record :=
  (let* objectID := decode in
   let obj := [("object_id"%string, VUint objectID)] in
   let* obj := (if extensionsPresent then objectExtensions obj else retP obj) in
   objectPayload obj)%parser.

Definition validateFetchObject : P Record :=
  (let* groupID := decode in
   let obj := [("group_id"%string, VUint groupID)] in
   let* subgroupID := decode in
   let obj := mset "subgroup_id" (VUint subgroupID) obj in
   let* objectID := decode in
   let obj := mset "object_id" (VUint objectID) obj in
   let* priority := readByteOr ErrValidation in
   let obj := mset "publisher_priority" (VUint priority) obj in
   let* obj := objectExtensions obj in
   objectPayload obj)%parser.

(** ** Data streams *)

(** The type matrix of [validateSubgroupHeader]:
    [(subgroupIDPresent, subgroupIDValue, extensionsPresent)]. *)
Definition typeInfo (headerType : Z) : option (bool * string * bool) :=
  if headerType =? 0x08 then Some (false, "0"%string, false)
  else if headerType =? 0x09 then Some (false, "0"%string, true)
  else if headerType =? 0x0A then Some (false, "first_object_id"%string, false)
  else if headerType =? 0x0B then Some (false, "first_object_id"%string, true)
  else if headerType =? 0x0C then Some (true, ""%string, false)
  else if headerType =? 0x0D then Some (true, ""%string, true)
  else None.

(** [obj["object_id"].(uint64)] *)
Definition objectIDOf (obj : Record) : Z :=
  match mget "object_id" obj with
  | Some (VUint objID) => objID
  | _ => 0
  end.

(** The loop variables of the object loop of [validateSubgroupHeader]. *)
Record SubgroupLoop : Type := {
  objects : list Record;
  objectCount : Z;
  firstObjectID : option Z;
  lastObjectID : Z
}.

(** [for { obj, err := v.validateSubgroupObject(...) ... }]: the loop ends by
    [break] (the variables are returned) or by [return nil, err].  An object
    that decodes has read at least two bytes, so [length r] rounds are
    enough and the out-of-fuel branch is not reached from
    [validateSubgroupHeader]. *)
Fixpoint subgroupObjects (fuel : nat) (extensionsPresent : bool) (s : SubgroupLoop)
  (r : Reader) : result SubgroupLoop :=
  match validateSubgroupObject extensionsPresent r with
  | Err e =>
      match e with
      | EOF => Ok s
      | _ => if objectCount s >? 0 then Ok s else Err e
      end
  | Ok (obj, r') =>
      let objID := objectIDOf obj in
      let first :=
        match firstObjectID s with None => Some objID | Some f => Some f end in
      if (objectCount s >? 0) && (objID <=? lastObjectID s)
      then Err ErrProtocolViolation
      else
        let s' := {| objects := objects s ++ [obj];
                     objectCount := objectCount s + 1;
                     firstObjectID := first;
                     lastObjectID := objID |} in
        match fuel with
        | O => Ok s'
        | S fuel' => subgroupObjects fuel' extensionsPresent s' r'
        end
  end.

Definition validateSubgroupHeader (headerType : Z) : P Record :=
  fun r =>
    let result := [("header_type"%string, VString "SUBGROUP_HEADER")] in
    match typeInfo headerType with
    | None => Err ErrProtocolViolation
    | Some (subgroupIDPresent, subgroupIDValue, extensionsPresent) =>
        let result := mset "subgroup_id_present" (VBool subgroupIDPresent) result in
        let result := mset "subgroup_id_value" (VString subgroupIDValue) result in
        let result := mset "extensions_present" (VBool extensionsPresent) result in
        (let* trackAlias := decode in
         let result := mset "track_alias" (VUint trackAlias) result in
         let* groupID := decode in
         let result := mset "group_id" (VUint groupID) result in
         let* result :=
           (if subgroupIDPresent then
              let* subgroupID := decode in
              retP (mset "subgroup_id" (VUint subgroupID) result)
            else retP result) in
         let* priority := readByteOr ErrValidation in
         let result := mset "publisher_priority" (VUint priority) result in
         fun r =>
           match subgroupObjects (length r) extensionsPresent
                   {| objects := []; objectCount := 0;
                      firstObjectID := None; lastObjectID := 0 |} r with
           | Err e => Err e
           | Ok s =>
               let result := mset "object_count" (VUint (objectCount s)) result in
               let result := mset "objects" (VList (map VMap (objects s))) result in
               let result :=
                 match firstObjectID s with
                 | Some f =>
                     if (headerType =? 0x0A) || (headerType =? 0x0B)
                     then mset "subgroup_id" (VUint f) result else result
                 | None => result
                 end in
               Ok (result, [])
           end)%parser r
    end.

(** The object loop of [validateFetchHeader]. *)
Fixpoint fetchObjects (fuel : nat) (objs : list Record) (r : Reader)
  : result (list Record) :=
  match validateFetchObject r with
  | Err e =>
      match e with
      | EOF => Ok objs
      | _ => if len objs >? 0 then Ok objs else Err e
      end
  | Ok (obj, r') =>
      match fuel with
      | O => Ok (objs ++ [obj])
      | S fuel' => fetchObjects fuel' (objs ++ [obj]) r'
      end
  end.

Definition validateFetchHeader : P Record :=
  (let result := [("header_type"%string, VString "FETCH_HEADER")] in
   let* requestID := decode in
   let result := mset "request_id" (VUint requestID) result in
   fun r =>
     match fetchObjects (length r) [] r with
     | Err e => Err e
     | Ok objs =>
         let result := mset "object_count" (VUint (len objs)) result in
         Ok (mset "objects" (VList (map VMap objs)) result, [])
     end)%parser.

Definition validateDataStream (data : list byte) : result Record :=
  if len data =? 0 then Err ErrValidation
  else
    match decode data with
    | Err e => Err e
    | Ok (streamType, r) =>
        let result := [("stream_type"%string, VUint streamType)] in
        if (streamType >=? 0x08) && (streamType <=? 0x0D) then
          match validateSubgroupHeader streamType r with
          | Err e => Err e
          | Ok (details, _) => Ok (mergeInto details result)
          end
        else if streamType =? 0x05 then
          match validateFetchHeader r with
          | Err e => Err e
          | Ok (details, _) => Ok (mergeInto details result)
          end
        else Err ErrProtocolViolation
    end.

(** ** Datagrams *)

Definition datagramBody (datagramType : Z) : P Record :=
  (let result := [("type"%string, VString (getDatagramTypeName datagramType));
                  ("type_value"%string, VUint datagramType)] in
   let* trackAlias := decode in
   let result := mset "track_alias" (VUint trackAlias) result in
   let* groupID := decode in
   let result := mset "group_id" (VUint groupID) result in
   let* objectID := decode in
   let result := mset "object_id" (VUint objectID) result in
   let* priority := readByteOr ErrValidation in
   let result := mset "publisher_priority" (VUint priority) result in
   let* result :=
     (if (datagramType =? ObjectDatagramWithExt) || (datagramType =? ObjectStatusWithExt)
      then
        let* extLength := decode in
        let result := mset "extension_headers_length" (VUint extLength) result in
        if extLength >? 0 then
          let* extData := readFullOr ErrValidation extLength in
          match validateExtensionHeaders extData with
          | Err e => failP e
          | Ok headers =>
              retP (mset "extension_headers" (VList (map VMap headers)) result)
          end
        else if extLength =? 0 then failP ErrProtocolViolation
        else retP result
      else retP result) in
   if (datagramType =? ObjectDatagramNoExt) || (datagramType =? ObjectDatagramWithExt)
   then
     fun r =>
       let (payload, r') := ReadAll r in
       let result := mset "payload_length" (VUint (len payload)) result in
       if len payload <? 100 then Ok (mset "payload" (VHex payload) result, r')
       else Ok (mset "payload" (VByteCount (len payload)) result, r')
   else
     let* status := decode in
     if negb (isValidObjectStatus status) then failP ErrProtocolViolation
     else retP (mset "status" (VString (getObjectStatusName status)) result))%parser.

Definition ValidateDatagram (data : list byte) (v : MoQTValidator)
  : result Record * MoQTValidator :=
  if len data =? 0 then (Err ErrValidation, v)
  else
    match decode data with
    | Err e => (Err e, v)
    | Ok (datagramType, r) =>
        if negb (isValidDatagramType datagramType) then (Err ErrProtocolViolation, v)
        else
          match datagramBody datagramType r with
          | Err e => (Err e, v)
          | Ok (result, _) => (Ok result, v)
          end
    end.

(** ** Session state and control messages *)

Definition validateRequestID (requestID : Z) (isClient : bool) (v : MoQTValidator)
  : option Error :=
  if isClient then
    if negb (requestID mod 2 =? 0) then Some ErrProtocolViolation
    else if requestID >? maxRequestIDClient v then Some ErrProtocolViolation
    else None
  else
    if negb (requestID mod 2 =? 1) then Some ErrProtocolViolation
    else if requestID >? maxRequestIDServer v then Some ErrProtocolViolation
    else None.

(** [if err := v.validateRequestID(id, isClient); err != nil { return nil, err }] *)
Definition checkRequestID (requestID : Z) (isClient : bool) : M unit :=
  fun r v => match validateRequestID requestID isClient v with
             | Some e => (Err e, v)
             | None => (Ok (tt, r), v)
             end.

Definition aliasTypeNames : Z -> string :=
  lookupName [(0, "DELETE"); (1, "REGISTER"); (2, "USE_ALIAS"); (3, "USE_VALUE")]%string.

(** The REGISTER branch: the budget test in [uint64] arithmetic, then the
    duplicate test, then the two writes. *)
Definition registerToken (result : Record) (tokenValue : list byte) : M unit :=
  fun r v =>
    let tokenSize := uint64 (8 + len tokenValue) in
    if uint64 (currentAuthTokenSize v + tokenSize) >? maxAuthTokenCacheSize v
    then (Err ErrProtocolViolation, v)
    else
      match mget "token_alias" result with
      | Some (VUint alias) =>
          match authTokens v !! alias with
          | Some _ => (Err ErrProtocolViolation, v)
          | None =>
              (Ok (tt, r),
               set_tokens (<[alias := tokenValue]> (authTokens v))
                 (uint64 (currentAuthTokenSize v + tokenSize)) v)
          end
      | _ => (Ok (tt, r), v)
      end.

(** The DELETE and USE_ALIAS branches at the end of [validateAuthToken]. *)
Definition tokenOperation (aliasType : Z) (result : Record) : M unit :=
  fun r v =>
    if aliasType =? AliasTypeDelete then
      match mget "token_alias" result with
      | Some (VUint alias) =>
          match authTokens v !! alias with
          | Some token =>
              let tokenSize := uint64 (8 + len token) in
              (Ok (tt, r),
               set_tokens (delete alias (authTokens v))
                 (uint64 (currentAuthTokenSize v - tokenSize)) v)
          | None => (Ok (tt, r), v)
          end
      | _ => (Ok (tt, r), v)
      end
    else if aliasType =? AliasTypeUseAlias then
      match mget "token_alias" result with
      | Some (VUint alias) =>
          match authTokens v !! alias with
          | Some _ => (Ok (tt, r), v)
          | None => (Err ErrProtocolViolation, v)
          end
      | _ => (Ok (tt, r), v)
      end
    else (Ok (tt, r), v).

(** The body of [validateAuthToken], reading from the reader over
    [tokenData]. *)
Definition authTokenBody : M Record :=
  (let* aliasType := liftP decode in
   if aliasType >? 3 then failM ErrProtocolViolation
   else
     let result := [("alias_type"%string, VString (aliasTypeNames aliasType))] in
     let* result :=
       (if aliasType <=? 2 then
          let* tokenAlias := liftP decode in
          retM (mset "token_alias" (VUint tokenAlias) result)
        else retM result) in
     let* result :=
       (if (aliasType =? 1) || (aliasType =? 3) then
          let* tokenType := liftP decode in
          let result := mset "token_type" (VUint tokenType) result in
          let* tokenValue := liftP (fun r => Ok (ReadAll r)) in
          let result := mset "token_value" (VHex tokenValue) result in
          let result := mset "token_value_length" (VUint (len tokenValue)) result in
          let* _ :=
            (if aliasType =? AliasTypeRegister
             then registerToken result tokenValue else retM tt) in
          retM result
        else retM result) in
     let* _ := tokenOperation aliasType result in
     retM result)%validator.

Definition validateAuthToken (tokenData : list byte) (v : MoQTValidator)
  : result Record * MoQTValidator :=
  match authTokenBody tokenData v with
  | (Ok (result, _), v') => (Ok result, v')
  | (Err e, v') => (Err e, v')
  end.

(** [authDetails, err := v.validateAuthToken(value)] and the copy of the
    details into [paramInfo]. *)
Definition authorizationToken (paramInfo : Record) (value : list byte) : M Record :=
  fun r v =>
    match validateAuthToken value v with
    | (Err e, v') => (Err e, v')
    | (Ok authDetails, v') => (Ok (mergeInto authDetails paramInfo, r), v')
    end.

(** One round of the loop of [validateVersionParameters]. *)
Definition versionParameter (params : list Record) : M (list Record) :=
  (let* paramType := liftP decode in
   let paramInfo := [("type"%string, VUint paramType)] in
   let* (paramInfo, value) :=
     (if paramType mod 2 =? 0 then
        let* val := liftP decode in
        retM (mset "value" (VUint val) paramInfo, [])
      else
        let* length := liftP decode in
        if length >? 65535 then failM ErrProtocolViolation
        else
          let* value := liftP (readFullOr ErrValidation length) in
          retM (mset "length" (VUint length) (mset "value" (VHex value) paramInfo),
                value)) in
   let* paramInfo :=
     (if paramType =? VersionParamAuthorizationToken then
        let paramInfo := mset "name" (VString "AUTHORIZATION_TOKEN") paramInfo in
        if len value >? 0 then authorizationToken paramInfo value
        else retM paramInfo
      else if paramType =? VersionParamDeliveryTimeout then
        retM (mset "name" (VString "DELIVERY_TIMEOUT") paramInfo)
      else if paramType =? VersionParamMaxCacheDuration then
        retM (mset "name" (VString "MAX_CACHE_DURATION") paramInfo)
      else retM paramInfo) in
   retM (params ++ [paramInfo]))%validator.

Definition validateVersionParameters (numParams : Z) : M (list Record) :=
  forM numParams versionParameter [].

(** [numParams] and, when it is positive, the version parameters: the tail
    of SUBSCRIBE, SUBSCRIBE_OK, FETCH, ANNOUNCE and TRACK_STATUS_REQUEST. *)
Definition parametersTail (result : Record) : M Record :=
  (let* numParams := liftP decode in
   let result := mset "num_parameters" (VUint numParams) result in
   if numParams >? 0 then
     let* params := validateVersionParameters numParams in
     retM (mset "parameters" (VList (map VMap params)) result)
   else retM result)%validator.

Definition locationValue (group object : Z) : Value :=
  VMap [("group"%string, VUint group); ("object"%string, VUint object)].

Definition liftResult {A} (x : result A) (e : Error) : M A :=
  fun r v => match x with
             | Ok a => (Ok (a, r), v)
             | Err _ => (Err e, v)
             end.

(** The number of versions, the versions, the number of parameters, the
    setup parameters. *)
Definition validateClientSetup : P Record :=
  (let* numVersions := decode in
   let result := [("num_versions"%string, VUint numVersions)] in
   let* versions :=
     forP numVersions
       (fun versions =>
          let* version := decode in
          retP (versions ++ [VVersion version]))
       [] in
   let result := mset "supported_versions" (VList versions) result in
   let* numParams := decode in
   let result := mset "num_parameters" (VUint numParams) result in
   let* params := validateSetupParameters numParams in
   retP (mset "parameters" (VList (map VMap params)) result))%parser.

Definition validateServerSetup : P Record :=
  (let* version := decode in
   let result := [("selected_version"%string, VVersion version)] in
   let* numParams := decode in
   let result := mset "num_parameters" (VUint numParams) result in
   let* params := validateSetupParameters numParams in
   retP (mset "parameters" (VList (map VMap params)) result))%parser.

Definition validateSubscribe : M Record :=
  (let* requestID := liftP decode in
   let result := [("request_id"%string, VUint requestID)] in
   let* _ := checkRequestID requestID true in
   let* trackAlias := liftP decode in
   let result := mset "track_alias" (VUint trackAlias) result in
   let* namespace := liftP readTuple in
   let result := mset "track_namespace" (hexList namespace) result in
   let* nameLength := liftP decode in
   let* trackName := liftP (readFullOr ErrValidation nameLength) in
   let result := mset "track_name" (VHex trackName) result in
   let* trackNamespace := liftResult (NewTrackNamespace namespace) ErrValidation in
   let* fullTrackName :=
     liftResult (NewFullTrackName trackNamespace trackName) ErrValidation in
   let* priority := liftP (readByteOr ErrValidation) in
   let result := mset "subscriber_priority" (VUint priority) result in
   let* groupOrder := liftP (readByteOr ErrValidation) in
   if groupOrder >? 2 then failM ErrProtocolViolation
   else
   let result := mset "group_order" (VString (getGroupOrderName groupOrder)) result in
   let* forward := liftP (readByteOr ErrValidation) in
   if forward >? 1 then failM ErrProtocolViolation
   else
   let result := mset "forward" (VBool (forward =? 1)) result in
   let* filterType := liftP decode in
   if negb (isValidFilterType filterType) then failM ErrProtocolViolation
   else
   let result := mset "filter_type" (VString (getFilterTypeName filterType)) result in
   let* result :=
     (if (filterType =? AbsoluteStart) || (filterType =? AbsoluteRange) then
        let* startGroup := liftP decode in
        let* startObject := liftP decode in
        retM (mset "start_location" (locationValue startGroup startObject) result)
      else retM result) in
   let* result :=
     (if filterType =? AbsoluteRange then
        let* endGroup := liftP decode in
        let result := mset "end_group" (VUint endGroup) result in
        match mget "start_location" result with
        | Some (VMap startLoc) =>
            let startGroup :=
              match mget "group" startLoc with Some (VUint g) => g | _ => 0 end in
            if endGroup <? startGroup then failM ErrValidation else retM result
        | _ => retM result
        end
      else retM result) in
   let* result := parametersTail result in
   let* _ :=
     modifyV (fun v =>
       set_activeSubscriptions
         (<[requestID := {| track_alias := trackAlias;
                            full_track_name := fullTrackName;
                            filter_type := filterType |}]>
            (activeSubscriptions v)) v) in
   retM result)%validator.

Definition validateSubscribeOK : M Record :=
  (let* requestID := liftP decode in
   let result := [("request_id"%string, VUint requestID)] in
   let* expires := liftP decode in
   let result := mset "expires_ms" (VUint expires) result in
   let* groupOrder := liftP (readByteOr ErrValidation) in
   if (groupOrder =? 0) || (groupOrder >? 2) then failM ErrProtocolViolation
   else
   let result := mset "group_order" (VString (getGroupOrderName groupOrder)) result in
   let* contentExists := liftP (readByteOr ErrValidation) in
   if contentExists >? 1 then failM ErrProtocolViolation
   else
   let result := mset "content_exists" (VBool (contentExists =? 1)) result in
   let* result :=
     (if contentExists =? 1 then
        let* largestGroup := liftP decode in
        let* largestObject := liftP decode in
        retM (mset "largest_location" (locationValue largestGroup largestObject) result)
      else retM result) in
   parametersTail result)%validator.

Definition fetchTypeNames (fetchType : Z) : string :=
  if fetchType =? 1 then "STANDALONE"
  else if fetchType =? 2 then "RELATIVE_JOINING"
  else "ABSOLUTE_JOINING".

Definition validateFetch : M Record :=
  (let* requestID := liftP decode in
   let result := [("request_id"%string, VUint requestID)] in
   let* _ := checkRequestID requestID true in
   let* priority := liftP (readByteOr ErrValidation) in
   let result := mset "subscriber_priority" (VUint priority) result in
   let* groupOrder := liftP (readByteOr ErrValidation) in
   if groupOrder >? 2 then failM ErrProtocolViolation
   else
   let result := mset "group_order" (VString (getGroupOrderName groupOrder)) result in
   let* fetchType := liftP decode in
   if (fetchType <? 1) || (fetchType >? 3) then failM ErrProtocolViolation
   else
   let result := mset "fetch_type" (VString (fetchTypeNames fetchType)) result in
   let* result :=
     (if fetchType =? 1 then
        let* namespace := liftP readTuple in
        let result := mset "track_namespace" (hexList namespace) result in
        let* nameLength := liftP decode in
        let* trackName := liftP (readFull nameLength) in
        let result := mset "track_name" (VHex trackName) result in
        let* startGroup := liftP decode in
        let* startObject := liftP decode in
        let result := mset "start" (locationValue startGroup startObject) result in
        let* endGroup := liftP decode in
        let* endObject := liftP decode in
        let result := mset "end" (locationValue endGroup endObject) result in
        let startLoc := {| GroupID := startGroup; ObjectID := startObject |} in
        let endLoc := {| GroupID := endGroup; ObjectID := endObject |} in
        if Less endLoc startLoc then failM ErrValidation else retM result
      else
        let* subscribeID := liftP decode in
        let result := mset "joining_subscribe_id" (VUint subscribeID) result in
        let* joiningStart := liftP decode in
        retM (mset "joining_start" (VUint joiningStart) result)) in
   let* result := parametersTail result in
   let* _ :=
     modifyV (fun v =>
       set_activeFetches (<[requestID := result]> (activeFetches v)) v) in
   retM result)%validator.

Definition validateAnnounce : M Record :=
  (let* requestID := liftP decode in
   let result := [("request_id"%string, VUint requestID)] in
   let* _ := checkRequestID requestID true in
   let* namespace := liftP readTuple in
   let result := mset "track_namespace" (hexList namespace) result in
   parametersTail result)%validator.

Definition validateGoaway : P Record :=
  (let* uriLength := decode in
   if uriLength >? 8192 then failP ErrProtocolViolation
   else if uriLength >? 0 then
     let* uri := readFullOr ErrValidation uriLength in
     retP [("new_session_uri"%string, VString (Stdlib.Strings.String.string_of_list_byte uri))]
   else retP [("new_session_uri"%string, VNil)])%parser.

Definition validateMaxRequestID : P Record :=
  (let* requestID := decode in
   retP [("max_request_id"%string, VUint requestID)])%parser.

Definition validateTrackStatusRequest : M Record :=
  (let* requestID := liftP decode in
   let result := [("request_id"%string, VUint requestID)] in
   let* _ := checkRequestID requestID true in
   let* namespace := liftP readTuple in
   let result := mset "track_namespace" (hexList namespace) result in
   let* nameLength := liftP decode in
   let* trackName := liftP (readFull nameLength) in
   let result := mset "track_name" (VHex trackName) result in
   parametersTail result)%validator.

(** The [switch msgType] of [validateControlMessage]: the validator of the
    payload, or [None] for the types whose payload is kept as it is. *)
Definition payloadValidator (msgType : Z) : option (M Record) :=
  if msgType =? ClientSetup then Some (liftP validateClientSetup)
  else if msgType =? ServerSetup then Some (liftP validateServerSetup)
  else if msgType =? Subscribe then Some validateSubscribe
  else if msgType =? SubscribeOK then Some validateSubscribeOK
  else if msgType =? Fetch then Some validateFetch
  else if msgType =? Announce then Some validateAnnounce
  else if msgType =? Goaway then Some (liftP validateGoaway)
  else if msgType =? MaxRequestID then Some (liftP validateMaxRequestID)
  else if msgType =? TrackStatusRequest then Some validateTrackStatusRequest
  else None.

(** The framing of a control message: type, 16-bit length, payload. *)
Definition controlFrame : P (Z * Z * list byte) :=
  fun r =>
    match VarInt.Decode r with
    | (_, _, Some _, _) => Err ErrValidation
    | (msgType, _, None, r1) =>
        if negb (isValidMessageType msgType) then Err ErrProtocolViolation
        else
          match ReadFull 2 r1 with
          | (Err _, _) => Err ErrValidation
          | (Ok lengthBytes, r2) =>
              let msgLength := BigEndian.Uint16 lengthBytes in
              match ReadFull msgLength r2 with
              | (Err _, _) => Err ErrValidation
              | (Ok payload, r3) => Ok (msgType, msgLength, payload, r3)
              end
          end
    end.

Definition validateControlMessage : M Record :=
  (let* (msgType, msgLength, payload) := liftP controlFrame in
   let result := [("type"%string, VString (getMessageTypeName msgType));
                  ("type_value"%string, VUint msgType);
                  ("length"%string, VUint msgLength)] in
   match payloadValidator msgType with
   | Some validate =>
       let* details := onBuffer payload validate in
       retM (mergeInto details result)
   | None => retM (mset "raw_payload" (VHex payload) result)
   end)%validator.

Definition ValidateMessage (data : list byte) (isControlStream : bool)
  (v : MoQTValidator) : result Record * MoQTValidator :=
  if len data =? 0 then (Err ErrValidation, v)
  else if isControlStream then
    match validateControlMessage data v with
    | (Ok (result, _), v') => (Ok result, v')
    | (Err e, v') => (Err e, v')
    end
  else (validateDataStream data, v).

(** ** Wire encodings

    The source only decodes.  The encoders below write the wire form of the
    fields the decoders read, with [VarInt.Encode] for every varint; they are
    used to state properties over all messages of a kind. *)

Definition enc (value : Z) : list byte :=
  match VarInt.Encode value with
  | Ok bs => bs
  | Err _ => []
  end.

(** A length-prefixed byte field. *)
Definition encBytes (bs : list byte) : list byte := enc (len bs) ++ bs.

(** A tuple: the number of fields, then each field length-prefixed. *)
Definition encTuple (fields : list (list byte)) : list byte :=
  enc (len fields) ++ concat (map encBytes fields).

(** A control message: type, 16-bit big-endian length, payload. *)
Definition encControl (msgType : Z) (payload : list byte) : list byte :=
  enc msgType ++ BigEndian.PutUint16 (len payload) ++ payload.

(** A subgroup object as it is written on the wire: the object ID, the
    extension-header bytes (written only when the header type has
    extensions), the payload, and the status written when the payload is
    empty. *)
Record SubgroupObject : Type := {
  oid : Z;
  oext : list byte;
  opayload : list byte;
  ostatus : Z
}.

Definition encObject (extensionsPresent : bool) (o : SubgroupObject) : list byte :=
  enc (oid o)
  ++ (if extensionsPresent then encBytes (oext o) else [])
  ++ enc (len (opayload o))
  ++ (if len (opayload o) =? 0 then enc (ostatus o) else opayload o).

(** The fields are in range for their encodings, the status is one of the
    four defined ones, and the extension bytes are a list of headers. *)
Definition wfObject (extensionsPresent : bool) (o : SubgroupObject) : Prop :=
  0 <= oid o < 2 ^ 62
  /\ len (opayload o) < 2 ^ 62
  /\ (len (opayload o) = 0 -> isValidObjectStatus (ostatus o) = true)
  /\ (extensionsPresent = true ->
      len (oext o) < 2 ^ 62 /\ is_ok (validateExtensionHeaders (oext o)) = true).

(** A subgroup stream: stream type, track alias, group ID, the subgroup ID
    for the types that carry one, publisher priority, objects. *)
Definition encSubgroupStream (streamType trackAlias groupID subgroupID : Z)
  (priority : byte) (objs : list SubgroupObject) : list byte :=
  match typeInfo streamType with
  | Some (subgroupIDPresent, _, extensionsPresent) =>
      enc streamType ++ enc trackAlias ++ enc groupID
      ++ (if subgroupIDPresent then enc subgroupID else [])
      ++ [priority]
      ++ concat (map (encObject extensionsPresent) objs)
  | None => []
  end.

(** Object IDs strictly ascending from one object to the next. *)
Fixpoint ascending (ids : list Z) : bool :=
  match ids with
  | a :: ((b :: _) as rest) => (a <? b) && ascending rest
  | _ => true
  end.

(** The payload of a standalone FETCH without parameters. *)
Definition encStandaloneFetch (requestID : Z) (priority groupOrder : byte)
  (namespace : list (list byte)) (name : list byte) (startLoc endLoc : Location)
  : list byte :=
  enc requestID ++ [priority] ++ [groupOrder] ++ enc 1
  ++ encTuple namespace ++ encBytes name
  ++ enc (GroupID startLoc) ++ enc (ObjectID startLoc)
  ++ enc (GroupID endLoc) ++ enc (ObjectID endLoc).

(** An AUTHORIZATION_TOKEN value that registers [tokenValue] under [alias]. *)
Definition encRegister (alias tokenType : Z) (tokenValue : list byte) : list byte :=
  enc AliasTypeRegister ++ enc alias ++ enc tokenType ++ tokenValue.

(** ** The token cache budget *)

(** The budget charged for the cache: [8 + len(value)] per entry. *)
Definition tokenSum (m : gmap Z (list byte)) : Z :=
  map_fold (fun _ token acc => 8 + len token + acc) 0 m.

Definition tokenBudget (v : MoQTValidator) : Prop :=
  tokenSum (authTokens v) = currentAuthTokenSize v
  /\ currentAuthTokenSize v <= maxAuthTokenCacheSize v.

(** One call of an entry point, whatever it returns. *)
Inductive call : MoQTValidator -> MoQTValidator -> Prop :=
| call_message data isControlStream v :
    call v (snd (ValidateMessage data isControlStream v))
| call_datagram data v :
    call v (snd (ValidateDatagram data v)).

(** The states a session goes through from [v0]. *)
Inductive reachable (v0 : MoQTValidator) : MoQTValidator -> Prop :=
| reachable_start : reachable v0 v0
| reachable_call v v' : reachable v0 v -> call v v' -> reachable v0 v'.

(** ** Vocabulary of the properties *)

Definition shrinks {A} (p : P A) : Prop :=
  forall r a r', p r = Ok (a, r') -> (length r' <= length r)%nat.

Definition consumes {A} (p : P A) : Prop :=
  forall r a r', p r = Ok (a, r') -> (length r' < length r)%nat.

Definition shrinksM {A} (m : M A) : Prop :=
  forall r v a r' v', m r v = (Ok (a, r'), v') -> (length r' <= length r)%nat.

Definition consumesM {A} (m : M A) : Prop :=
  forall r v a r' v', m r v = (Ok (a, r'), v') -> (length r' < length r)%nat.

Definition clientSetupExample : list byte :=
  encControl ClientSetup (bytes_of [1; 1; 2; 2; 0x40; 100; 4; 0x40; 64]).

Definition encMaxRequestID (requestID : Z) : list byte :=
  encControl MaxRequestID (enc requestID).

Definition emptyTokenInfo : Record :=
  [("type"%string, VUint 1); ("value"%string, VHex []);
   ("length"%string, VUint 0); ("name"%string, VString "AUTHORIZATION_TOKEN")].

Definition inRange (l : Location) : Prop :=
  0 <= GroupID l < 2 ^ 62 /\ 0 <= ObjectID l < 2 ^ 62.

(** Whether the objects of a subgroup stream of this type carry extension
    headers: the third cell of the type matrix. *)
Definition extensionsOf (streamType : Z) : bool :=
  match typeInfo streamType with
  | Some (_, _, extensionsPresent) => extensionsPresent
  | None => false
  end.

(** The budget holds and the limit is [limit]. *)
Definition withinBudget (limit : Z) (v : MoQTValidator) : Prop :=
  tokenBudget v /\ maxAuthTokenCacheSize v = limit.

(** A method keeps a property of the validator, whatever it reads and
    whatever it returns. *)
Definition preserves {A} (I : MoQTValidator -> Prop) (m : M A) : Prop :=
  forall r v, I v -> I (snd (m r v)).

(** A method that only reads: the validator is returned as it was. *)
Definition readOnly {A} (m : M A) : Prop :=
  forall r v, snd (m r v) = v.

(** A method keeps a property of the validator when the reader it starts
    from holds at most [n] bytes. *)
Definition preservesUpTo {A} (n : Z) (I : MoQTValidator -> Prop) (m : M A) : Prop :=
  forall r v, len r <= n -> I v -> I (snd (m r v)).

(** A new validator whose token cache limit is [limit], as a session would
    have it had the limit been negotiated. *)
Definition validatorWithCache (limit : Z) : MoQTValidator :=
  {| currentVersion := 0x00000001;
     maxRequestIDClient := 0;
     maxRequestIDServer := 0;
     activeTracks := ∅;
     activeSubscriptions := ∅;
     activeFetches := ∅;
     authTokens := ∅;
     maxAuthTokenCacheSize := limit;
     currentAuthTokenSize := 0 |}.

(** ANNOUNCE, request ID 0, namespace ["a"], one AUTHORIZATION_TOKEN
    parameter that registers the four bytes 1 2 3 4 under alias 3. *)
Definition announceRegisterExample : list byte :=
  encControl Announce
    (bytes_of [0; 1; 1; 97; 1; 1; 7] ++ encRegister 3 0 (bytes_of [1; 2; 3; 4])).

(** Two validators that agree on every field but the table of live
    subscriptions and the track-alias table. *)
Definition sameSession (v1 v2 : MoQTValidator) : Prop :=
  currentVersion v1 = currentVersion v2
  /\ maxRequestIDClient v1 = maxRequestIDClient v2
  /\ maxRequestIDServer v1 = maxRequestIDServer v2
  /\ activeFetches v1 = activeFetches v2
  /\ authTokens v1 = authTokens v2
  /\ maxAuthTokenCacheSize v1 = maxAuthTokenCacheSize v2
  /\ currentAuthTokenSize v1 = currentAuthTokenSize v2.

(** A method whose result does not depend on the live subscriptions or on
    the track-alias table, and which treats the other fields alike. *)
Definition blind {A} (m : M A) : Prop :=
  forall r v1 v2,
    sameSession v1 v2 ->
    fst (m r v1) = fst (m r v2) /\ sameSession (snd (m r v1)) (snd (m r v2)).

(** The two tables hold what they held. *)
Definition tablesAre (subs : gmap Z SubscriptionInfo) (tracks : gmap Z FullTrackName)
  (v : MoQTValidator) : Prop :=
  activeSubscriptions v = subs /\ activeTracks v = tracks.

(** SUBSCRIBE, no parameters: request ID, track alias 10, namespace ["live"],
    name "cam", priority 128, ascending, forward, filter LATEST_OBJECT. *)
Definition subscribeExample (requestID : Z) : list byte :=
  encControl Subscribe
    (bytes_of [requestID; 10; 1; 4; 108; 105; 118; 101; 3; 99; 97; 109;
               128; 1; 1; 2; 0]).

(** From [v] to [v']: a subscription with track alias [trackAlias] has been
    written under [requestID], over whatever was there; nothing else in
    the two tables has changed. *)
Definition stored (requestID trackAlias : Z) (v v' : MoQTValidator) : Prop :=
  exists info,
    track_alias info = trackAlias
    /\ activeSubscriptions v' = <[requestID := info]> (activeSubscriptions v)
    /\ activeTracks v' = activeTracks v.

(** A method that, when it succeeds, has stored such a subscription. *)
Definition stores {A} (requestID trackAlias : Z) (m : M A) : Prop :=
  forall r v a r' v', m r v = (Ok (a, r'), v') -> stored requestID trackAlias v v'.

(** A validator with limits 10 and 64, for the scenarios. *)
Definition scenarioValidator : MoQTValidator :=
  set_activeSubscriptions ∅
    {| currentVersion := 1; maxRequestIDClient := 10; maxRequestIDServer := 0;
       activeTracks := ∅; activeSubscriptions := ∅; activeFetches := ∅;
       authTokens := ∅; maxAuthTokenCacheSize := 64; currentAuthTokenSize := 0 |}.

(** SUBSCRIBE with filter ABSOLUTE_RANGE from (5, 0) to [endGroup]. *)
Definition subscribeRange (endGroup : Z) : list byte :=
  encControl Subscribe
    (bytes_of [2; 10; 1; 4; 108; 105; 118; 101; 3; 99; 97; 109;
               128; 1; 1; 4; 5; 0; endGroup; 0]).

(** The number of bytes the first byte of a varint announces: the
    [switch prefix] of [VarInt.Decode]. *)
Definition varintLength (first : byte) : Z :=
  let prefix := Z.shiftr (u8 first) 6 in
  if prefix =? 0 then 1
  else if prefix =? 1 then 2
  else if prefix =? 2 then 4
  else 8.

(** The message types for which [validateControlMessage] has no case: the
    [default] branch keeps their payload as it is. *)
Definition opaqueTypes : list Z :=
  [RequestsBlocked; SubscribeError; Unsubscribe; SubscribeUpdate; SubscribeDone;
   FetchOK; FetchError; FetchCancel; TrackStatus;
   AnnounceOK; AnnounceError; Unannounce; AnnounceCancel;
   SubscribeAnnounces; SubscribeAnnouncesOK; SubscribeAnnouncesError;
   UnsubscribeAnnounces].

(** The message types [validateControlMessage] has a case for. *)
Definition parsedTypes : list Z :=
  [ClientSetup; ServerSetup; Subscribe; SubscribeOK; Fetch; Announce; Goaway;
   MaxRequestID; TrackStatusRequest].

(** The fields no message is meant to change but a setup: the version, the
    two request-ID limits, the track-alias table and the cache limit. *)
Definition sameLimits (v0 v : MoQTValidator) : Prop :=
  currentVersion v = currentVersion v0
  /\ maxRequestIDClient v = maxRequestIDClient v0
  /\ maxRequestIDServer v = maxRequestIDServer v0
  /\ activeTracks v = activeTracks v0
  /\ maxAuthTokenCacheSize v = maxAuthTokenCacheSize v0.

(** Every request ID with a live subscription or fetch in [v0] has one in [v]. *)
Definition stillLive (v0 v : MoQTValidator) : Prop :=
  dom (activeSubscriptions v0) ⊆ dom (activeSubscriptions v)
  /\ dom (activeFetches v0) ⊆ dom (activeFetches v).

(** The two tables of requests hold what they hold in [v0]. *)
Definition sameRequests (v0 v : MoQTValidator) : Prop :=
  activeSubscriptions v = activeSubscriptions v0
  /\ activeFetches v = activeFetches v0.

(** A method that, when it fails, has kept a property of the validator. *)
Definition failsKeeping {A} (I : MoQTValidator -> Prop) (m : M A) : Prop :=
  forall r v e v', I v -> m r v = (Err e, v') -> I v'.

(** AUTHORIZATION_TOKEN values for the other three alias types. *)
Definition encDelete (alias : Z) : list byte :=
  enc AliasTypeDelete ++ enc alias.

Definition encUseAlias (alias : Z) : list byte :=
  enc AliasTypeUseAlias ++ enc alias.

Definition encUseValue (tokenType : Z) (tokenValue : list byte) : list byte :=
  enc AliasTypeUseValue ++ enc tokenType ++ tokenValue.

(** A version parameter of type AUTHORIZATION_TOKEN carrying [token]. *)
Definition encTokenParameter (token : list byte) : list byte :=
  enc VersionParamAuthorizationToken ++ encBytes token.

(** [m] leaves the validator as it was whenever it returns an error. *)
Definition atomic {A} (m : M A) : Prop :=
  forall r v e v', m r v = (Err e, v') -> v' = v.

(** What [validateAuthToken] returns for a REGISTER. *)
Definition registerDetails (alias tokenType : Z) (tokenValue : list byte) : Record :=
  [("alias_type"%string, VString "REGISTER"); ("token_alias"%string, VUint alias);
   ("token_type"%string, VUint tokenType); ("token_value"%string, VHex tokenValue);
   ("token_value_length"%string, VUint (len tokenValue))].

Definition deleteDetails (alias : Z) : Record :=
  [("alias_type"%string, VString "DELETE"); ("token_alias"%string, VUint alias)].

Definition useAliasDetails (alias : Z) : Record :=
  [("alias_type"%string, VString "USE_ALIAS"); ("token_alias"%string, VUint alias)].

(** The name a lookup falls back to: [fmt.Sprintf("UNKNOWN_%d", x)]. *)
Definition unknownName (x : Z) : string := "UNKNOWN_" +:+ pretty x.

(** An object datagram without extensions. *)
Definition encObjectDatagram (trackAlias groupID objectID : Z) (priority : byte)
  (payload : list byte) : list byte :=
  enc ObjectDatagramNoExt ++ enc trackAlias ++ enc groupID ++ enc objectID
  ++ [priority] ++ payload.

(** The bytes after the last object of a stream never make [make] allocate
    more than they hold plus 65535 bytes: either no read failed for lack of
    bytes (such a failure is the only source of [ErrValidation] in an
    object), or 65535 more bytes would have completed the object. *)
Definition modestTail (extensionsPresent : bool) (tail : list byte) (e : Error) : Prop :=
  e <> ErrValidation
  \/ exists padding,
       len padding <= 65535
       /\ is_ok (validateSubgroupObject extensionsPresent (tail ++ padding)) = true.

(** The same for an object of a fetch stream. *)
Definition modestFetchTail (tail : list byte) (e : Error) : Prop :=
  e <> ErrValidation
  \/ exists padding,
       len padding <= 65535
       /\ is_ok (validateFetchObject (tail ++ padding)) = true.

(** The objects of a subgroup stream read from [r]: the first one that fails
    to decode, if there is one, is modest.  The objects before it decode, so
    every buffer [make] allocates for them is filled from [r]. *)
Fixpoint modestSubgroupObjects (fuel : nat) (extensionsPresent : bool) (r : Reader)
  : Prop :=
  match validateSubgroupObject extensionsPresent r with
  | Err e => modestTail extensionsPresent r e
  | Ok (_, r') =>
      match fuel with
      | O => True
      | S fuel' => modestSubgroupObjects fuel' extensionsPresent r'
      end
  end.

Fixpoint modestFetchObjects (fuel : nat) (r : Reader) : Prop :=
  match validateFetchObject r with
  | Err e => modestFetchTail r e
  | Ok (_, r') =>
      match fuel with
      | O => True
      | S fuel' => modestFetchObjects fuel' r'
      end
  end.

(** A fetch stream, after its request ID. *)
Definition modestFetchStream (r : Reader) : Prop :=
  match decode r with
  | Ok (_, r1) => modestFetchObjects (length r1) r1
  | Err _ => True
  end.

(** ** Properties *)

(** *** Bytes *)

Lemma u8_range (b : byte) : 0 <= u8 b < 256.
Proof.
  unfold u8. pose proof (Byte.to_N_bounded b). lia.
Qed.

Lemma u8_byte_of (z : Z) : u8 (byte_of z) = z mod 256.
Proof.
  unfold u8, byte_of.
  assert (Hr : 0 <= z mod 256 < 256) by (apply Z.mod_pos_bound; lia).
  destruct (Byte.of_N (Z.to_N (z mod 256))) as [b|] eqn:E.
  - apply Byte.to_of_N in E. rewrite E. lia.
  - apply Byte.of_N_None_iff in E. lia.
Qed.

Lemma byte_of_u8 (b : byte) : byte_of (u8 b) = b.
Proof.
  unfold byte_of. pose proof (u8_range b) as Hr.
  rewrite Z.mod_small by lia. unfold u8. rewrite N2Z.id, Byte.of_to_N. reflexivity.
Qed.

Lemma lor_shiftl_add (a b n : Z) :
  0 <= n -> 0 <= a < 2 ^ n -> Z.lor a (Z.shiftl b n) = a + b * 2 ^ n.
Proof.
  intros Hn Ha. rewrite <- Z.shiftl_mul_pow2 by lia.
  symmetry. apply Z.add_nocarry_lor.
  apply Z.bits_inj'. intros i Hi.
  rewrite Z.land_spec, Z.bits_0.
  destruct (Z.lt_ge_cases i n) as [Hlt|Hge].
  - rewrite (Z.shiftl_spec_low b n i) by lia. apply andb_false_r.
  - assert (Z.testbit a i = false) as ->; [|reflexivity].
    destruct (Z.eq_dec a 0) as [->|Hne]; [apply Z.bits_0|].
    apply Z.bits_above_log2; [lia|].
    apply Z.lt_le_trans with n; [|lia].
    apply Z.log2_lt_pow2; lia.
Qed.

Lemma Uint16_eq b0 b1 : BigEndian.Uint16 [b0; b1] = u8 b1 + u8 b0 * 2 ^ 8.
Proof.
  unfold BigEndian.Uint16. pose proof (u8_range b1).
  rewrite lor_shiftl_add by lia. reflexivity.
Qed.

Lemma Uint32_eq b0 b1 b2 b3 :
  BigEndian.Uint32 [b0; b1; b2; b3]
  = u8 b3 + u8 b2 * 2 ^ 8 + u8 b1 * 2 ^ 16 + u8 b0 * 2 ^ 24.
Proof.
  unfold BigEndian.Uint32.
  pose proof (u8_range b0). pose proof (u8_range b1).
  pose proof (u8_range b2). pose proof (u8_range b3).
  rewrite (lor_shiftl_add (u8 b3)) by lia.
  rewrite (lor_shiftl_add (u8 b3 + _)) by lia.
  rewrite (lor_shiftl_add (u8 b3 + _ + _)) by lia.
  reflexivity.
Qed.

Lemma Uint64_eq b0 b1 b2 b3 b4 b5 b6 b7 :
  BigEndian.Uint64 [b0; b1; b2; b3; b4; b5; b6; b7]
  = u8 b7 + u8 b6 * 2 ^ 8 + u8 b5 * 2 ^ 16 + u8 b4 * 2 ^ 24
    + u8 b3 * 2 ^ 32 + u8 b2 * 2 ^ 40 + u8 b1 * 2 ^ 48 + u8 b0 * 2 ^ 56.
Proof.
  unfold BigEndian.Uint64.
  pose proof (u8_range b0). pose proof (u8_range b1).
  pose proof (u8_range b2). pose proof (u8_range b3).
  pose proof (u8_range b4). pose proof (u8_range b5).
  pose proof (u8_range b6). pose proof (u8_range b7).
  rewrite (lor_shiftl_add (u8 b7)) by lia.
  rewrite (lor_shiftl_add (u8 b7 + _)) by lia.
  rewrite (lor_shiftl_add (u8 b7 + _ + _)) by lia.
  rewrite (lor_shiftl_add (u8 b7 + _ + _ + _)) by lia.
  rewrite (lor_shiftl_add (u8 b7 + _ + _ + _ + _)) by lia.
  rewrite (lor_shiftl_add (u8 b7 + _ + _ + _ + _ + _)) by lia.
  rewrite (lor_shiftl_add (u8 b7 + _ + _ + _ + _ + _ + _)) by lia.
  reflexivity.
Qed.

Lemma len_app {A} (l1 l2 : list A) : len (l1 ++ l2) = len l1 + len l2.
Proof. unfold len. rewrite length_app. lia. Qed.

Lemma len_nonneg {A} (l : list A) : 0 <= len l.
Proof. unfold len. lia. Qed.

Lemma ReadFull_app (bs r : list byte) : ReadFull (len bs) (bs ++ r) = (Ok bs, r).
Proof.
  unfold ReadFull.
  destruct (len bs =? 0) eqn:E0.
  - apply Z.eqb_eq in E0. unfold len in E0.
    destruct bs; [reflexivity|simpl in E0; lia].
  - apply Z.eqb_neq in E0. pose proof (len_nonneg bs). pose proof (len_nonneg r).
    rewrite len_app.
    destruct (len bs + len r =? 0) eqn:E1; [apply Z.eqb_eq in E1; lia|].
    destruct (len bs + len r <? len bs) eqn:E2; [apply Z.ltb_lt in E2; lia|].
    unfold len. rewrite Nat2Z.id, take_app_length, drop_app_length. reflexivity.
Qed.

Lemma ReadFull_1 b r : ReadFull 1 (b :: r) = (Ok [b], r).
Proof. exact (ReadFull_app [b] r). Qed.

Lemma ReadFull_3 b1 b2 b3 r : ReadFull 3 (b1 :: b2 :: b3 :: r) = (Ok [b1; b2; b3], r).
Proof. exact (ReadFull_app [b1; b2; b3] r). Qed.

Lemma ReadFull_7 b1 b2 b3 b4 b5 b6 b7 r :
  ReadFull 7 (b1 :: b2 :: b3 :: b4 :: b5 :: b6 :: b7 :: r)
  = (Ok [b1; b2; b3; b4; b5; b6; b7], r).
Proof. exact (ReadFull_app [b1; b2; b3; b4; b5; b6; b7] r). Qed.

Lemma lor_high (v n : Z) (k : Z) :
  0 <= n -> 0 <= v < 2 ^ n -> Z.lor v (k * 2 ^ n) = v + k * 2 ^ n.
Proof.
  intros. rewrite <- (Z.shiftl_mul_pow2 k n) by lia.
  rewrite lor_shiftl_add by lia. rewrite Z.shiftl_mul_pow2 by lia. reflexivity.
Qed.

Ltac value_is v :=
  match goal with
  | |- (?a, _, _, _) = _ =>
      replace a with v; [reflexivity | Z.div_mod_to_equations; lia]
  end.

Lemma Decode_enc1 v r : 0 <= v < 0x40 ->
  VarInt.Decode (byte_of v :: r) = (v, 1, None, r).
Proof.
  intros Hv. unfold VarInt.Decode. rewrite ReadFull_1.
  rewrite u8_byte_of, Z.shiftr_div_pow2 by lia.
  rewrite (Z.mod_small v 256) by lia.
  rewrite (Z.div_small v (2 ^ 6)) by lia. reflexivity.
Qed.

Lemma Decode_enc2 v r : 0x40 <= v < 0x4000 ->
  VarInt.Decode (BigEndian.PutUint16 (uint16 (Z.lor v 0x4000)) ++ r) = (v, 2, None, r).
Proof.
  intros Hv. unfold VarInt.Decode, BigEndian.PutUint16.
  assert (Hl : Z.lor v 0x4000 = v + 16384)
    by (change 0x4000 with (1 * 2 ^ 14); rewrite lor_high by lia; lia).
  rewrite Hl. unfold uint16.
  set (x := (v + 16384) mod 2 ^ 16).
  assert (Hx : x = v + 16384) by (unfold x; rewrite Z.mod_small; lia).
  set (b0 := byte_of (Z.shiftr x 8)). set (b1 := byte_of x).
  assert (H0 : u8 b0 = x / 256 mod 256)
    by (unfold b0; rewrite u8_byte_of, Z.shiftr_div_pow2 by lia; reflexivity).
  assert (H1 : u8 b1 = x mod 256) by (unfold b1; apply u8_byte_of).
  cbn [app]. rewrite ReadFull_1.
  rewrite Z.shiftr_div_pow2 by lia.
  assert (Hp : u8 b0 / 2 ^ 6 = 1) by (rewrite H0; Z.div_mod_to_equations; lia).
  rewrite Hp. cbn [Z.eqb Pos.eqb]. rewrite ReadFull_1.
  cbn [app]. rewrite Uint16_eq.
  change 0x3FFF with (Z.ones 14). rewrite Z.land_ones by lia.
  rewrite H0, H1. value_is v.
Qed.

Lemma Decode_enc4 v r : 0x4000 <= v < 0x40000000 ->
  VarInt.Decode (BigEndian.PutUint32 (uint32 (Z.lor v 0x80000000)) ++ r) = (v, 4, None, r).
Proof.
  intros Hv. unfold VarInt.Decode, BigEndian.PutUint32.
  assert (Hl : Z.lor v 0x80000000 = v + 2147483648)
    by (change 0x80000000 with (2 * 2 ^ 30); rewrite lor_high by lia; lia).
  rewrite Hl. unfold uint32.
  set (x := (v + 2147483648) mod 2 ^ 32).
  assert (Hx : x = v + 2147483648) by (unfold x; rewrite Z.mod_small; lia).
  set (b0 := byte_of (Z.shiftr x 24)). set (b1 := byte_of (Z.shiftr x 16)).
  set (b2 := byte_of (Z.shiftr x 8)). set (b3 := byte_of x).
  assert (H0 : u8 b0 = x / 2 ^ 24 mod 256)
    by (unfold b0; rewrite u8_byte_of, Z.shiftr_div_pow2 by lia; reflexivity).
  assert (H1 : u8 b1 = x / 2 ^ 16 mod 256)
    by (unfold b1; rewrite u8_byte_of, Z.shiftr_div_pow2 by lia; reflexivity).
  assert (H2 : u8 b2 = x / 2 ^ 8 mod 256)
    by (unfold b2; rewrite u8_byte_of, Z.shiftr_div_pow2 by lia; reflexivity).
  assert (H3 : u8 b3 = x mod 256) by (unfold b3; apply u8_byte_of).
  cbn [app]. rewrite ReadFull_1.
  rewrite Z.shiftr_div_pow2 by lia.
  assert (Hp : u8 b0 / 2 ^ 6 = 2) by (rewrite H0; Z.div_mod_to_equations; lia).
  rewrite Hp. cbn [Z.eqb Pos.eqb]. rewrite ReadFull_3.
  cbn [app]. rewrite Uint32_eq.
  change 0x3FFFFFFF with (Z.ones 30). rewrite Z.land_ones by lia.
  rewrite H0, H1, H2, H3. value_is v.
Qed.

Lemma Decode_enc8 v r : 0x40000000 <= v < 0x4000000000000000 ->
  VarInt.Decode (BigEndian.PutUint64 (Z.lor v 0xC000000000000000) ++ r) = (v, 8, None, r).
Proof.
  intros Hv. unfold VarInt.Decode, BigEndian.PutUint64.
  assert (Hl : Z.lor v 0xC000000000000000 = v + 13835058055282163712)
    by (change 0xC000000000000000 with (3 * 2 ^ 62); rewrite lor_high by lia; lia).
  rewrite Hl.
  set (x := v + 13835058055282163712).
  assert (Hx : x = v + 13835058055282163712) by (unfold x; lia).
  set (b0 := byte_of (Z.shiftr x 56)). set (b1 := byte_of (Z.shiftr x 48)).
  set (b2 := byte_of (Z.shiftr x 40)). set (b3 := byte_of (Z.shiftr x 32)).
  set (b4 := byte_of (Z.shiftr x 24)). set (b5 := byte_of (Z.shiftr x 16)).
  set (b6 := byte_of (Z.shiftr x 8)). set (b7 := byte_of x).
  assert (H0 : u8 b0 = x / 2 ^ 56 mod 256)
    by (unfold b0; rewrite u8_byte_of, Z.shiftr_div_pow2 by lia; reflexivity).
  assert (H1 : u8 b1 = x / 2 ^ 48 mod 256)
    by (unfold b1; rewrite u8_byte_of, Z.shiftr_div_pow2 by lia; reflexivity).
  assert (H2 : u8 b2 = x / 2 ^ 40 mod 256)
    by (unfold b2; rewrite u8_byte_of, Z.shiftr_div_pow2 by lia; reflexivity).
  assert (H3 : u8 b3 = x / 2 ^ 32 mod 256)
    by (unfold b3; rewrite u8_byte_of, Z.shiftr_div_pow2 by lia; reflexivity).
  assert (H4 : u8 b4 = x / 2 ^ 24 mod 256)
    by (unfold b4; rewrite u8_byte_of, Z.shiftr_div_pow2 by lia; reflexivity).
  assert (H5 : u8 b5 = x / 2 ^ 16 mod 256)
    by (unfold b5; rewrite u8_byte_of, Z.shiftr_div_pow2 by lia; reflexivity).
  assert (H6 : u8 b6 = x / 2 ^ 8 mod 256)
    by (unfold b6; rewrite u8_byte_of, Z.shiftr_div_pow2 by lia; reflexivity).
  assert (H7 : u8 b7 = x mod 256) by (unfold b7; apply u8_byte_of).
  cbn [app]. rewrite ReadFull_1.
  rewrite Z.shiftr_div_pow2 by lia.
  assert (Hp : u8 b0 / 2 ^ 6 = 3) by (rewrite H0; Z.div_mod_to_equations; lia).
  rewrite Hp. cbn [Z.eqb Pos.eqb]. rewrite ReadFull_7.
  cbn [app]. rewrite Uint64_eq.
  change 0x3FFFFFFFFFFFFFFF with (Z.ones 62). rewrite Z.land_ones by lia.
  rewrite H0, H1, H2, H3, H4, H5, H6, H7. value_is v.
Qed.

(** *** The varint codec *)

Lemma Decode_Encode (v : Z) (bs r : list byte) :
  0 <= v -> VarInt.Encode v = Ok bs ->
  VarInt.Decode (bs ++ r) = (v, len bs, None, r).
Proof.
  intros Hv. unfold VarInt.Encode.
  destruct (v <? 0x40) eqn:E1.
  { intros [= <-]. apply Z.ltb_lt in E1. apply Decode_enc1. lia. }
  destruct (v <? 0x4000) eqn:E2.
  { intros [= <-]. apply Z.ltb_ge in E1. apply Z.ltb_lt in E2.
    apply Decode_enc2. lia. }
  destruct (v <? 0x40000000) eqn:E3.
  { intros [= <-]. apply Z.ltb_ge in E2. apply Z.ltb_lt in E3.
    apply Decode_enc4. lia. }
  destruct (v <? 0x4000000000000000) eqn:E4; [|discriminate].
  intros [= <-]. apply Z.ltb_ge in E3. apply Z.ltb_lt in E4.
  apply Decode_enc8. lia.
Qed.

Lemma Encode_ok (v : Z) : v < 2 ^ 62 -> exists bs, VarInt.Encode v = Ok bs.
Proof.
  intros Hv. unfold VarInt.Encode.
  destruct (v <? 0x40); [eauto|].
  destruct (v <? 0x4000); [eauto|].
  destruct (v <? 0x40000000); [eauto|].
  destruct (v <? 0x4000000000000000) eqn:E; [eauto|].
  apply Z.ltb_ge in E. lia.
Qed.

Lemma Encode_enc (v : Z) : v < 2 ^ 62 -> VarInt.Encode v = Ok (enc v).
Proof.
  intros Hv. destruct (Encode_ok v Hv) as [bs E]. unfold enc. rewrite E. reflexivity.
Qed.

Lemma decode_enc (v : Z) (r : list byte) :
  0 <= v < 2 ^ 62 -> decode (enc v ++ r) = Ok (v, r).
Proof.
  intros Hv. unfold decode.
  rewrite (Decode_Encode v (enc v) r) by (try apply Encode_enc; lia).
  reflexivity.
Qed.

Lemma enc_nonempty (v : Z) : v < 2 ^ 62 -> 1 <= len (enc v).
Proof.
  intros Hv. unfold enc, VarInt.Encode, len.
  unfold BigEndian.PutUint16, BigEndian.PutUint32, BigEndian.PutUint64.
  destruct (v <? 0x40); [cbn [length]; lia|].
  destruct (v <? 0x4000); [cbn [length]; lia|].
  destruct (v <? 0x40000000); [cbn [length]; lia|].
  destruct (v <? 0x4000000000000000) eqn:E; [cbn [length]; lia|].
  apply Z.ltb_ge in E. lia.
Qed.

Lemma enc_small (v : Z) : 0 <= v < 0x40 -> enc v = [byte_of v].
Proof.
  intros Hv. unfold enc, VarInt.Encode.
  destruct (v <? 0x40) eqn:E; [reflexivity|]. apply Z.ltb_ge in E. lia.
Qed.

(** C4: every value below 2^62 encodes, decoding the encoding gives the value
    back with a byte count equal to the length of the encoding and nothing
    left to read; every [uint64] value from 2^62 on is refused by [Encode]. *)
Theorem varint_roundtrip (v : Z) :
  0 <= v < 2 ^ 64 ->
  (v < 2 ^ 62 ->
   exists bs, VarInt.Encode v = Ok bs /\ VarInt.Decode bs = (v, len bs, None, []))
  /\ (2 ^ 62 <= v -> VarInt.Encode v = Err ErrVarIntTooLarge).
Proof.
  intros Hv. split.
  - intros Hlt. destruct (Encode_ok v Hlt) as [bs E]. exists bs. split; [exact E|].
    rewrite <- (app_nil_r bs) at 1. apply Decode_Encode; [lia | exact E].
  - intros Hge. unfold VarInt.Encode.
    destruct (v <? 0x40) eqn:E1; [apply Z.ltb_lt in E1; lia|].
    destruct (v <? 0x4000) eqn:E2; [apply Z.ltb_lt in E2; lia|].
    destruct (v <? 0x40000000) eqn:E3; [apply Z.ltb_lt in E3; lia|].
    destruct (v <? 0x4000000000000000) eqn:E4; [apply Z.ltb_lt in E4; lia|].
    reflexivity.
Qed.

Lemma varint_roundtrip_witness :
  (exists bs, VarInt.Encode 16384 = Ok bs
              /\ VarInt.Decode bs = (16384, len bs, None, []))
  /\ VarInt.Encode (2 ^ 62) = Err ErrVarIntTooLarge.
Proof.
  split.
  - apply (varint_roundtrip 16384); lia.
  - apply (varint_roundtrip (2 ^ 62)); lia.
Defined.

Example decode_00 : VarInt.Decode (bytes_of [0x00]) = (0, 1, None, []).
Proof. reflexivity. Qed.

Example decode_4000 : VarInt.Decode (bytes_of [0x40; 0x00]) = (0, 2, None, []).
Proof. reflexivity. Qed.

Example decode_80000000 :
  VarInt.Decode (bytes_of [0x80; 0x00; 0x00; 0x00]) = (0, 4, None, []).
Proof. reflexivity. Qed.

Example decode_max :
  VarInt.Decode (bytes_of [0xFF; 0xFF; 0xFF; 0xFF; 0xFF; 0xFF; 0xFF; 0xFF])
  = (2 ^ 62 - 1, 8, None, []).
Proof. vm_compute. reflexivity. Qed.

Example decode_truncated : VarInt.Decode (bytes_of [0x40]) = (0, 1, Some EOF, []).
Proof. reflexivity. Qed.

(** *** Reading consumes the reader *)

Lemma ReadFull_inv (n : Z) (r r' bs : list byte) :
  ReadFull n r = (Ok bs, r') -> r = bs ++ r' /\ (0 <= n -> len bs = n).
Proof.
  unfold ReadFull.
  destruct (n =? 0) eqn:E0.
  { intros [= <- <-]. apply Z.eqb_eq in E0. split; [reflexivity|]. intros _. unfold len. cbn [length]. lia. }
  destruct (len r =? 0); [discriminate|].
  destruct (len r <? n) eqn:E2; [discriminate|].
  intros [= <- <-]. apply Z.ltb_ge in E2. split.
  - symmetry. apply take_drop.
  - intros Hn. unfold len in *. rewrite length_take. lia.
Qed.

Lemma ReadFull_short (n : Z) (r : list byte) :
  len r < n -> exists e r', ReadFull n r = (Err e, r').
Proof.
  intros H. pose proof (len_nonneg r). unfold ReadFull.
  destruct (n =? 0) eqn:E0; [apply Z.eqb_eq in E0; lia|].
  destruct (len r =? 0); [eauto|].
  destruct (len r <? n) eqn:E2; [eauto|]. apply Z.ltb_ge in E2. lia.
Qed.

(** A successful [Decode] has read a non-empty prefix of the reader, and
    reads the same from that prefix whatever follows it. *)
Lemma Decode_inv (r r' : list byte) (v n : Z) :
  VarInt.Decode r = (v, n, None, r') ->
  exists p, r = p ++ r' /\ 1 <= len p
            /\ forall r2, VarInt.Decode (p ++ r2) = (v, n, None, r2).
Proof.
  unfold VarInt.Decode.
  destruct (ReadFull 1 r) as [[fb|e] r1] eqn:E1; [|discriminate].
  apply ReadFull_inv in E1 as [-> Hl]. specialize (Hl ltac:(lia)).
  destruct fb as [|b [|b' fb]];
    [unfold len in Hl; cbn [length] in Hl; lia| |unfold len in Hl; cbn [length] in Hl; lia].
  cbn [app]. clear Hl.
  assert (Hfirst : forall r2, ReadFull 1 (b :: r2) = (Ok [b], r2))
    by (intros; apply ReadFull_1).
  destruct (Z.shiftr (u8 b) 6 =? 0) eqn:P0.
  { intros [= <- <- <-]. exists [b]. split; [reflexivity|]. split; [unfold len; cbn [length]; lia|].
    intros r2. cbn [app]. rewrite Hfirst, P0. reflexivity. }
  destruct (Z.shiftr (u8 b) 6 =? 1) eqn:P1.
  { destruct (ReadFull 1 r1) as [[buf|e] r2] eqn:E2; [|discriminate].
    apply ReadFull_inv in E2 as [-> Hl]. specialize (Hl ltac:(lia)).
    intros [= <- <- <-]. exists (b :: buf). split; [reflexivity|].
    split; [unfold len in *; cbn [length]; lia|].
    intros r3. cbn [app]. rewrite Hfirst, P0, P1.
    rewrite <- Hl at 1. rewrite ReadFull_app. reflexivity. }
  destruct (Z.shiftr (u8 b) 6 =? 2) eqn:P2.
  { destruct (ReadFull 3 r1) as [[buf|e] r2] eqn:E2; [|discriminate].
    apply ReadFull_inv in E2 as [-> Hl]. specialize (Hl ltac:(lia)).
    intros [= <- <- <-]. exists (b :: buf). split; [reflexivity|].
    split; [unfold len in *; cbn [length]; lia|].
    intros r3. cbn [app]. rewrite Hfirst, P0, P1, P2.
    rewrite <- Hl at 1. rewrite ReadFull_app. reflexivity. }
  destruct (ReadFull 7 r1) as [[buf|e] r2] eqn:E2; [|discriminate].
  apply ReadFull_inv in E2 as [-> Hl]. specialize (Hl ltac:(lia)).
  intros [= <- <- <-]. exists (b :: buf). split; [reflexivity|].
  split; [unfold len in *; cbn [length]; lia|].
  intros r3. cbn [app]. rewrite Hfirst, P0, P1, P2.
  rewrite <- Hl at 1. rewrite ReadFull_app. reflexivity.
Qed.

Lemma Decode_nonneg (r r' : list byte) (v n : Z) (e : option Error) :
  VarInt.Decode r = (v, n, e, r') -> 0 <= v.
Proof.
  unfold VarInt.Decode.
  destruct (ReadFull 1 r) as [[fb|e1] r1]; [|intros [= <- _ _ _]; lia].
  destruct (Z.shiftr _ 6 =? 0).
  { intros [= <- _ _ _]. destruct fb; [lia|apply u8_range]. }
  destruct (Z.shiftr _ 6 =? 1).
  { destruct (ReadFull 1 r1) as [[buf|e2] r2]; intros [= <- _ _ _]; [|lia].
    apply Z.land_nonneg. right. lia. }
  destruct (Z.shiftr _ 6 =? 2).
  { destruct (ReadFull 3 r1) as [[buf|e2] r2]; intros [= <- _ _ _]; [|lia].
    apply Z.land_nonneg. right. lia. }
  destruct (ReadFull 7 r1) as [[buf|e2] r2]; intros [= <- _ _ _]; [|lia].
  apply Z.land_nonneg. right. lia.
Qed.

Lemma decode_consumes (r r' : list byte) (v : Z) :
  decode r = Ok (v, r') -> (length r' < length r)%nat.
Proof.
  unfold decode.
  destruct (VarInt.Decode r) as [[[v0 n] [e|]] r1] eqn:E; [discriminate|].
  intros [= <- <-]. apply Decode_inv in E as (p & -> & Hp & _).
  rewrite length_app. unfold len in Hp. lia.
Qed.

Lemma decode_nonneg (r r' : list byte) (v : Z) : decode r = Ok (v, r') -> 0 <= v.
Proof.
  unfold decode.
  destruct (VarInt.Decode r) as [[[v0 n] [e|]] r1] eqn:E; [discriminate|].
  intros [= <- <-]. eapply Decode_nonneg, E.
Qed.

Lemma decode_nil : decode [] = Err EOF.
Proof. reflexivity. Qed.

Lemma readFullOr_inv (e : Error) (n : Z) (r r' bs : list byte) :
  readFullOr e n r = Ok (bs, r') -> r = bs ++ r' /\ (0 <= n -> len bs = n).
Proof.
  unfold readFullOr. destruct (ReadFull n r) as [[bs0|e0] r0] eqn:E; [|discriminate].
  intros [= <- <-]. eapply ReadFull_inv, E.
Qed.

Lemma readFullOr_app (e : Error) (bs r : list byte) :
  readFullOr e (len bs) (bs ++ r) = Ok (bs, r).
Proof. unfold readFullOr. rewrite ReadFull_app. reflexivity. Qed.

Lemma readFull_app (bs r : list byte) : readFull (len bs) (bs ++ r) = Ok (bs, r).
Proof. unfold readFull. rewrite ReadFull_app. reflexivity. Qed.

Lemma readByteOr_cons (e : Error) (b : byte) (r : list byte) :
  readByteOr e (b :: r) = Ok (u8 b, r).
Proof. unfold readByteOr. rewrite ReadFull_1. reflexivity. Qed.

Lemma readByteOr_consumes (e : Error) (r r' : list byte) (x : Z) :
  readByteOr e r = Ok (x, r') -> (length r' < length r)%nat.
Proof.
  unfold readByteOr. destruct (ReadFull 1 r) as [[bs|e0] r0] eqn:E; [|discriminate].
  apply ReadFull_inv in E as [-> Hl]. specialize (Hl ltac:(lia)).
  destruct bs; [unfold len in Hl; cbn [length] in Hl; lia|].
  intros [= <- <-]. rewrite length_app. cbn [length]. lia.
Qed.

(** *** The loops never run out of fuel

    A parser [shrinks] when it leaves a reader no longer than it found it, and
    [consumes] when it reads at least one byte.  Every loop body in the
    source consumes, which is why the number of bytes to read bounds the
    number of rounds. *)

Lemma consumes_shrinks {A} (p : P A) : consumes p -> shrinks p.
Proof. intros H r a r' E. apply H in E. lia. Qed.

Lemma shrinks_retP {A} (a : A) : shrinks (retP a).
Proof. intros r a' r' [= <- <-]. lia. Qed.

Lemma shrinks_failP {A} (e : Error) : shrinks (@failP A e).
Proof. intros r a r' [=]. Qed.

Lemma shrinks_bindP {A B} (p : P A) (k : A -> P B) :
  shrinks p -> (forall a, shrinks (k a)) -> shrinks (bindP p k).
Proof.
  intros Hp Hk r b r'. unfold bindP.
  destruct (p r) as [[a r1]|e] eqn:E; [|discriminate].
  intros E2. apply Hp in E. apply Hk in E2. lia.
Qed.

Lemma consumes_bindP {A B} (p : P A) (k : A -> P B) :
  consumes p -> (forall a, shrinks (k a)) -> consumes (bindP p k).
Proof.
  intros Hp Hk r b r'. unfold bindP.
  destruct (p r) as [[a r1]|e] eqn:E; [|discriminate].
  intros E2. apply Hp in E. apply Hk in E2. lia.
Qed.

Lemma consumes_decode : consumes decode.
Proof. intros r a r'. apply decode_consumes. Qed.

Lemma shrinks_readFullOr (e : Error) (n : Z) : shrinks (readFullOr e n).
Proof.
  intros r bs r' E. apply readFullOr_inv in E as [-> _]. rewrite length_app. lia.
Qed.

Lemma consumes_readByteOr (e : Error) : consumes (readByteOr e).
Proof. intros r a r'. apply readByteOr_consumes. Qed.

Lemma forP_from_fuel {S} (body : S -> P S) :
  (forall s, consumes (body s)) ->
  forall fuel1 fuel2 i n s r,
    (length r <= fuel1)%nat -> (length r <= fuel2)%nat ->
    forP_from fuel1 i n body s r = forP_from fuel2 i n body s r.
Proof.
  intros Hc. induction fuel1 as [|fuel1 IH]; intros fuel2 i n s r H1 H2.
  - destruct fuel2; [reflexivity|]. cbn [forP_from].
    destruct (i <? n); [|reflexivity].
    destruct (body s r) as [[s' r']|e] eqn:E; [|reflexivity].
    apply Hc in E. lia.
  - cbn [forP_from]. destruct fuel2 as [|fuel2]; cbn [forP_from];
      (destruct (i <? n); [|reflexivity]);
      (destruct (body s r) as [[s' r']|e] eqn:E; [|reflexivity]);
      apply Hc in E; [lia|].
    apply IH; lia.
Qed.

(** The loop of [forP] gives the same result with any larger allowance. *)
Lemma forP_fuel {S} (body : S -> P S) (n : Z) (s : S) (r : Reader) (fuel : nat) :
  (forall s, consumes (body s)) -> (length r <= fuel)%nat ->
  forP_from fuel 0 n body s r = forP n body s r.
Proof. intros Hc H. unfold forP. apply forP_from_fuel; [exact Hc|lia|lia]. Qed.

Lemma shrinks_forP_from {S} (body : S -> P S) :
  (forall s, shrinks (body s)) ->
  forall fuel i n s, shrinks (forP_from fuel i n body s).
Proof.
  intros Hc. induction fuel as [|fuel IH]; intros i n s r a r'; cbn [forP_from].
  - destruct (i <? n); [|intros [= <- <-]; lia].
    destruct (body s r) as [[s' r1]|e]; discriminate.
  - destruct (i <? n); [|intros [= <- <-]; lia].
    destruct (body s r) as [[s' r1]|e] eqn:E; [|discriminate].
    intros E2. apply Hc in E. apply IH in E2. lia.
Qed.

Lemma shrinks_forP {S} (body : S -> P S) (n : Z) (s : S) :
  (forall s, shrinks (body s)) -> shrinks (forP n body s).
Proof. intros Hc r a r' E. unfold forP in E. eapply shrinks_forP_from in E; eauto. Qed.

Ltac parser_shape :=
  repeat first
    [ apply consumes_decode
    | apply consumes_readByteOr
    | apply shrinks_readFullOr
    | apply shrinks_retP
    | apply shrinks_failP
    | apply consumes_bindP
    | apply shrinks_bindP
    | apply consumes_shrinks; apply consumes_decode
    | apply consumes_shrinks; apply consumes_readByteOr
    | match goal with
      | |- forall _, shrinks _ => intro
      | |- shrinks (if ?c then _ else _) => destruct c
      | |- shrinks (match ?x with Ok _ => _ | Err _ => _ end) => destruct x
      end ].

Lemma consumes_tupleField (fields : list (list byte)) :
  consumes (let* fieldLength := decode in
            let* fieldData := readFullOr ErrValidation fieldLength in
            retP (fields ++ [fieldData]))%parser.
Proof. parser_shape. Qed.

Lemma readTuple_fuel (r r' : Reader) (numFields : Z) (fuel : nat) :
  decode r = Ok (numFields, r') -> (length r' <= fuel)%nat ->
  readTuple r
  = forP_from fuel 0 numFields
      (fun fields =>
         let* fieldLength := decode in
         let* fieldData := readFullOr ErrValidation fieldLength in
         retP (fields ++ [fieldData]))%parser
      [] r'.
Proof.
  intros E H. unfold readTuple, bindP at 1. rewrite E. symmetry.
  apply forP_fuel; [apply consumes_tupleField | lia].
Qed.

Lemma shrinks_readTuple : shrinks readTuple.
Proof.
  unfold readTuple. parser_shape. apply shrinks_forP. intros s.
  apply consumes_shrinks, consumes_tupleField.
Qed.

Lemma consumes_validateExtensionHeader : consumes validateExtensionHeader.
Proof. unfold validateExtensionHeader. parser_shape. Qed.

Lemma extensionHeaders_from_fuel :
  forall fuel1 fuel2 headers r,
    (length r <= fuel1)%nat -> (length r <= fuel2)%nat ->
    extensionHeaders_from fuel1 headers r = extensionHeaders_from fuel2 headers r.
Proof.
  induction fuel1 as [|fuel1 IH]; intros fuel2 headers r H1 H2.
  - destruct r; [|cbn [length] in H1; lia]. destruct fuel2; reflexivity.
  - destruct fuel2 as [|fuel2].
    + destruct r; [|cbn [length] in H2; lia]. reflexivity.
    + cbn [extensionHeaders_from]. destruct (len r >? 0); [|reflexivity].
      destruct (validateExtensionHeader r) as [[h r']|e] eqn:E; [|reflexivity].
      apply consumes_validateExtensionHeader in E. apply IH; lia.
Qed.

Lemma shrinks_objectPayload (obj : Record) : shrinks (objectPayload obj).
Proof. unfold objectPayload. parser_shape. Qed.

Lemma shrinks_objectExtensions (obj : Record) : shrinks (objectExtensions obj).
Proof. unfold objectExtensions. parser_shape. Qed.

Lemma consumes_validateSubgroupObject (ext : bool) :
  consumes (validateSubgroupObject ext).
Proof.
  unfold validateSubgroupObject.
  apply consumes_bindP; [apply consumes_decode|]. intros objectID.
  apply shrinks_bindP.
  - destruct ext; [apply shrinks_objectExtensions | apply shrinks_retP].
  - intros obj. apply shrinks_objectPayload.
Qed.

Lemma consumes_validateFetchObject : consumes validateFetchObject.
Proof.
  unfold validateFetchObject.
  apply consumes_bindP; [apply consumes_decode|]. intros groupID.
  apply shrinks_bindP; [apply consumes_shrinks, consumes_decode|]. intros subgroupID.
  apply shrinks_bindP; [apply consumes_shrinks, consumes_decode|]. intros objectID.
  apply shrinks_bindP; [apply consumes_shrinks, consumes_readByteOr|]. intros priority.
  apply shrinks_bindP; [apply shrinks_objectExtensions|].
  intros obj. apply shrinks_objectPayload.
Qed.

Lemma subgroupObjects_fuel (ext : bool) :
  forall fuel1 fuel2 s r,
    (length r <= fuel1)%nat -> (length r <= fuel2)%nat ->
    subgroupObjects fuel1 ext s r = subgroupObjects fuel2 ext s r.
Proof.
  induction fuel1 as [|fuel1 IH]; intros fuel2 s r H1 H2.
  - destruct r; [|cbn [length] in H1; lia]. destruct fuel2; reflexivity.
  - destruct fuel2 as [|fuel2].
    + destruct r; [|cbn [length] in H2; lia]. reflexivity.
    + cbn [subgroupObjects].
      destruct (validateSubgroupObject ext r) as [[obj r']|e] eqn:E; [|reflexivity].
      apply consumes_validateSubgroupObject in E.
      destruct (_ && _); [reflexivity|]. apply IH; lia.
Qed.

Lemma fetchObjects_fuel :
  forall fuel1 fuel2 objs r,
    (length r <= fuel1)%nat -> (length r <= fuel2)%nat ->
    fetchObjects fuel1 objs r = fetchObjects fuel2 objs r.
Proof.
  induction fuel1 as [|fuel1 IH]; intros fuel2 objs r H1 H2.
  - destruct r; [|cbn [length] in H1; lia]. destruct fuel2; reflexivity.
  - destruct fuel2 as [|fuel2].
    + destruct r; [|cbn [length] in H2; lia]. reflexivity.
    + cbn [fetchObjects].
      destruct (validateFetchObject r) as [[obj r']|e] eqn:E; [|reflexivity].
      apply consumes_validateFetchObject in E. apply IH; lia.
Qed.

Lemma consumesM_shrinksM {A} (m : M A) : consumesM m -> shrinksM m.
Proof. intros H r v a r' v' E. apply H in E. lia. Qed.

Lemma shrinksM_retM {A} (a : A) : shrinksM (retM a).
Proof. intros r v a' r' v' [= <- <- <-]. lia. Qed.

Lemma shrinksM_failM {A} (e : Error) : shrinksM (@failM A e).
Proof. intros r v a r' v' [=]. Qed.

Lemma shrinksM_liftP {A} (p : P A) : shrinks p -> shrinksM (liftP p).
Proof.
  intros H r v a r' v'. unfold liftP. destruct (p r) as [[a0 r0]|e] eqn:E; [|discriminate].
  intros [= <- <- <-]. eapply H, E.
Qed.

Lemma consumesM_liftP {A} (p : P A) : consumes p -> consumesM (liftP p).
Proof.
  intros H r v a r' v'. unfold liftP. destruct (p r) as [[a0 r0]|e] eqn:E; [|discriminate].
  intros [= <- <- <-]. eapply H, E.
Qed.

Lemma shrinksM_bindM {A B} (m : M A) (k : A -> M B) :
  shrinksM m -> (forall a, shrinksM (k a)) -> shrinksM (bindM m k).
Proof.
  intros Hm Hk r v b r' v'. unfold bindM.
  destruct (m r v) as [[[a r1]|e] v1] eqn:E; [|discriminate].
  intros E2. apply Hm in E. apply Hk in E2. lia.
Qed.

Lemma consumesM_bindM {A B} (m : M A) (k : A -> M B) :
  consumesM m -> (forall a, shrinksM (k a)) -> consumesM (bindM m k).
Proof.
  intros Hm Hk r v b r' v'. unfold bindM.
  destruct (m r v) as [[[a r1]|e] v1] eqn:E; [|discriminate].
  intros E2. apply Hm in E. apply Hk in E2. lia.
Qed.

Lemma shrinksM_authorizationToken (paramInfo : Record) (value : list byte) :
  shrinksM (authorizationToken paramInfo value).
Proof.
  intros r v a r' v'. unfold authorizationToken.
  destruct (validateAuthToken value v) as [[d|e] v1]; [|discriminate].
  intros [= _ <- _]. lia.
Qed.

Lemma forM_from_fuel {S} (body : S -> M S) :
  (forall s, consumesM (body s)) ->
  forall fuel1 fuel2 i n s r v,
    (length r <= fuel1)%nat -> (length r <= fuel2)%nat ->
    forM_from fuel1 i n body s r v = forM_from fuel2 i n body s r v.
Proof.
  intros Hc. induction fuel1 as [|fuel1 IH]; intros fuel2 i n s r v H1 H2.
  - destruct fuel2; [reflexivity|]. cbn [forM_from].
    destruct (i <? n); [|reflexivity].
    destruct (body s r v) as [[[s' r']|e] v'] eqn:E; [|reflexivity].
    apply Hc in E. lia.
  - cbn [forM_from]. destruct fuel2 as [|fuel2]; cbn [forM_from];
      (destruct (i <? n); [|reflexivity]);
      (destruct (body s r v) as [[[s' r']|e] v'] eqn:E; [|reflexivity]);
      apply Hc in E; [lia|].
    apply IH; lia.
Qed.

Ltac validator_shape :=
  repeat first
    [ apply shrinksM_retM
    | apply shrinksM_failM
    | apply shrinksM_authorizationToken
    | apply consumesM_liftP; apply consumes_decode
    | apply shrinksM_liftP; apply consumes_shrinks; apply consumes_decode
    | apply shrinksM_liftP; apply shrinks_readFullOr
    | apply consumesM_bindM
    | apply shrinksM_bindM
    | match goal with
      | |- forall _, shrinksM _ => intro
      | |- shrinksM (if ?c then _ else _) => destruct c
      | |- shrinksM (let (_, _) := ?x in _) => destruct x
      end ].

Lemma consumesM_versionParameter (params : list Record) :
  consumesM (versionParameter params).
Proof. unfold versionParameter. validator_shape. Qed.

(** [validateVersionParameters] gives the same result with any larger
    allowance for its loop. *)
Lemma validateVersionParameters_fuel (n : Z) (r : Reader) (v : MoQTValidator)
  (fuel : nat) :
  (length r <= fuel)%nat ->
  forM_from fuel 0 n versionParameter [] r v = validateVersionParameters n r v.
Proof.
  intros H. unfold validateVersionParameters, forM.
  apply forM_from_fuel; [apply consumesM_versionParameter|lia|lia].
Qed.

Lemma consumes_setupParameter (params : list Record) :
  consumes (let* paramType := decode in
            let paramInfo := [("type"%string, VUint paramType)] in
            let* paramInfo :=
              (if paramType mod 2 =? 0 then
                 let* value := decode in
                 retP (mset "value" (VUint value) paramInfo)
               else
                 let* length := decode in
                 if length >? 65535 then failP ErrProtocolViolation
                 else
                   let* value := readFullOr ErrValidation length in
                   retP (mset "length" (VUint length)
                           (mset "value" (VHex value) paramInfo))) in
            retP (params ++ [setupParamName paramType paramInfo]))%parser.
Proof. parser_shape. Qed.

(** [validateSetupParameters] gives the same result with any larger
    allowance for its loop. *)
Lemma validateSetupParameters_fuel (n : Z) (r : Reader) (fuel : nat) :
  (length r <= fuel)%nat ->
  forP_from fuel 0 n
    (fun params =>
       let* paramType := decode in
       let paramInfo := [("type"%string, VUint paramType)] in
       let* paramInfo :=
         (if paramType mod 2 =? 0 then
            let* value := decode in
            retP (mset "value" (VUint value) paramInfo)
          else
            let* length := decode in
            if length >? 65535 then failP ErrProtocolViolation
            else
              let* value := readFullOr ErrValidation length in
              retP (mset "length" (VUint length)
                      (mset "value" (VHex value) paramInfo))) in
       retP (params ++ [setupParamName paramType paramInfo]))%parser
    [] r
  = validateSetupParameters n r.
Proof.
  intros H. unfold validateSetupParameters.
  apply forP_fuel; [apply consumes_setupParameter | exact H].
Qed.

Lemma shrinks_validateSetupParameters (n : Z) : shrinks (validateSetupParameters n).
Proof.
  unfold validateSetupParameters. apply shrinks_forP. intros s.
  apply consumes_shrinks, consumes_setupParameter.
Qed.

(** *** Control-message framing *)

Lemma Uint16_PutUint16 (n : Z) :
  0 <= n < 2 ^ 16 -> BigEndian.Uint16 (BigEndian.PutUint16 n) = n.
Proof.
  intros Hn. unfold BigEndian.PutUint16. rewrite Uint16_eq, !u8_byte_of.
  rewrite Z.shiftr_div_pow2 by lia. Z.div_mod_to_equations. lia.
Qed.

Lemma Uint16_bound (bs : list byte) : 0 <= BigEndian.Uint16 bs < 2 ^ 16.
Proof.
  destruct bs as [|b0 [|b1 [|b2 bs]]]; try (cbn; lia).
  rewrite Uint16_eq. pose proof (u8_range b0). pose proof (u8_range b1). lia.
Qed.

Lemma len_PutUint16 (n : Z) : len (BigEndian.PutUint16 n) = 2.
Proof. reflexivity. Qed.

Lemma controlFrame_encControl (msgType : Z) (payload rest : list byte) :
  0 <= msgType < 2 ^ 62 -> isValidMessageType msgType = true ->
  len payload < 2 ^ 16 ->
  controlFrame (encControl msgType payload ++ rest)
  = Ok (msgType, len payload, payload, rest).
Proof.
  intros Ht Hvalid Hlen. pose proof (len_nonneg payload) as Hp.
  unfold controlFrame, encControl. rewrite <- !app_assoc.
  rewrite (Decode_Encode msgType (enc msgType)) by (try apply Encode_enc; lia).
  rewrite Hvalid. cbn [negb].
  rewrite <- (len_PutUint16 (len payload)) at 1. rewrite ReadFull_app.
  rewrite Uint16_PutUint16 by lia. rewrite ReadFull_app. reflexivity.
Qed.

Lemma len_encControl_pos (msgType : Z) (payload rest : list byte) :
  (len (encControl msgType payload ++ rest) =? 0) = false.
Proof.
  apply Z.eqb_neq. unfold encControl. rewrite !len_app, len_PutUint16.
  pose proof (len_nonneg (enc msgType)). pose proof (len_nonneg payload).
  pose proof (len_nonneg rest). lia.
Qed.

(** A framed message is handed to the validator of its type, which reads
    from a reader over the payload alone. *)
Lemma ValidateMessage_encControl (msgType : Z) (payload : list byte)
  (validate : M Record) (v : MoQTValidator) :
  0 <= msgType < 2 ^ 62 -> isValidMessageType msgType = true ->
  len payload < 2 ^ 16 -> payloadValidator msgType = Some validate ->
  ValidateMessage (encControl msgType payload) true v
  = match validate payload v with
    | (Ok (details, _), v') =>
        (Ok (mergeInto details
               [("type"%string, VString (getMessageTypeName msgType));
                ("type_value"%string, VUint msgType);
                ("length"%string, VUint (len payload))]), v')
    | (Err e, v') => (Err e, v')
    end.
Proof.
  intros Ht Hvalid Hlen Hpv. unfold ValidateMessage.
  rewrite <- (app_nil_r (encControl msgType payload)).
  rewrite len_encControl_pos.
  unfold validateControlMessage, bindM, liftP.
  rewrite controlFrame_encControl by assumption.
  rewrite Hpv. unfold onBuffer, retM.
  destruct (validate payload v) as [[[details r']|e] v']; reflexivity.
Qed.

(** *** Empty buffers *)

(** C9: an empty buffer is refused with [ErrValidation] by every entry point
    (control stream, data stream, datagram) and the validator is left as it
    was. *)
Theorem empty_buffer_rejected (v : MoQTValidator) :
  (forall isControlStream,
      ValidateMessage [] isControlStream v = (Err ErrValidation, v))
  /\ validateDataStream [] = Err ErrValidation
  /\ ValidateDatagram [] v = (Err ErrValidation, v).
Proof. repeat split. Qed.

(** *** Setup parameters *)

(** C1 fails here.  The message is a CLIENT_SETUP with version 1 and two
    parameters, MAX_REQUEST_ID = 100 and MAX_AUTH_TOKEN_CACHE_SIZE = 64.  It is accepted,
    the record reports both values, and the three fields of the validator
    are still 0. *)
Lemma setup_parameters_not_stored :
  exists result v',
    ValidateMessage clientSetupExample true NewMoQTValidator = (Ok result, v')
    /\ mget "parameters" result
       = Some (VList [VMap [("type"%string, VUint 2); ("value"%string, VUint 100);
                            ("name"%string, VString "MAX_REQUEST_ID")];
                      VMap [("type"%string, VUint 4); ("value"%string, VUint 64);
                            ("name"%string, VString "MAX_AUTH_TOKEN_CACHE_SIZE")]])
    /\ maxRequestIDClient v' = 0 /\ maxRequestIDServer v' = 0
    /\ maxAuthTokenCacheSize v' = 0
    /\ v' = NewMoQTValidator.
Proof. do 2 eexists. split; [vm_compute; reflexivity|]. repeat split. Qed.

(** C1, as the code has it: validating a CLIENT_SETUP or a SERVER_SETUP,
    accepted or not and whatever setup parameters it carries, leaves every
    field of the validator as it was, the two max-request-id fields and
    [maxAuthTokenCacheSize] included. *)
Theorem setup_leaves_validator (data : list byte) (v : MoQTValidator)
  (msgType msgLength : Z) (payload rest : list byte) :
  controlFrame data = Ok (msgType, msgLength, payload, rest) ->
  msgType = ClientSetup \/ msgType = ServerSetup ->
  snd (ValidateMessage data true v) = v.
Proof.
  intros Hframe Htype. unfold ValidateMessage.
  destruct (len data =? 0); [reflexivity|].
  unfold validateControlMessage, bindM, liftP. rewrite Hframe.
  destruct Htype as [-> | ->]; cbn [payloadValidator Z.eqb Pos.eqb ClientSetup ServerSetup];
    unfold payloadValidator; cbn [Z.eqb Pos.eqb ClientSetup ServerSetup];
    unfold onBuffer, liftP, retM.
  - destruct (validateClientSetup payload) as [[details r']|e]; reflexivity.
  - destruct (validateServerSetup payload) as [[details r']|e]; reflexivity.
Qed.

Lemma setup_leaves_validator_witness :
  snd (ValidateMessage clientSetupExample true NewMoQTValidator) = NewMoQTValidator.
Proof.
  apply (setup_leaves_validator clientSetupExample NewMoQTValidator ClientSetup 9
           (bytes_of [1; 1; 2; 2; 0x40; 100; 4; 0x40; 64]) []).
  - vm_compute. reflexivity.
  - left. reflexivity.
Defined.

(** *** MAX_REQUEST_ID *)

(** C3 fails here.  MAX_REQUEST_ID 10 and then MAX_REQUEST_ID 5 on a new
    validator: the second, smaller one is accepted. *)
Lemma smaller_max_request_id_accepted :
  let v1 := snd (ValidateMessage (encMaxRequestID 10) true NewMoQTValidator) in
  is_ok (fst (ValidateMessage (encMaxRequestID 10) true NewMoQTValidator)) = true
  /\ fst (ValidateMessage (encMaxRequestID 5) true v1)
     = Ok [("type"%string, VString "MAX_REQUEST_ID");
           ("type_value"%string, VUint 0x15);
           ("length"%string, VUint 1);
           ("max_request_id"%string, VUint 5)]
  /\ fst (ValidateMessage (encMaxRequestID 5) true v1) <> Err ErrProtocolViolation.
Proof. vm_compute. repeat split. discriminate. Qed.

Lemma len_enc_le (x : Z) : len (enc x) <= 8.
Proof.
  unfold enc, VarInt.Encode, len.
  unfold BigEndian.PutUint16, BigEndian.PutUint32, BigEndian.PutUint64.
  destruct (x <? 0x40); [cbn [length]; lia|].
  destruct (x <? 0x4000); [cbn [length]; lia|].
  destruct (x <? 0x40000000); [cbn [length]; lia|].
  destruct (x <? 0x4000000000000000); cbn [length]; lia.
Qed.

Lemma ValidateMessage_encMaxRequestID (requestID : Z) (v : MoQTValidator) :
  0 <= requestID < 2 ^ 62 ->
  ValidateMessage (encMaxRequestID requestID) true v
  = (Ok [("type"%string, VString "MAX_REQUEST_ID");
         ("type_value"%string, VUint MaxRequestID);
         ("length"%string, VUint (len (enc requestID)));
         ("max_request_id"%string, VUint requestID)], v).
Proof.
  intros Hid. unfold encMaxRequestID. pose proof (len_enc_le requestID).
  rewrite (ValidateMessage_encControl MaxRequestID _ (liftP validateMaxRequestID));
    [|unfold MaxRequestID; lia|reflexivity|lia|reflexivity].
  unfold liftP, validateMaxRequestID, bindP.
  rewrite <- (app_nil_r (enc requestID)) at 1. rewrite decode_enc by lia.
  reflexivity.
Qed.

(** C3, as the code has it: two MAX_REQUEST_ID messages validated one after
    the other are both accepted whatever their values, the second being
    smaller than the first included; each record reports the value it
    carries and the validator is left as it was. *)
Theorem max_request_id_not_monotone (v : MoQTValidator) (first second : Z) :
  0 <= first < 2 ^ 62 -> 0 <= second < 2 ^ 62 ->
  exists result1 result2,
    ValidateMessage (encMaxRequestID first) true v = (Ok result1, v)
    /\ ValidateMessage (encMaxRequestID second) true v = (Ok result2, v)
    /\ mget "max_request_id" result1 = Some (VUint first)
    /\ mget "max_request_id" result2 = Some (VUint second).
Proof.
  intros H1 H2. do 2 eexists.
  rewrite !ValidateMessage_encMaxRequestID by assumption.
  repeat split.
Qed.

Lemma max_request_id_not_monotone_witness :
  exists result1 result2,
    ValidateMessage (encMaxRequestID 10) true NewMoQTValidator
    = (Ok result1, NewMoQTValidator)
    /\ ValidateMessage (encMaxRequestID 5) true NewMoQTValidator
       = (Ok result2, NewMoQTValidator)
    /\ mget "max_request_id" result1 = Some (VUint 10)
    /\ mget "max_request_id" result2 = Some (VUint 5).
Proof. apply (max_request_id_not_monotone NewMoQTValidator 10 5); lia. Defined.

(** *** A zero-length AUTHORIZATION_TOKEN *)

(** C10: a version parameter of type AUTHORIZATION_TOKEN (any wire form of
    the varints 1 and 0 for its type and length) is accepted with the
    validator untouched and without the keys the auth-token subparser would
    add, in one round of the loop and as the only parameter of a list; the
    subparser itself fails on an empty buffer, which has no alias type. *)
Theorem empty_authorization_token_skipped (v : MoQTValidator)
  (params : list Record) (r r1 r2 : Reader) :
  decode r = Ok (VersionParamAuthorizationToken, r1) ->
  decode r1 = Ok (0, r2) ->
  versionParameter params r v = (Ok (params ++ [emptyTokenInfo], r2), v)
  /\ validateVersionParameters 1 r v = (Ok ([emptyTokenInfo], r2), v)
  /\ mget "alias_type" emptyTokenInfo = None
  /\ validateAuthToken [] v = (Err EOF, v).
Proof.
  intros H1 H2.
  assert (Hround : forall ps, versionParameter ps r v
                              = (Ok (ps ++ [emptyTokenInfo], r2), v)).
  { intros ps. unfold versionParameter, bindM, liftP. rewrite H1.
    cbv beta iota.
    change (VersionParamAuthorizationToken mod 2 =? 0) with false. cbv beta iota.
    rewrite H2. reflexivity. }
  split; [apply Hround|]. split; [|split; reflexivity].
  unfold validateVersionParameters, forM.
  pose proof (decode_consumes _ _ _ H1) as Hc.
  destruct (length r) as [|fuel] eqn:El; [lia|].
  cbn [forM_from Z.ltb Z.compare]. rewrite Hround.
  destruct fuel; reflexivity.
Qed.

Lemma empty_authorization_token_skipped_witness :
  versionParameter [] (bytes_of [0x01; 0x00]) NewMoQTValidator
  = (Ok ([emptyTokenInfo], []), NewMoQTValidator)
  /\ validateVersionParameters 1 (bytes_of [0x01; 0x00]) NewMoQTValidator
     = (Ok ([emptyTokenInfo], []), NewMoQTValidator)
  /\ mget "alias_type" emptyTokenInfo = None
  /\ validateAuthToken [] NewMoQTValidator = (Err EOF, NewMoQTValidator).
Proof.
  apply (empty_authorization_token_skipped NewMoQTValidator []
           (bytes_of [0x01; 0x00]) (bytes_of [0x00]) []); reflexivity.
Defined.

(** An ANNOUNCE whose only parameter is an empty AUTHORIZATION_TOKEN. *)
Example announce_with_empty_token :
  ValidateMessage (encControl Announce (bytes_of [0; 1; 1; 97; 1; 1; 0])) true
    NewMoQTValidator
  = (Ok [("type"%string, VString "ANNOUNCE"); ("type_value"%string, VUint 6);
         ("length"%string, VUint 7); ("request_id"%string, VUint 0);
         ("track_namespace"%string, VList [VHex (bytes_of [97])]);
         ("num_parameters"%string, VUint 1);
         ("parameters"%string, VList [VMap emptyTokenInfo])],
     NewMoQTValidator).
Proof. vm_compute. reflexivity. Qed.

(** *** Tuples *)

Lemma tupleFields_roundtrip (fields : list (list byte)) :
  Forall (fun f => len f < 2 ^ 62) fields ->
  forall fuel i n acc r,
    n - i = len fields -> (length fields <= fuel)%nat ->
    forP_from fuel i n
      (fun fields =>
         let* fieldLength := decode in
         let* fieldData := readFullOr ErrValidation fieldLength in
         retP (fields ++ [fieldData]))%parser
      acc (concat (map encBytes fields) ++ r)
    = Ok (acc ++ fields, r).
Proof.
  induction 1 as [|f fs Hf _ IH]; intros fuel i n acc r Hn Hfuel.
  - unfold len in Hn. cbn [length] in Hn.
    destruct fuel; cbn [forP_from];
      (destruct (i <? n) eqn:E; [apply Z.ltb_lt in E; lia|]);
      rewrite app_nil_r; reflexivity.
  - unfold len in Hn. cbn [length] in Hn, Hfuel.
    destruct fuel as [|fuel]; [lia|]. cbn [forP_from].
    destruct (i <? n) eqn:E; [|apply Z.ltb_ge in E; lia].
    cbn [map concat]. unfold encBytes at 1. rewrite <- !app_assoc.
    unfold bindP at 1. pose proof (len_nonneg f).
    rewrite decode_enc by lia. unfold bindP at 1.
    rewrite readFullOr_app. unfold retP.
    rewrite IH; [|unfold len; lia|lia].
    rewrite <- app_assoc. reflexivity.
Qed.

Lemma length_encBytes_pos (f : list byte) :
  len f < 2 ^ 62 -> (1 <= length (encBytes f))%nat.
Proof.
  intros H. unfold encBytes. rewrite length_app.
  pose proof (enc_nonempty (len f) H) as Hp. unfold len in *. lia.
Qed.

Lemma length_concat_encBytes (fields : list (list byte)) :
  Forall (fun f => len f < 2 ^ 62) fields ->
  (length fields <= length (concat (map encBytes fields)))%nat.
Proof.
  induction 1 as [|f fs Hf _ IH]; [cbn; lia|].
  cbn [map concat length]. rewrite length_app.
  pose proof (length_encBytes_pos f Hf). lia.
Qed.

Lemma readTuple_encTuple (fields : list (list byte)) (r : Reader) :
  len fields < 2 ^ 62 -> Forall (fun f => len f < 2 ^ 62) fields ->
  readTuple (encTuple fields ++ r) = Ok (fields, r).
Proof.
  intros Hn Hf. unfold readTuple, encTuple. rewrite <- app_assoc.
  unfold bindP. pose proof (len_nonneg fields).
  rewrite decode_enc by lia. unfold forP.
  rewrite (tupleFields_roundtrip fields Hf); [reflexivity|lia|].
  rewrite length_app. pose proof (length_concat_encBytes fields Hf). lia.
Qed.

(** *** Standalone FETCH with an inverted range *)

(** C7 fails here.  FETCH, request ID 0, standalone, namespace ["a"], name
    "b", start (5,0), end (4,0): refused, and the error is [ErrValidation]. *)
Lemma inverted_fetch_is_validation_error :
  ValidateMessage
    (encControl Fetch
       (encStandaloneFetch 0 x80 x01 [bytes_of [97]] (bytes_of [98])
          {| GroupID := 5; ObjectID := 0 |} {| GroupID := 4; ObjectID := 0 |}
        ++ enc 0))
    true NewMoQTValidator
  = (Err ErrValidation, NewMoQTValidator)
  /\ Less {| GroupID := 4; ObjectID := 0 |} {| GroupID := 5; ObjectID := 0 |} = true
  /\ Err ErrValidation <> @Err Record ErrProtocolViolation.
Proof. split; [vm_compute; reflexivity|]. split; [reflexivity|discriminate]. Qed.

Ltac read_step :=
  first [ rewrite decode_enc by lia
        | rewrite readByteOr_cons
        | rewrite readFull_app
        | rewrite readFullOr_app
        | rewrite readTuple_encTuple by assumption ];
  cbv beta iota.

(** C7, as the code has it: a standalone FETCH whose request ID and group
    order are accepted and whose end location is below its start location is
    refused with [ErrValidation], whatever follows the end location, and the
    validator is left as it was; the same holds for the framed message. *)
Theorem inverted_fetch_range (v : MoQTValidator) (requestID : Z)
  (priority groupOrder : byte) (namespace : list (list byte)) (name : list byte)
  (startLoc endLoc : Location) (rest : list byte) :
  0 <= requestID < 2 ^ 62 ->
  validateRequestID requestID true v = None ->
  u8 groupOrder <= 2 ->
  len namespace < 2 ^ 62 -> Forall (fun f => len f < 2 ^ 62) namespace ->
  len name < 2 ^ 62 ->
  inRange startLoc -> inRange endLoc ->
  Less endLoc startLoc = true ->
  let payload :=
    encStandaloneFetch requestID priority groupOrder namespace name startLoc endLoc
    ++ rest in
  validateFetch payload v = (Err ErrValidation, v)
  /\ (len payload < 2 ^ 16 ->
      ValidateMessage (encControl Fetch payload) true v = (Err ErrValidation, v)).
Proof.
  intros Hid Hreq Horder Hns Hfields Hname [Hsg Hso] [Heg Heo] Hless payload.
  assert (Hfetch : validateFetch payload v = (Err ErrValidation, v)).
  { unfold payload, encStandaloneFetch, validateFetch.
    rewrite <- !app_assoc. cbn [app].
    unfold bindM at 1, liftP at 1. read_step.
    unfold bindM at 1, checkRequestID. rewrite Hreq. cbv beta iota.
    unfold bindM at 1, liftP at 1. read_step.
    unfold bindM at 1, liftP at 1. read_step.
    destruct (u8 groupOrder >? 2) eqn:E; [apply Z.gtb_lt in E; lia|].
    unfold bindM at 1, liftP at 1. read_step.
    change ((1 <? 1) || (1 >? 3)) with false. cbv beta iota.
    change (1 =? 1) with true. cbv beta iota.
    unfold bindM at 1. unfold bindM at 1, liftP at 1. read_step.
    unfold encBytes. rewrite <- !app_assoc. pose proof (len_nonneg name).
    unfold bindM at 1, liftP at 1. read_step.
    unfold bindM at 1, liftP at 1. read_step.
    unfold bindM at 1, liftP at 1. read_step.
    unfold bindM at 1, liftP at 1. read_step.
    unfold bindM at 1, liftP at 1. read_step.
    unfold bindM at 1, liftP at 1. read_step.
    destruct startLoc as [sg so], endLoc as [eg eo]. cbn [GroupID ObjectID] in *.
    rewrite Hless. reflexivity. }
  split; [exact Hfetch|]. intros Hlen.
  rewrite (ValidateMessage_encControl Fetch payload validateFetch);
    [|unfold Fetch; lia|reflexivity|exact Hlen|reflexivity].
  rewrite Hfetch. reflexivity.
Qed.

Lemma inverted_fetch_range_witness :
  let payload :=
    encStandaloneFetch 0 x80 x01 [bytes_of [97]] (bytes_of [98])
      {| GroupID := 5; ObjectID := 0 |} {| GroupID := 4; ObjectID := 0 |}
    ++ enc 0 in
  validateFetch payload NewMoQTValidator = (Err ErrValidation, NewMoQTValidator)
  /\ (len payload < 2 ^ 16 ->
      ValidateMessage (encControl Fetch payload) true NewMoQTValidator
      = (Err ErrValidation, NewMoQTValidator)).
Proof.
  apply (inverted_fetch_range NewMoQTValidator 0 x80 x01 [bytes_of [97]]
           (bytes_of [98]) {| GroupID := 5; ObjectID := 0 |}
           {| GroupID := 4; ObjectID := 0 |} (enc 0)).
  - lia.
  - reflexivity.
  - vm_compute. discriminate.
  - vm_compute. reflexivity.
  - repeat constructor.
  - vm_compute. reflexivity.
  - split; cbn; lia.
  - split; cbn; lia.
  - reflexivity.
Defined.

(** *** Truncation by one byte *)

(** C6 fails on datagrams and on data streams.  An object datagram with a
    one-byte payload is accepted, and so is what is left of it without its
    last byte: the payload is whatever follows the header.  A subgroup stream
    of two objects is accepted, and so is what is left of it without the
    last byte of the second payload: the loop stops at an object that fails
    to decode once one object has been read. *)
Lemma truncation_accepted :
  let datagram := bytes_of [0x00; 1; 1; 1; 0; 0xAA] in
  let stream := bytes_of [0x08; 1; 1; 0; 5; 0; 0; 6; 2; 97; 98] in
  is_ok (fst (ValidateDatagram datagram NewMoQTValidator)) = true
  /\ is_ok (fst (ValidateDatagram (removelast datagram) NewMoQTValidator)) = true
  /\ is_ok (fst (ValidateMessage stream false NewMoQTValidator)) = true
  /\ is_ok (fst (ValidateMessage (removelast stream) false NewMoQTValidator)) = true.
Proof. vm_compute. repeat split. Qed.

Lemma length_removelast {A} (l : list A) :
  l <> [] -> length (removelast l) = pred (length l).
Proof.
  intros H. rewrite removelast_firstn_len, length_take. lia.
Qed.

Lemma ReadFull_2 (a b : byte) (r : list byte) :
  ReadFull 2 (a :: b :: r) = (Ok [a; b], r).
Proof. exact (ReadFull_app [a; b] r). Qed.

(** C6, as the code has it: a control message whose frame (type, 16-bit
    length, payload) covers the whole buffer is refused with [ErrValidation]
    once its last byte is removed, whatever the message, and the validator
    is left as it was. *)
Theorem truncated_control_message (data : list byte) (v : MoQTValidator)
  (msgType msgLength : Z) (payload : list byte) :
  controlFrame data = Ok (msgType, msgLength, payload, []) ->
  ValidateMessage (removelast data) true v = (Err ErrValidation, v).
Proof.
  unfold controlFrame.
  destruct (VarInt.Decode data) as [[[t n0] [e|]] r1] eqn:ED; [discriminate|].
  destruct (isValidMessageType t) eqn:Hvalid; [|discriminate]. cbn [negb].
  destruct (ReadFull 2 r1) as [[lb|e] r2] eqn:EL; [|discriminate].
  destruct (ReadFull (BigEndian.Uint16 lb) r2) as [[pl|e] r3] eqn:EP; [|discriminate].
  intros [= -> _ -> ->].
  apply Decode_inv in ED as (p & -> & Hp & Hdec).
  apply ReadFull_inv in EL as [-> Hlb]. specialize (Hlb ltac:(lia)).
  pose proof (Uint16_bound lb) as Hb.
  apply ReadFull_inv in EP as [-> Hpl]. specialize (Hpl ltac:(lia)).
  rewrite app_nil_r in *.
  destruct lb as [|a [|b [|c lb]]]; unfold len in Hlb; cbn [length] in Hlb; try lia.
  clear Hlb.
  assert (Hframe : forall q, q = [a] \/ (exists pl', q = [a; b] ++ pl' /\ len pl' < len payload) ->
             ValidateMessage (p ++ q) true v = (Err ErrValidation, v)).
  { intros q Hq. unfold ValidateMessage.
    destruct (len (p ++ q) =? 0) eqn:E0.
    { apply Z.eqb_eq in E0. rewrite len_app in E0. pose proof (len_nonneg q). lia. }
    unfold validateControlMessage, bindM, liftP, controlFrame.
    rewrite Hdec, Hvalid. cbn [negb].
    destruct Hq as [-> | (pl' & -> & Hlt)].
    - reflexivity.
    - cbn [app]. rewrite ReadFull_2.
      destruct (ReadFull_short (BigEndian.Uint16 [a; b]) pl') as (e & r' & ->);
        [lia|reflexivity]. }
  destruct payload as [|c payload].
  - rewrite app_nil_r.
    rewrite removelast_app by discriminate. apply Hframe. left. reflexivity.
  - rewrite removelast_app by discriminate.
    change ([a; b] ++ c :: payload) with ([a; b] ++ (c :: payload)).
    rewrite (removelast_app [a; b]) by discriminate.
    apply Hframe. right. eexists. split; [reflexivity|].
    unfold len. rewrite length_removelast by discriminate. cbn [length]. lia.
Qed.

Lemma truncated_control_message_witness :
  ValidateMessage (removelast (encMaxRequestID 10)) true NewMoQTValidator
  = (Err ErrValidation, NewMoQTValidator).
Proof.
  apply (truncated_control_message (encMaxRequestID 10) NewMoQTValidator
           MaxRequestID 1 (bytes_of [10])).
  vm_compute. reflexivity.
Defined.

(** *** Records *)

Lemma mget_mset_eq (k : string) (x : Value) (m : Record) :
  mget k (mset k x m) = Some x.
Proof.
  induction m as [|[k' y] m IH]; cbn [mset mget].
  - rewrite String.eqb_refl. reflexivity.
  - destruct (String.eqb k k') eqn:E; cbn [mget]; rewrite ?String.eqb_refl, ?E; auto.
Qed.

Lemma mget_mset_ne (k k' : string) (x : Value) (m : Record) :
  k <> k' -> mget k (mset k' x m) = mget k m.
Proof.
  intros Hne. induction m as [|[k0 y] m IH]; cbn [mset mget].
  - destruct (String.eqb k k') eqn:E; [apply String.eqb_eq in E; contradiction|reflexivity].
  - destruct (String.eqb k' k0) eqn:E; cbn [mget].
    + apply String.eqb_eq in E. subst k0.
      destruct (String.eqb k k') eqn:E'; [apply String.eqb_eq in E'; contradiction|reflexivity].
    + destruct (String.eqb k k0); [reflexivity|exact IH].
Qed.

(** *** Object order in a subgroup stream *)

Lemma validObjectStatus_range (status : Z) :
  isValidObjectStatus status = true -> 0 <= status < 2 ^ 62.
Proof.
  unfold isValidObjectStatus, ObjectStatusNormal, ObjectStatusDoesNotExist,
    ObjectStatusEndOfGroup, ObjectStatusEndOfTrack.
  intros H. repeat (apply orb_true_iff in H as [H|H]); apply Z.eqb_eq in H; lia.
Qed.

Lemma objectExtensions_encBytes (obj : Record) (ext r : list byte) :
  len ext < 2 ^ 62 -> is_ok (validateExtensionHeaders ext) = true ->
  exists obj',
    objectExtensions obj (encBytes ext ++ r) = Ok (obj', r)
    /\ mget "object_id" obj' = mget "object_id" obj.
Proof.
  intros Hlen Hok. pose proof (len_nonneg ext).
  unfold objectExtensions, encBytes. rewrite <- app_assoc.
  unfold bindP at 1. rewrite decode_enc by lia.
  destruct (len ext >? 0) eqn:E.
  - unfold bindP. rewrite readFullOr_app.
    destruct (validateExtensionHeaders ext) as [headers|e]; [|discriminate].
    eexists. split; [reflexivity|].
    rewrite !mget_mset_ne by discriminate. reflexivity.
  - assert (ext = []) as ->.
    { rewrite Z.gtb_ltb in E. apply Z.ltb_ge in E.
      destruct ext; [reflexivity|unfold len in *; cbn [length] in *; lia]. }
    eexists. split; [reflexivity|].
    rewrite !mget_mset_ne by discriminate. reflexivity.
Qed.

Lemma objectPayload_enc (obj : Record) (payload : list byte) (status : Z)
  (r : list byte) :
  len payload < 2 ^ 62 ->
  (len payload = 0 -> isValidObjectStatus status = true) ->
  exists obj',
    objectPayload obj
      (enc (len payload) ++ (if len payload =? 0 then enc status else payload) ++ r)
    = Ok (obj', r)
    /\ mget "object_id" obj' = mget "object_id" obj.
Proof.
  intros Hlen Hstatus. pose proof (len_nonneg payload).
  unfold objectPayload. unfold bindP at 1. rewrite decode_enc by lia.
  destruct (len payload =? 0) eqn:E.
  - apply Z.eqb_eq in E. specialize (Hstatus E).
    pose proof (validObjectStatus_range status Hstatus).
    unfold bindP. rewrite decode_enc by lia. rewrite Hstatus. cbn [negb].
    eexists. split; [reflexivity|].
    rewrite !mget_mset_ne by discriminate. reflexivity.
  - unfold bindP. rewrite readFullOr_app.
    destruct (len payload <? 100); eexists; (split; [reflexivity|]);
      rewrite !mget_mset_ne by discriminate; reflexivity.
Qed.

(** A well-formed object is read back whole, with its object ID. *)
Lemma validateSubgroupObject_encObject (ext : bool) (o : SubgroupObject)
  (r : list byte) :
  wfObject ext o ->
  exists obj,
    validateSubgroupObject ext (encObject ext o ++ r) = Ok (obj, r)
    /\ objectIDOf obj = oid o.
Proof.
  intros (Hid & Hpl & Hst & Hext).
  unfold validateSubgroupObject, encObject. rewrite <- !app_assoc.
  unfold bindP at 1. rewrite decode_enc by lia.
  set (obj0 := [("object_id"%string, VUint (oid o))]).
  assert (H0 : mget "object_id" obj0 = Some (VUint (oid o))) by reflexivity.
  destruct ext.
  - destruct (Hext eq_refl) as [Hel Hok].
    destruct (objectExtensions_encBytes obj0 (oext o)
                (enc (len (opayload o))
                 ++ (if len (opayload o) =? 0 then enc (ostatus o) else opayload o) ++ r)
                Hel Hok) as (obj1 & E1 & G1).
    unfold bindP at 1. rewrite E1.
    destruct (objectPayload_enc obj1 (opayload o) (ostatus o) r Hpl Hst)
      as (obj2 & E2 & G2).
    rewrite E2. exists obj2. split; [reflexivity|].
    unfold objectIDOf. rewrite G2, G1, H0. reflexivity.
  - cbn [app]. unfold bindP at 1, retP.
    destruct (objectPayload_enc obj0 (opayload o) (ostatus o) r Hpl Hst)
      as (obj2 & E2 & G2).
    rewrite E2. exists obj2. split; [reflexivity|].
    unfold objectIDOf. rewrite G2, H0. reflexivity.
Qed.


Lemma length_encObject_pos (ext : bool) (o : SubgroupObject) :
  wfObject ext o -> (1 <= length (encObject ext o))%nat.
Proof.
  intros (Hid & _). unfold encObject. rewrite length_app.
  pose proof (enc_nonempty (oid o) ltac:(lia)) as Hp. unfold len in Hp. lia.
Qed.

Lemma length_concat_encObject (ext : bool) (objs : list SubgroupObject) :
  Forall (wfObject ext) objs ->
  (length objs <= length (concat (map (encObject ext) objs)))%nat.
Proof.
  induction 1 as [|o os Hwf _ IH]; [cbn; lia|].
  cbn [map concat length]. rewrite length_app.
  pose proof (length_encObject_pos ext o Hwf). lia.
Qed.

(** Scenario: header type 0x0A, group 100, objects 5, 7, 6. *)
Example unordered_objects_5_7_6 :
  validateDataStream
    (bytes_of [0x0A; 1; 0x40; 100; 0; 5; 3; 97; 98; 99; 7; 0; 0; 6; 0; 3])
  = Err ErrProtocolViolation.
Proof. vm_compute. reflexivity. Qed.



(** *** The token cache budget *)

Lemma tokenSum_empty : tokenSum ∅ = 0.
Proof. unfold tokenSum. apply map_fold_empty. Qed.

Lemma tokenSum_insert (m : gmap Z (list byte)) (alias : Z) (token : list byte) :
  m !! alias = None ->
  tokenSum (<[alias := token]> m) = 8 + len token + tokenSum m.
Proof.
  intros H. unfold tokenSum.
  rewrite map_fold_insert_L; [reflexivity | intros; lia | exact H].
Qed.

Lemma tokenSum_delete (m : gmap Z (list byte)) (alias : Z) (token : list byte) :
  m !! alias = Some token ->
  tokenSum m = 8 + len token + tokenSum (delete alias m).
Proof.
  intros H. unfold tokenSum.
  rewrite (map_fold_delete_L _ _ alias token m); [reflexivity | intros; lia | exact H].
Qed.

Lemma tokenSum_nonneg (m : gmap Z (list byte)) : 0 <= tokenSum m.
Proof.
  unfold tokenSum.
  apply (map_fold_weak_ind (fun acc _ => 0 <= acc)); [lia|].
  intros i x m' acc _ H. pose proof (len_nonneg x). lia.
Qed.

Section Preserving.

Variable I : MoQTValidator -> Prop.

Lemma preserves_retM {A} (a : A) : preserves I (retM a).
Proof. intros r v H. exact H. Qed.

Lemma preserves_failM {A} (e : Error) : preserves I (@failM A e).
Proof. intros r v H. exact H. Qed.

Lemma preserves_liftP {A} (p : P A) : preserves I (liftP p).
Proof. intros r v H. exact H. Qed.

Lemma preserves_bindM {A B} (m : M A) (k : A -> M B) :
  preserves I m -> (forall a, preserves I (k a)) -> preserves I (bindM m k).
Proof.
  intros Hm Hk r v H. unfold bindM. specialize (Hm r v H).
  destruct (m r v) as [[[a r1]|e] v1]; cbn [snd] in *; [|exact Hm].
  apply Hk, Hm.
Qed.

Lemma preserves_checkRequestID (requestID : Z) (isClient : bool) :
  preserves I (checkRequestID requestID isClient).
Proof.
  intros r v H. unfold checkRequestID.
  destruct (validateRequestID requestID isClient v); exact H.
Qed.

Lemma preserves_liftResult {A} (x : result A) (e : Error) :
  preserves I (liftResult x e).
Proof. intros r v H. unfold liftResult. destruct x; exact H. Qed.

Lemma preserves_onBuffer {A} (buf : list byte) (m : M A) :
  preserves I m -> preserves I (onBuffer buf m).
Proof.
  intros Hm r v H. unfold onBuffer. specialize (Hm buf v H).
  destruct (m buf v) as [[[a r1]|e] v1]; exact Hm.
Qed.

Lemma preserves_forM_from {S} (body : S -> M S) :
  (forall s, preserves I (body s)) ->
  forall fuel i n s, preserves I (forM_from fuel i n body s).
Proof.
  intros Hb. induction fuel as [|fuel IH]; intros i n s r v H; cbn [forM_from].
  - destruct (i <? n); [|exact H]. specialize (Hb s r v H).
    destruct (body s r v) as [[[s' r']|e] v']; exact Hb.
  - destruct (i <? n); [|exact H]. specialize (Hb s r v H).
    destruct (body s r v) as [[[s' r']|e] v']; cbn [snd] in *; [|exact Hb].
    apply IH, Hb.
Qed.

Lemma preserves_forM {S} (n : Z) (body : S -> M S) (s : S) :
  (forall s, preserves I (body s)) -> preserves I (forM n body s).
Proof. intros Hb r v H. unfold forM. apply preserves_forM_from; assumption. Qed.

End Preserving.

Section Budget.

Variable limit : Z.
Hypothesis limit_varint : limit < 2 ^ 62.

(** The writes of SUBSCRIBE and FETCH do not touch the token cache. *)
Lemma preserves_modify_subscriptions (f : MoQTValidator -> gmap Z SubscriptionInfo) :
  preserves (withinBudget limit) (modifyV (fun v => set_activeSubscriptions (f v) v)).
Proof. intros r v H. exact H. Qed.

Lemma preserves_modify_fetches (f : MoQTValidator -> gmap Z Record) :
  preserves (withinBudget limit) (modifyV (fun v => set_activeFetches (f v) v)).
Proof. intros r v H. exact H. Qed.

(** REGISTER: with a token of at most 65535 bytes, the size a parameter
    value can have, the [uint64] sums do not wrap. *)
Lemma registerToken_budget (result : Record) (tokenValue : list byte)
  (r : Reader) (v : MoQTValidator) :
  len tokenValue <= 65535 -> withinBudget limit v ->
  withinBudget limit (snd (registerToken result tokenValue r v)).
Proof.
  intros Hlen [[Hsum Hle] Hlim]. pose proof (len_nonneg tokenValue) as Hnn.
  pose proof (tokenSum_nonneg (authTokens v)) as Hpos.
  unfold registerToken, uint64.
  rewrite (Z.mod_small (8 + len tokenValue)) by lia.
  rewrite (Z.mod_small (currentAuthTokenSize v + _)) by lia.
  destruct (_ >? _) eqn:E; [repeat split; assumption|].
  rewrite Z.gtb_ltb in E. apply Z.ltb_ge in E.
  destruct (mget "token_alias" result) as [[]|]; try (repeat split; assumption).
  destruct (authTokens v !! z) eqn:El; [repeat split; assumption|].
  cbn [snd]. split; [split|]; cbn [set_tokens authTokens currentAuthTokenSize
                                    maxAuthTokenCacheSize].
  - rewrite tokenSum_insert by exact El. lia.
  - exact E.
  - exact Hlim.
Qed.

Lemma tokenOperation_budget (aliasType : Z) (result : Record)
  (r : Reader) (v : MoQTValidator) :
  withinBudget limit v ->
  withinBudget limit (snd (tokenOperation aliasType result r v)).
Proof.
  intros [[Hsum Hle] Hlim]. unfold tokenOperation.
  destruct (aliasType =? AliasTypeDelete).
  - destruct (mget "token_alias" result) as [[]|]; try (repeat split; assumption).
    destruct (authTokens v !! z) as [token|] eqn:El; [|repeat split; assumption].
    pose proof (tokenSum_delete _ _ _ El) as Hd.
    pose proof (tokenSum_nonneg (delete z (authTokens v))) as Hpos.
    pose proof (len_nonneg token) as Hnn.
    cbn [snd]. unfold uint64.
    rewrite (Z.mod_small (8 + len token)) by lia.
    rewrite (Z.mod_small (currentAuthTokenSize v - _)) by lia.
    split; [split|]; cbn [set_tokens authTokens currentAuthTokenSize
                            maxAuthTokenCacheSize]; [lia|lia|exact Hlim].
  - destruct (aliasType =? AliasTypeUseAlias); [|repeat split; assumption].
    destruct (mget "token_alias" result) as [[]|]; try (repeat split; assumption).
    destruct (authTokens v !! z); repeat split; assumption.
Qed.

Lemma readOnly_liftP {A} (p : P A) : readOnly (liftP p).
Proof. intros r v. reflexivity. Qed.

Lemma readOnly_retM {A} (a : A) : readOnly (retM a).
Proof. intros r v. reflexivity. Qed.

Lemma readOnly_failM {A} (e : Error) : readOnly (@failM A e).
Proof. intros r v. reflexivity. Qed.

Lemma readOnly_bindM {A B} (m : M A) (k : A -> M B) :
  readOnly m -> (forall a, readOnly (k a)) -> readOnly (bindM m k).
Proof.
  intros Hm Hk r v. unfold bindM. specialize (Hm r v).
  destruct (m r v) as [[[a r1]|e] v1]; cbn [snd] in *; subst v1; [apply Hk|reflexivity].
Qed.

Lemma preservesUpTo_preserves {A} (n : Z) (m : M A) :
  preserves (withinBudget limit) m -> preservesUpTo n (withinBudget limit) m.
Proof. intros H r v _. apply H. Qed.

(** Reading first: what follows starts from a reader that is no longer. *)
Lemma preservesUpTo_after {A B} (n : Z) (m : M A) (k : A -> M B) :
  readOnly m -> shrinksM m -> (forall a, preservesUpTo n (withinBudget limit) (k a)) ->
  preservesUpTo n (withinBudget limit) (bindM m k).
Proof.
  intros Hro Hsh Hk r v Hlen HI. unfold bindM.
  specialize (Hro r v). specialize (Hsh r v).
  destruct (m r v) as [[[a r1]|e] v1]; cbn [snd] in *; subst v1; [|exact HI].
  apply Hk; [|exact HI]. specialize (Hsh a r1 v eq_refl). unfold len in *. lia.
Qed.

Lemma preservesUpTo_then {A B} (n : Z) (m : M A) (k : A -> M B) :
  preservesUpTo n (withinBudget limit) m -> (forall a, preserves (withinBudget limit) (k a)) ->
  preservesUpTo n (withinBudget limit) (bindM m k).
Proof.
  intros Hm Hk r v Hlen HI. unfold bindM. specialize (Hm r v Hlen HI).
  destruct (m r v) as [[[a r1]|e] v1]; cbn [snd] in *; [|exact Hm].
  apply Hk, Hm.
Qed.

(** [io.ReadAll]: the value is the rest of the reader. *)
Lemma preservesUpTo_ReadAll {B} (n : Z) (k : list byte -> M B) :
  (forall tokenValue, len tokenValue <= n -> preserves (withinBudget limit) (k tokenValue)) ->
  preservesUpTo n (withinBudget limit) (bindM (liftP (fun r => Ok (ReadAll r))) k).
Proof. intros Hk r v Hlen HI. unfold bindM, liftP, ReadAll. apply Hk; assumption. Qed.

(** A read with a fact about its value, then a method that needs it. *)
Lemma preserves_after {A B} (Q : A -> Prop) (m : M A) (k : A -> M B) :
  readOnly m ->
  (forall r v a r' v', m r v = (Ok (a, r'), v') -> Q a) ->
  (forall a, Q a -> preserves (withinBudget limit) (k a)) ->
  preserves (withinBudget limit) (bindM m k).
Proof.
  intros Hro HQ Hk r v HI. unfold bindM.
  specialize (Hro r v). specialize (HQ r v).
  destruct (m r v) as [[[a r1]|e] v1]; cbn [snd] in *; subst v1; [|exact HI].
  apply Hk; [|exact HI]. eapply HQ. reflexivity.
Qed.

Lemma preserves_registerToken (result : Record) (tokenValue : list byte) :
  len tokenValue <= 65535 -> preserves (withinBudget limit) (registerToken result tokenValue).
Proof. intros Hlen r v. apply registerToken_budget, Hlen. Qed.

Lemma preserves_tokenOperation (aliasType : Z) (result : Record) :
  preserves (withinBudget limit) (tokenOperation aliasType result).
Proof. intros r v. apply tokenOperation_budget. Qed.

Lemma authTokenBody_budget : preservesUpTo 65535 (withinBudget limit) authTokenBody.
Proof.
  unfold authTokenBody.
  apply preservesUpTo_after;
    [apply readOnly_liftP | apply shrinksM_liftP, consumes_shrinks, consumes_decode|].
  intros aliasType.
  destruct (aliasType >? 3); [apply preservesUpTo_preserves, preserves_failM|].
  cbv zeta. apply preservesUpTo_after.
  { destruct (aliasType <=? 2); [|apply readOnly_retM].
    apply readOnly_bindM; [apply readOnly_liftP|intros; apply readOnly_retM]. }
  { destruct (aliasType <=? 2); [|apply shrinksM_retM].
    apply shrinksM_bindM; [|intros; apply shrinksM_retM].
    apply shrinksM_liftP, consumes_shrinks, consumes_decode. }
  intros result. apply preservesUpTo_then.
  - destruct ((aliasType =? 1) || (aliasType =? 3));
      [|apply preservesUpTo_preserves, preserves_retM].
    apply preservesUpTo_after;
      [apply readOnly_liftP | apply shrinksM_liftP, consumes_shrinks, consumes_decode|].
    intros tokenType. apply preservesUpTo_ReadAll. intros tokenValue Hlen.
    apply preserves_bindM; [|intros; apply preserves_retM].
    destruct (aliasType =? AliasTypeRegister);
      [apply preserves_registerToken, Hlen | apply preserves_retM].
  - intros result'. apply preserves_bindM; [|intros; apply preserves_retM].
    apply preserves_tokenOperation.
Qed.

Lemma validateAuthToken_budget (tokenData : list byte) (v : MoQTValidator) :
  len tokenData <= 65535 -> withinBudget limit v ->
  withinBudget limit (snd (validateAuthToken tokenData v)).
Proof.
  intros Hlen HI. unfold validateAuthToken.
  pose proof (authTokenBody_budget tokenData v Hlen HI) as H.
  destruct (authTokenBody tokenData v) as [[[result r]|e] v']; exact H.
Qed.

Lemma preserves_authorizationToken (paramInfo : Record) (value : list byte) :
  len value <= 65535 -> preserves (withinBudget limit) (authorizationToken paramInfo value).
Proof.
  intros Hlen r v HI. unfold authorizationToken.
  pose proof (validateAuthToken_budget value v Hlen HI) as H.
  destruct (validateAuthToken value v) as [[d|e] v3]; exact H.
Qed.

Lemma preserves_versionParameter (params : list Record) :
  preserves (withinBudget limit) (versionParameter params).
Proof.
  unfold versionParameter. apply preserves_bindM; [apply preserves_liftP|].
  intros paramType. cbv zeta.
  apply (preserves_after (fun pv : Record * list byte => len (snd pv) <= 65535)).
  - destruct (paramType mod 2 =? 0).
    + apply readOnly_bindM; [apply readOnly_liftP|intros; apply readOnly_retM].
    + apply readOnly_bindM; [apply readOnly_liftP|]. intros length.
      destruct (length >? 65535); [apply readOnly_failM|].
      apply readOnly_bindM; [apply readOnly_liftP|intros; apply readOnly_retM].
  - intros r v [paramInfo value] r' v'. cbn [snd].
    destruct (paramType mod 2 =? 0).
    + unfold bindM, liftP, retM. destruct (decode r) as [[val r2]|e]; [|discriminate].
      intros [= _ <- _ _]. unfold len. cbn [length]. lia.
    + unfold bindM at 1, liftP at 1.
      destruct (decode r) as [[length r2]|e] eqn:E2; [|discriminate].
      apply decode_nonneg in E2.
      destruct (length >? 65535) eqn:El; [discriminate|].
      rewrite Z.gtb_ltb in El. apply Z.ltb_ge in El.
      unfold bindM, liftP, retM.
      destruct (readFullOr ErrValidation length r2) as [[bytes r3]|e] eqn:E3;
        [|discriminate].
      apply readFullOr_inv in E3 as [_ Hb]. intros [= _ <- _ _].
      rewrite Hb by lia. exact El.
  - intros [paramInfo value] Hvalue. cbn [snd] in Hvalue.
    apply preserves_bindM; [|intros; apply preserves_retM].
    destruct (paramType =? VersionParamAuthorizationToken).
    + destruct (len value >? 0); [|apply preserves_retM].
      apply preserves_authorizationToken, Hvalue.
    + destruct (paramType =? VersionParamDeliveryTimeout); [apply preserves_retM|].
      destruct (paramType =? VersionParamMaxCacheDuration); apply preserves_retM.
Qed.

Lemma preserves_parametersTail (result : Record) :
  preserves (withinBudget limit) (parametersTail result).
Proof.
  unfold parametersTail. apply preserves_bindM; [apply preserves_liftP|].
  intros numParams. destruct (numParams >? 0); [|apply preserves_retM].
  apply preserves_bindM; [|intros; apply preserves_retM].
  apply preserves_forM. apply preserves_versionParameter.
Qed.

Ltac keep :=
  repeat first
    [ apply preserves_retM
    | apply preserves_failM
    | apply preserves_liftP
    | apply preserves_checkRequestID
    | apply preserves_liftResult
    | apply preserves_parametersTail
    | apply preserves_modify_subscriptions
    | apply preserves_modify_fetches
    | apply preserves_bindM
    | match goal with
      | |- forall _, preserves _ _ => intro
      | |- preserves _ (if ?c then _ else _) => destruct c
      | |- preserves _ (match ?x with _ => _ end) => destruct x
      end ].

Lemma preserves_validateSubscribe : preserves (withinBudget limit) validateSubscribe.
Proof. unfold validateSubscribe. keep. Qed.

Lemma preserves_validateSubscribeOK : preserves (withinBudget limit) validateSubscribeOK.
Proof. unfold validateSubscribeOK. keep. Qed.

Lemma preserves_validateFetch : preserves (withinBudget limit) validateFetch.
Proof. unfold validateFetch. keep. Qed.

Lemma preserves_validateAnnounce : preserves (withinBudget limit) validateAnnounce.
Proof. unfold validateAnnounce. keep. Qed.

Lemma preserves_validateTrackStatusRequest : preserves (withinBudget limit) validateTrackStatusRequest.
Proof. unfold validateTrackStatusRequest. keep. Qed.

Lemma preserves_payloadValidator (msgType : Z) (validate : M Record) :
  payloadValidator msgType = Some validate -> preserves (withinBudget limit) validate.
Proof.
  unfold payloadValidator.
  repeat match goal with
         | |- (if ?c then _ else _) = _ -> _ => destruct c
         end;
    intros [= <-];
    auto using preserves_liftP, preserves_validateSubscribe,
      preserves_validateSubscribeOK, preserves_validateFetch,
      preserves_validateAnnounce, preserves_validateTrackStatusRequest.
Qed.

Lemma preserves_validateControlMessage : preserves (withinBudget limit) validateControlMessage.
Proof.
  unfold validateControlMessage. apply preserves_bindM; [apply preserves_liftP|].
  intros [[msgType msgLength] payload].
  destruct (payloadValidator msgType) as [validate|] eqn:E; [|apply preserves_retM].
  apply preserves_bindM; [|intros; apply preserves_retM].
  apply preserves_onBuffer. eapply preserves_payloadValidator, E.
Qed.

Lemma call_budget (v v' : MoQTValidator) : call v v' -> withinBudget limit v -> withinBudget limit v'.
Proof.
  intros [data isControlStream v0 | data v0] HI.
  - unfold ValidateMessage. destruct (len data =? 0); [exact HI|].
    destruct isControlStream; [|exact HI].
    pose proof (preserves_validateControlMessage data v0 HI) as H.
    destruct (validateControlMessage data v0) as [[[result r]|e] v1]; exact H.
  - unfold ValidateDatagram. destruct (len data =? 0); [exact HI|].
    destruct (decode data) as [[datagramType r]|e]; [|exact HI].
    destruct (negb (isValidDatagramType datagramType)); [exact HI|].
    destruct (datagramBody datagramType r) as [[result r']|e]; exact HI.
Qed.

Lemma reachable_budget (v0 v : MoQTValidator) : reachable v0 v -> (withinBudget limit) v0 -> withinBudget limit v.
Proof.
  induction 1 as [|v v' _ IH Hcall]; intros HI; [exact HI|].
  eapply call_budget; [exact Hcall|]. apply IH, HI.
Qed.

(** A REGISTER that does not fit is refused before anything is written. *)
Lemma register_over_budget (v : MoQTValidator) (alias tokenType : Z)
  (tokenValue : list byte) :
  withinBudget limit v -> 0 <= alias < 2 ^ 62 -> 0 <= tokenType < 2 ^ 62 ->
  len tokenValue <= 65535 ->
  currentAuthTokenSize v + (8 + len tokenValue) > maxAuthTokenCacheSize v ->
  validateAuthToken (encRegister alias tokenType tokenValue) v
  = (Err ErrProtocolViolation, v).
Proof.
  intros [[Hsum Hle] Hlim] Ha Ht Hlen Hover.
  pose proof (len_nonneg tokenValue) as Hnn.
  pose proof (tokenSum_nonneg (authTokens v)) as Hpos.
  unfold validateAuthToken, authTokenBody, encRegister, AliasTypeRegister.
  unfold bindM at 1, liftP at 1. rewrite decode_enc by lia.
  change (1 >? 3) with false. change (1 <=? 2) with true.
  change ((1 =? 1) || (1 =? 3)) with true. cbv beta iota.
  unfold bindM at 1. unfold bindM at 1, liftP at 1. rewrite decode_enc by lia.
  unfold retM at 1. unfold bindM at 1. unfold bindM at 1, liftP at 1.
  rewrite decode_enc by lia.
  unfold bindM at 1, liftP at 1, ReadAll. cbv beta iota.
  unfold bindM at 1. change (1 =? 1) with true. cbv beta iota.
  unfold registerToken, uint64.
  rewrite (Z.mod_small (8 + len tokenValue)) by lia.
  rewrite (Z.mod_small (currentAuthTokenSize v + _)) by lia.
  destruct (_ >? _) eqn:E; [reflexivity|].
  rewrite Z.gtb_ltb in E. apply Z.ltb_ge in E. lia.
Qed.

End Budget.

Lemma reachable_withinBudget (v0 v : MoQTValidator) :
  tokenBudget v0 -> maxAuthTokenCacheSize v0 < 2 ^ 62 -> reachable v0 v ->
  withinBudget (maxAuthTokenCacheSize v0) v.
Proof.
  intros Hbudget Hlimit Hreach.
  eapply reachable_budget; [exact Hlimit|exact Hreach|].
  split; [exact Hbudget|reflexivity].
Qed.

Lemma new_validator_within_budget (v : MoQTValidator) :
  reachable NewMoQTValidator v -> tokenBudget v /\ maxAuthTokenCacheSize v = 0.
Proof.
  intros Hreach. apply (reachable_withinBudget NewMoQTValidator v); [|reflexivity|exact Hreach].
  split; [apply tokenSum_empty|reflexivity].
Qed.

(** C5: in every state a session reaches from a state where the budget
    holds (a new validator is one) and the limit is a varint value, whatever
    messages and datagrams are validated and whether they are accepted or
    not, the sum of [8 + len(value)] over the registered aliases equals
    [currentAuthTokenSize] and [currentAuthTokenSize <= maxAuthTokenCacheSize];
    the limit is never changed; and a REGISTER whose token would take the size
    over the limit fails with [ErrProtocolViolation] and leaves the
    validator, cache and size included, as it was. *)
Theorem token_budget_invariant (v0 v : MoQTValidator) :
  tokenBudget v0 -> maxAuthTokenCacheSize v0 < 2 ^ 62 -> reachable v0 v ->
  tokenBudget v
  /\ maxAuthTokenCacheSize v = maxAuthTokenCacheSize v0
  /\ forall alias tokenType tokenValue,
      0 <= alias < 2 ^ 62 -> 0 <= tokenType < 2 ^ 62 -> len tokenValue <= 65535 ->
      currentAuthTokenSize v + (8 + len tokenValue) > maxAuthTokenCacheSize v ->
      validateAuthToken (encRegister alias tokenType tokenValue) v
      = (Err ErrProtocolViolation, v).
Proof.
  intros Hbudget Hlimit Hreach.
  destruct (reachable_withinBudget v0 v Hbudget Hlimit Hreach) as [Hb Hl]. split; [exact Hb|]. split; [exact Hl|].
  intros alias tokenType tokenValue Ha Ht Hlen Hover.
  eapply register_over_budget; try eassumption. split; [exact Hb|exact Hl].
Qed.

Lemma token_budget_invariant_witness :
  let v0 := validatorWithCache 64 in
  let v := snd (ValidateMessage announceRegisterExample true v0) in
  tokenBudget v
  /\ maxAuthTokenCacheSize v = maxAuthTokenCacheSize v0
  /\ forall alias tokenType tokenValue,
      0 <= alias < 2 ^ 62 -> 0 <= tokenType < 2 ^ 62 -> len tokenValue <= 65535 ->
      currentAuthTokenSize v + (8 + len tokenValue) > maxAuthTokenCacheSize v ->
      validateAuthToken (encRegister alias tokenType tokenValue) v
      = (Err ErrProtocolViolation, v).
Proof.
  apply (token_budget_invariant (validatorWithCache 64)).
  - split; [vm_compute; reflexivity | vm_compute; discriminate].
  - vm_compute. reflexivity.
  - eapply reachable_call; [apply reachable_start | apply call_message].
Defined.

(** The example registers its token: the cache has one entry and the size
    is 12. *)
Example announce_registers_token :
  let v := snd (ValidateMessage announceRegisterExample true (validatorWithCache 64)) in
  is_ok (fst (ValidateMessage announceRegisterExample true (validatorWithCache 64))) = true
  /\ authTokens v !! 3 = Some (bytes_of [1; 2; 3; 4])
  /\ currentAuthTokenSize v = 12.
Proof. vm_compute. repeat split. Qed.

(** From a new validator the limit is 0: the budget holds in every state,
    with an empty cache. *)
Corollary new_validator_budget (v : MoQTValidator) :
  reachable NewMoQTValidator v ->
  tokenBudget v /\ maxAuthTokenCacheSize v = 0 /\ currentAuthTokenSize v = 0.
Proof.
  intros Hreach.
  destruct (new_validator_within_budget v Hreach) as (Hb & Hl).
  split; [exact Hb|]. split; [exact Hl|].
  destruct Hb as [Hsum Hle]. pose proof (tokenSum_nonneg (authTokens v)). lia.
Qed.

(** *** Track aliases *)

(** C2 fails here.  SUBSCRIBE twice with request ID 0 and track alias 10 on
    a new validator: the second is accepted while the first is live. *)
Lemma duplicate_track_alias_accepted :
  let v1 := snd (ValidateMessage (subscribeExample 0) true NewMoQTValidator) in
  is_ok (fst (ValidateMessage (subscribeExample 0) true NewMoQTValidator)) = true
  /\ track_alias <$> (activeSubscriptions v1 !! 0) = Some 10
  /\ is_ok (fst (ValidateMessage (subscribeExample 0) true v1)) = true
  /\ fst (ValidateMessage (subscribeExample 0) true v1) <> Err ErrProtocolViolation.
Proof. vm_compute. repeat split. discriminate. Qed.

(** With a limit of 2 on client request IDs, SUBSCRIBE 0 and SUBSCRIBE 2
    with the same alias leave two live subscriptions with that alias. *)
Example two_subscriptions_one_alias :
  let v0 := set_activeSubscriptions ∅
              {| currentVersion := 1; maxRequestIDClient := 2; maxRequestIDServer := 0;
                 activeTracks := ∅; activeSubscriptions := ∅; activeFetches := ∅;
                 authTokens := ∅; maxAuthTokenCacheSize := 0;
                 currentAuthTokenSize := 0 |} in
  let v1 := snd (ValidateMessage (subscribeExample 0) true v0) in
  let v2 := snd (ValidateMessage (subscribeExample 2) true v1) in
  is_ok (fst (ValidateMessage (subscribeExample 2) true v1)) = true
  /\ track_alias <$> (activeSubscriptions v2 !! 0) = Some 10
  /\ track_alias <$> (activeSubscriptions v2 !! 2) = Some 10.
Proof. vm_compute. repeat split. Qed.

Lemma sameSession_refl (v : MoQTValidator) : sameSession v v.
Proof. repeat split. Qed.

Section Blind.

Lemma blind_retM {A} (a : A) : blind (retM a).
Proof. intros r v1 v2 H. split; [reflexivity|exact H]. Qed.

Lemma blind_failM {A} (e : Error) : blind (@failM A e).
Proof. intros r v1 v2 H. split; [reflexivity|exact H]. Qed.

Lemma blind_liftP {A} (p : P A) : blind (liftP p).
Proof. intros r v1 v2 H. split; [reflexivity|exact H]. Qed.

Lemma blind_bindM {A B} (m : M A) (k : A -> M B) :
  blind m -> (forall a, blind (k a)) -> blind (bindM m k).
Proof.
  intros Hm Hk r v1 v2 H. unfold bindM. destruct (Hm r v1 v2 H) as [Hf Hs].
  destruct (m r v1) as [[[a r1]|e] v1'], (m r v2) as [[[a2 r2]|e2] v2'];
    cbn [fst snd] in *; try discriminate.
  - injection Hf as <- <-. apply Hk, Hs.
  - injection Hf as <-. split; [reflexivity|exact Hs].
Qed.

Lemma blind_checkRequestID (requestID : Z) (isClient : bool) :
  blind (checkRequestID requestID isClient).
Proof.
  intros r v1 v2 H. pose proof H as (_ & Hc & Hs & _).
  unfold checkRequestID, validateRequestID. rewrite Hc, Hs.
  destruct isClient;
    repeat match goal with
           | |- context [if ?c then _ else _] => destruct c
           end; (split; [reflexivity|exact H]).
Qed.

Lemma blind_liftResult {A} (x : result A) (e : Error) : blind (liftResult x e).
Proof. intros r v1 v2 H. unfold liftResult. destruct x; (split; [reflexivity|exact H]). Qed.

Lemma blind_forM_from {S} (body : S -> M S) :
  (forall s, blind (body s)) -> forall fuel i n s, blind (forM_from fuel i n body s).
Proof.
  intros Hb. induction fuel as [|fuel IH]; intros i n s r v1 v2 H; cbn [forM_from].
  - destruct (i <? n); [|split; [reflexivity|exact H]].
    destruct (Hb s r v1 v2 H) as [Hf Hs].
    destruct (body s r v1) as [[[s1 r1]|e] v1'], (body s r v2) as [[[s2 r2]|e2] v2'];
      cbn [fst snd] in *; try discriminate.
    + split; [reflexivity|exact Hs].
    + injection Hf as <-. split; [reflexivity|exact Hs].
  - destruct (i <? n); [|split; [reflexivity|exact H]].
    destruct (Hb s r v1 v2 H) as [Hf Hs].
    destruct (body s r v1) as [[[s1 r1]|e] v1'], (body s r v2) as [[[s2 r2]|e2] v2'];
      cbn [fst snd] in *; try discriminate.
    + injection Hf as <- <-. apply IH, Hs.
    + injection Hf as <-. split; [reflexivity|exact Hs].
Qed.

Lemma blind_forM {S} (n : Z) (body : S -> M S) (s : S) :
  (forall s, blind (body s)) -> blind (forM n body s).
Proof. intros Hb r v1 v2 H. unfold forM. apply blind_forM_from; assumption. Qed.

Lemma blind_registerToken (result : Record) (tokenValue : list byte) :
  blind (registerToken result tokenValue).
Proof.
  intros r v1 v2 H. pose proof H as (Hv & Hc & Hs & Hf & Ht & Hm & Hz).
  unfold registerToken. rewrite Ht, Hm, Hz.
  destruct (_ >? _); [split; [reflexivity|exact H]|].
  destruct (mget "token_alias" result) as [[]|]; try (split; [reflexivity|exact H]).
  destruct (authTokens v2 !! z); (split; [reflexivity|]); [exact H|].
  repeat split; assumption.
Qed.

Lemma blind_tokenOperation (aliasType : Z) (result : Record) :
  blind (tokenOperation aliasType result).
Proof.
  intros r v1 v2 H. pose proof H as (Hv & Hc & Hs & Hf & Ht & Hm & Hz).
  unfold tokenOperation. rewrite Ht, Hz.
  destruct (aliasType =? AliasTypeDelete).
  - destruct (mget "token_alias" result) as [[]|]; try (split; [reflexivity|exact H]).
    destruct (authTokens v2 !! z); (split; [reflexivity|]); [|exact H].
    repeat split; assumption.
  - destruct (aliasType =? AliasTypeUseAlias); [|split; [reflexivity|exact H]].
    destruct (mget "token_alias" result) as [[]|]; try (split; [reflexivity|exact H]).
    destruct (authTokens v2 !! z); (split; [reflexivity|exact H]).
Qed.

Ltac unseen_with known :=
  repeat first
    [ known
    | apply blind_retM
    | apply blind_failM
    | apply blind_liftP
    | apply blind_checkRequestID
    | apply blind_liftResult
    | apply blind_registerToken
    | apply blind_tokenOperation
    | apply blind_bindM
    | match goal with
      | |- forall _, blind _ => intro
      | |- blind (if ?c then _ else _) => destruct c
      | |- blind (match ?x with _ => _ end) => destruct x
      end ].

Ltac unseen := unseen_with fail.

Lemma blind_authTokenBody : blind authTokenBody.
Proof. unfold authTokenBody. unseen. Qed.

Lemma blind_authorizationToken (paramInfo : Record) (value : list byte) :
  blind (authorizationToken paramInfo value).
Proof.
  intros r v1 v2 H. unfold authorizationToken, validateAuthToken.
  destruct (blind_authTokenBody value v1 v2 H) as [Hf Hs].
  destruct (authTokenBody value v1) as [[[d1 r1]|e1] v1'],
           (authTokenBody value v2) as [[[d2 r2]|e2] v2'];
    cbn [fst snd] in *; try discriminate.
  - injection Hf as <- <-. split; [reflexivity|exact Hs].
  - injection Hf as <-. split; [reflexivity|exact Hs].
Qed.

Lemma blind_versionParameter (params : list Record) : blind (versionParameter params).
Proof.
  unfold versionParameter. unseen_with ltac:(apply blind_authorizationToken).
Qed.

Lemma blind_parametersTail (result : Record) : blind (parametersTail result).
Proof.
  unfold parametersTail. unseen.
  apply blind_forM. apply blind_versionParameter.
Qed.

Lemma blind_modify_subscriptions (f : MoQTValidator -> gmap Z SubscriptionInfo) :
  blind (modifyV (fun v => set_activeSubscriptions (f v) v)).
Proof. intros r v1 v2 H. split; [reflexivity|exact H]. Qed.

Lemma blind_validateSubscribe : blind validateSubscribe.
Proof.
  unfold validateSubscribe.
  unseen_with ltac:(first [ apply blind_parametersTail
                          | apply blind_modify_subscriptions ]).
Qed.

End Blind.

(** The auth-token operations and the version parameters leave the two
  tables alone. *)
Lemma tables_registerToken subs tracks (result : Record) (tokenValue : list byte) :
  preserves (tablesAre subs tracks) (registerToken result tokenValue).
Proof.
  intros r v H. unfold registerToken.
  destruct (_ >? _); [exact H|].
  destruct (mget "token_alias" result) as [[]|]; try exact H.
  destruct (authTokens v !! z); exact H.
Qed.

Lemma tables_tokenOperation subs tracks (aliasType : Z) (result : Record) :
  preserves (tablesAre subs tracks) (tokenOperation aliasType result).
Proof.
  intros r v H. unfold tokenOperation.
  destruct (aliasType =? AliasTypeDelete).
  - destruct (mget "token_alias" result) as [[]|]; try exact H.
    destruct (authTokens v !! z); exact H.
  - destruct (aliasType =? AliasTypeUseAlias); [|exact H].
    destruct (mget "token_alias" result) as [[]|]; try exact H.
    destruct (authTokens v !! z); exact H.
Qed.

Ltac kept_with known :=
  repeat first
    [ known
    | apply preserves_retM
    | apply preserves_failM
    | apply preserves_liftP
    | apply preserves_checkRequestID
    | apply preserves_liftResult
    | apply tables_registerToken
    | apply tables_tokenOperation
    | apply preserves_bindM
    | match goal with
      | |- forall _, preserves _ _ => intro
      | |- preserves _ (if ?c then _ else _) => destruct c
      | |- preserves _ (match ?x with _ => _ end) => destruct x
      end ].

Lemma tables_authTokenBody subs tracks : preserves (tablesAre subs tracks) authTokenBody.
Proof. unfold authTokenBody. kept_with fail. Qed.

Lemma tables_authorizationToken subs tracks (paramInfo : Record) (value : list byte) :
  preserves (tablesAre subs tracks) (authorizationToken paramInfo value).
Proof.
  intros r v H. unfold authorizationToken, validateAuthToken.
  pose proof (tables_authTokenBody subs tracks value v H) as H'.
  destruct (authTokenBody value v) as [[[d r1]|e] v1]; exact H'.
Qed.

Lemma tables_versionParameter subs tracks (params : list Record) :
  preserves (tablesAre subs tracks) (versionParameter params).
Proof.
  unfold versionParameter. kept_with ltac:(apply tables_authorizationToken).
Qed.

Lemma tables_parametersTail subs tracks (result : Record) : preserves (tablesAre subs tracks) (parametersTail result).
Proof.
  unfold parametersTail.
  kept_with ltac:(apply preserves_forM; apply tables_versionParameter).
Qed.

Section Stored.

Variables requestID trackAlias : Z.

Lemma stores_failM {A} (e : Error) : stores requestID trackAlias (@failM A e).
Proof. intros r v a r' v' [=]. Qed.

(** A step that keeps the two tables, then a method that stores. *)
Lemma stores_bindM {A B} (m : M A) (k : A -> M B) :
  (forall subs tracks, preserves (tablesAre subs tracks) m) ->
  (forall a, stores requestID trackAlias (k a)) ->
  stores requestID trackAlias (bindM m k).
Proof.
  intros Hm Hk r v b r' v'. unfold bindM.
  pose proof (Hm (activeSubscriptions v) (activeTracks v) r v (conj eq_refl eq_refl))
    as [Hs Ht].
  destruct (m r v) as [[[a r1]|e] v1]; [|discriminate]. cbn [snd] in *.
  intros E. apply Hk in E as (info & Ha & Hi & Htr).
  exists info. rewrite Hi, Htr, Hs, Ht. repeat split. exact Ha.
Qed.

Lemma stores_modify (filterType : Z) (fullTrackName : FullTrackName)
  (result : Record) :
  stores requestID trackAlias
    (bindM (modifyV (fun v =>
              set_activeSubscriptions
                (<[requestID := {| track_alias := trackAlias;
                                   full_track_name := fullTrackName;
                                   filter_type := filterType |}]>
                   (activeSubscriptions v)) v))
       (fun _ => retM result)).
Proof.
  intros r v a r' v'. unfold bindM, modifyV, retM. intros [= _ _ <-].
  eexists. split; [|split]; [|reflexivity|reflexivity]. reflexivity.
Qed.

End Stored.

Lemma bindM_ok {A B} (m : M A) (k : A -> M B) r v b r' v' :
  bindM m k r v = (Ok (b, r'), v') ->
  exists a r1 v1, m r v = (Ok (a, r1), v1) /\ k a r1 v1 = (Ok (b, r'), v').
Proof.
  unfold bindM. destruct (m r v) as [[[a r1]|e] v1]; [|discriminate].
  intros E. exists a, r1, v1. split; [reflexivity|exact E].
Qed.

Lemma liftP_ok {A} (p : P A) r v a r1 v1 :
  liftP p r v = (Ok (a, r1), v1) -> p r = Ok (a, r1) /\ v1 = v.
Proof.
  unfold liftP. destruct (p r) as [[a0 r0]|e]; [|discriminate].
  intros [= <- <- <-]. split; reflexivity.
Qed.

Lemma checkRequestID_ok requestID isClient r v u r1 v1 :
  checkRequestID requestID isClient r v = (Ok (u, r1), v1) -> r1 = r /\ v1 = v.
Proof.
  unfold checkRequestID. destruct (validateRequestID requestID isClient v); [discriminate|].
  intros [= _ <- <-]. split; reflexivity.
Qed.

Ltac stored_shape :=
  repeat first
    [ apply stores_failM
    | apply stores_modify
    | apply stores_bindM;
      [ intros; kept_with ltac:(apply tables_parametersTail) | intro ]
    | match goal with
      | |- stores _ _ (if ?c then _ else _) => destruct c
      end ].

(** An accepted SUBSCRIBE has stored the subscription under the request ID
    it starts with, with the track alias that follows. *)
Lemma validateSubscribe_stores r v result r' v' :
  validateSubscribe r v = (Ok (result, r'), v') ->
  exists requestID trackAlias r1 r2,
    decode r = Ok (requestID, r1) /\ decode r1 = Ok (trackAlias, r2)
    /\ stored requestID trackAlias v v'.
Proof.
  unfold validateSubscribe. intros H.
  apply bindM_ok in H as (requestID & r1 & v1 & H1 & H).
  apply liftP_ok in H1 as [H1 ->]. cbv zeta in H.
  apply bindM_ok in H as (u & r1' & v1' & Hc & H).
  apply checkRequestID_ok in Hc as [-> ->].
  apply bindM_ok in H as (trackAlias & r2 & v2 & H2 & H).
  apply liftP_ok in H2 as [H2 ->].
  exists requestID, trackAlias, r1, r2. split; [exact H1|]. split; [exact H2|].
  revert H.
  match goal with
  | |- ?m r2 v = _ -> _ => assert (Hst : stores requestID trackAlias m)
  end.
  { cbv zeta. stored_shape. }
  apply Hst.
Qed.

Lemma ValidateMessage_subscribe (data : list byte) (v : MoQTValidator)
  (msgLength : Z) (payload rest : list byte) :
  controlFrame data = Ok (Subscribe, msgLength, payload, rest) ->
  ValidateMessage data true v
  = match validateSubscribe payload v with
    | (Ok (details, _), v') =>
        (Ok (mergeInto details
               [("type"%string, VString (getMessageTypeName Subscribe));
                ("type_value"%string, VUint Subscribe);
                ("length"%string, VUint msgLength)]), v')
    | (Err e, v') => (Err e, v')
    end.
Proof.
  intros Hframe. unfold ValidateMessage.
  destruct (len data =? 0) eqn:E.
  { apply Z.eqb_eq in E. destruct data; [discriminate Hframe|].
    unfold len in E. cbn [length] in E. lia. }
  unfold validateControlMessage, bindM, liftP. rewrite Hframe.
  change (payloadValidator Subscribe) with (Some validateSubscribe).
  unfold onBuffer, retM.
  destruct (validateSubscribe payload v) as [[[details r']|e] v']; reflexivity.
Qed.

(** C2, as the code has it: the outcome of validating a SUBSCRIBE does not
    depend on the live subscriptions or on the track-alias table (two
    validators that differ only there give the same result), and an accepted
    SUBSCRIBE is stored under its request ID with the track alias it carries,
    over whatever was stored there, with no other change to the live
    subscriptions: a track alias already in use by a live subscription is
    neither detected nor refused. *)
Theorem subscribe_alias_not_checked (data : list byte) (v : MoQTValidator)
  (msgLength : Z) (payload rest : list byte) :
  controlFrame data = Ok (Subscribe, msgLength, payload, rest) ->
  (forall v2, sameSession v v2 ->
              fst (ValidateMessage data true v2) = fst (ValidateMessage data true v))
  /\ (forall result v',
         ValidateMessage data true v = (Ok result, v') ->
         exists requestID trackAlias r1 r2,
           decode payload = Ok (requestID, r1)
           /\ decode r1 = Ok (trackAlias, r2)
           /\ stored requestID trackAlias v v').
Proof.
  intros Hframe. split.
  - intros v2 Hsame.
    rewrite !(ValidateMessage_subscribe data _ msgLength payload rest Hframe).
    destruct (blind_validateSubscribe payload v v2 Hsame) as [Hf _].
    destruct (validateSubscribe payload v) as [[[d1 r1]|e1] v1'],
             (validateSubscribe payload v2) as [[[d2 r2]|e2] v2'];
      cbn [fst] in *; try discriminate.
    + injection Hf as <- <-. reflexivity.
    + injection Hf as <-. reflexivity.
  - intros result v'.
    rewrite (ValidateMessage_subscribe data _ msgLength payload rest Hframe).
    destruct (validateSubscribe payload v) as [[[details r']|e] v1] eqn:E; [|discriminate].
    intros [= _ <-]. eapply validateSubscribe_stores, E.
Qed.

Lemma subscribe_alias_not_checked_witness :
  (forall v2, sameSession NewMoQTValidator v2 ->
              fst (ValidateMessage (subscribeExample 0) true v2)
              = fst (ValidateMessage (subscribeExample 0) true NewMoQTValidator))
  /\ (forall result v',
         ValidateMessage (subscribeExample 0) true NewMoQTValidator = (Ok result, v') ->
         exists requestID trackAlias r1 r2,
           decode (bytes_of [0; 10; 1; 4; 108; 105; 118; 101; 3; 99; 97; 109;
                             128; 1; 1; 2; 0]) = Ok (requestID, r1)
           /\ decode r1 = Ok (trackAlias, r2)
           /\ stored requestID trackAlias NewMoQTValidator v').
Proof.
  apply (subscribe_alias_not_checked (subscribeExample 0) NewMoQTValidator 17
           (bytes_of [0; 10; 1; 4; 108; 105; 118; 101; 3; 99; 97; 109;
                      128; 1; 1; 2; 0]) []).
  vm_compute. reflexivity.
Defined.

(** *** Scenarios *)

(** SUBSCRIBE with an absolute range, request ID 2, track alias 10. *)
Example subscribe_absolute_range :
  let out := ValidateMessage (subscribeRange 7) true scenarioValidator in
  is_ok (fst out) = true
  /\ (match fst out with
      | Ok result => mget "group_order" result
      | Err _ => None
      end) = Some (VString "ASCENDING")
  /\ (fun info => (track_alias info, filter_type info))
       <$> (activeSubscriptions (snd out) !! 2) = Some (10, AbsoluteRange).
Proof. vm_compute. repeat split. Qed.

(** The same with end group 4 below start group 5. *)
Example subscribe_inverted_range :
  ValidateMessage (subscribeRange 4) true scenarioValidator
  = (Err ErrValidation, scenarioValidator).
Proof. vm_compute. reflexivity. Qed.

(** Header type 0x0A, three objects 5, 6, 7. *)
Example subgroup_three_objects :
  match validateDataStream
          (bytes_of [0x0A; 1; 0x40; 100; 0; 5; 3; 97; 98; 99; 6; 0; 0; 7; 0; 3]) with
  | Ok result =>
      mget "subgroup_id" result = Some (VUint 5)
      /\ mget "object_count" result = Some (VUint 3)
  | Err _ => False
  end.
Proof. vm_compute. split; reflexivity. Qed.


(** REGISTER, then USE_ALIAS of the alias, then USE_ALIAS of another. *)
Example register_then_use :
  let announce token := encControl Announce (bytes_of [0; 1; 1; 97; 1; 1] ++ token) in
  let v1 := snd (ValidateMessage announceRegisterExample true scenarioValidator) in
  currentAuthTokenSize v1 = 12
  /\ is_ok (fst (ValidateMessage (announce (bytes_of [2; 2; 3])) true v1)) = true
  /\ fst (ValidateMessage (announce (bytes_of [2; 2; 4])) true v1)
     = Err ErrProtocolViolation.
Proof. vm_compute. repeat split. Qed.

(** ** Further properties of the code *)

(** *** VarInt *)

Lemma land_ones_bound (x n : Z) : 0 <= n -> 0 <= Z.land x (Z.ones n) < 2 ^ n.
Proof. intros Hn. rewrite Z.land_ones by lia. apply Z.mod_pos_bound. lia. Qed.

(** A successful [Decode] read exactly the bytes the first byte announces,
    and reads the same value from them whatever follows. *)
Lemma Decode_shape (r r' : list byte) (v n : Z) :
  VarInt.Decode r = (v, n, None, r') ->
  exists b p, r = (b :: p) ++ r' /\ n = varintLength b /\ len (b :: p) = n
              /\ 0 <= v < 2 ^ 62
              /\ forall r2, VarInt.Decode ((b :: p) ++ r2) = (v, n, None, r2).
Proof.
  unfold VarInt.Decode.
  destruct (ReadFull 1 r) as [[fb|e] r1] eqn:E1; [|discriminate].
  apply ReadFull_inv in E1 as [-> Hl]. specialize (Hl ltac:(lia)).
  destruct fb as [|b [|b' fb]];
    [unfold len in Hl; cbn [length] in Hl; lia| |unfold len in Hl; cbn [length] in Hl; lia].
  cbn [app]. clear Hl. pose proof (u8_range b) as Hb.
  destruct (Z.shiftr (u8 b) 6 =? 0) eqn:P0.
  { intros [= <- <- <-]. exists b, []. split; [reflexivity|].
    split; [unfold varintLength; rewrite P0; reflexivity|].
    split; [reflexivity|]. split.
    - apply Z.eqb_eq in P0. rewrite Z.shiftr_div_pow2 in P0 by lia.
      Z.div_mod_to_equations. lia.
    - intros r2. cbn [app]. rewrite ReadFull_1, P0. reflexivity. }
  destruct (Z.shiftr (u8 b) 6 =? 1) eqn:P1.
  { destruct (ReadFull 1 r1) as [[buf|e] r2] eqn:E2; [|discriminate].
    apply ReadFull_inv in E2 as [-> Hl]. specialize (Hl ltac:(lia)).
    intros [= <- <- <-]. exists b, buf. split; [reflexivity|].
    split; [unfold varintLength; rewrite P0, P1; reflexivity|].
    split; [unfold len in *; cbn [length]; lia|]. split.
    - change 0x3FFF with (Z.ones 14). match goal with |- 0 <= Z.land ?x _ < _ => pose proof (land_ones_bound x 14) end. lia.
    - intros r3. cbn [app]. rewrite ReadFull_1, P0, P1.
      rewrite <- Hl at 1. rewrite ReadFull_app. reflexivity. }
  destruct (Z.shiftr (u8 b) 6 =? 2) eqn:P2.
  { destruct (ReadFull 3 r1) as [[buf|e] r2] eqn:E2; [|discriminate].
    apply ReadFull_inv in E2 as [-> Hl]. specialize (Hl ltac:(lia)).
    intros [= <- <- <-]. exists b, buf. split; [reflexivity|].
    split; [unfold varintLength; rewrite P0, P1, P2; reflexivity|].
    split; [unfold len in *; cbn [length]; lia|]. split.
    - change 0x3FFFFFFF with (Z.ones 30).
      match goal with |- 0 <= Z.land ?x _ < _ => pose proof (land_ones_bound x 30) end. lia.
    - intros r3. cbn [app]. rewrite ReadFull_1, P0, P1, P2.
      rewrite <- Hl at 1. rewrite ReadFull_app. reflexivity. }
  destruct (ReadFull 7 r1) as [[buf|e] r2] eqn:E2; [|discriminate].
  apply ReadFull_inv in E2 as [-> Hl]. specialize (Hl ltac:(lia)).
  intros [= <- <- <-]. exists b, buf. split; [reflexivity|].
    split; [unfold varintLength; rewrite P0, P1, P2; reflexivity|].
  split; [unfold len in *; cbn [length]; lia|]. split.
  - change 0x3FFFFFFFFFFFFFFF with (Z.ones 62).
    match goal with |- 0 <= Z.land ?x _ < _ => pose proof (land_ones_bound x 62) end. lia.
  - intros r3. cbn [app]. rewrite ReadFull_1, P0, P1, P2.
    rewrite <- Hl at 1. rewrite ReadFull_app. reflexivity.
Qed.

Lemma varintLength_cases (b : byte) :
  varintLength b = 1 \/ varintLength b = 2 \/ varintLength b = 4 \/ varintLength b = 8.
Proof.
  unfold varintLength.
  destruct (_ =? 0); [auto|]. destruct (_ =? 1); [auto|]. destruct (_ =? 2); auto.
Qed.

(** A reader that ends before the announced length makes [Decode] fail. *)
Lemma Decode_short (b : byte) (r : list byte) :
  1 + len r < varintLength b ->
  VarInt.Decode (b :: r)
  = (0, 1, Some (if len r =? 0 then EOF else ErrUnexpectedEOF), []).
Proof.
  intros Hshort. pose proof (len_nonneg r) as Hr.
  unfold VarInt.Decode. rewrite ReadFull_1.
  unfold varintLength in Hshort. cbv zeta in Hshort.
  assert (Hread : forall n, 1 + len r < n + 1 ->
            ReadFull n r = (Err (if len r =? 0 then EOF else ErrUnexpectedEOF), [])).
  { intros n Hn. unfold ReadFull.
    destruct (n =? 0) eqn:E0; [apply Z.eqb_eq in E0; lia|].
    destruct (len r =? 0) eqn:E1.
    - apply Z.eqb_eq in E1. destruct r; [reflexivity|].
      unfold len in E1. cbn [length] in E1. lia.
    - destruct (len r <? n) eqn:E2; [reflexivity|]. apply Z.ltb_ge in E2. lia. }
  destruct (Z.shiftr (u8 b) 6 =? 0); [lia|].
  destruct (Z.shiftr (u8 b) 6 =? 1); [rewrite Hread by lia; reflexivity|].
  destruct (Z.shiftr (u8 b) 6 =? 2); rewrite Hread by lia; reflexivity.
Qed.

(** X1: whatever bytes it is given, a successful [Decode] returns a value
    below 2^62 and a count of 1, 2, 4 or 8 which is the count the first byte
    announces and the number of bytes taken from the reader; the bytes after
    them are left in the reader untouched. *)
Theorem Decode_reads_announced_length (r r' : list byte) (v n : Z) :
  VarInt.Decode r = (v, n, None, r') ->
  0 <= v < 2 ^ 62
  /\ (n = 1 \/ n = 2 \/ n = 4 \/ n = 8)
  /\ exists b p, r = (b :: p) ++ r' /\ len (b :: p) = n /\ n = varintLength b.
Proof.
  intros H. apply Decode_shape in H as (b & p & -> & Hn & Hl & Hv & _).
  split; [exact Hv|]. split.
  - subst n. apply varintLength_cases.
  - exists b, p. repeat split; assumption.
Qed.

Lemma Decode_reads_announced_length_witness :
  0 <= 300 < 2 ^ 62
  /\ (2 = 1 \/ 2 = 2 \/ 2 = 4 \/ 2 = 8)
  /\ exists b p, bytes_of [0x41; 0x2C; 0x07] = (b :: p) ++ bytes_of [0x07]
                 /\ len (b :: p) = 2 /\ 2 = varintLength b.
Proof.
  apply (Decode_reads_announced_length (bytes_of [0x41; 0x2C; 0x07]) (bytes_of [0x07]) 300 2).
  vm_compute. reflexivity.
Defined.

(** X2: [Decode] succeeds exactly when the reader holds as many bytes as its
    first byte announces.  With fewer it fails after one byte, with [EOF]
    when nothing follows the first byte and [ErrUnexpectedEOF] otherwise,
    and on an empty reader it fails with [EOF] after no byte. *)
Theorem Decode_succeeds_iff_complete (b : byte) (r : list byte) :
  VarInt.Decode [] = (0, 0, Some EOF, [])
  /\ (varintLength b <= 1 + len r ->
      exists v,
        VarInt.Decode (b :: r)
        = (v, varintLength b, None, drop (Z.to_nat (varintLength b - 1)) r))
  /\ (1 + len r < varintLength b ->
      VarInt.Decode (b :: r)
      = (0, 1, Some (if len r =? 0 then EOF else ErrUnexpectedEOF), [])).
Proof.
  split; [reflexivity|]. split; [|apply Decode_short].
  intros Hlen. pose proof (len_nonneg r) as Hr.
  unfold VarInt.Decode. rewrite ReadFull_1. unfold varintLength in *. cbv zeta in *.
  assert (Hread : forall n, 0 < n -> n <= len r ->
            ReadFull n r = (Ok (take (Z.to_nat n) r), drop (Z.to_nat n) r)).
  { intros n Hn Hle. unfold ReadFull.
    destruct (n =? 0) eqn:E0; [apply Z.eqb_eq in E0; lia|].
    destruct (len r =? 0) eqn:E1; [apply Z.eqb_eq in E1; lia|].
    destruct (len r <? n) eqn:E2; [apply Z.ltb_lt in E2; lia|]. reflexivity. }
  destruct (Z.shiftr (u8 b) 6 =? 0); [eexists; reflexivity|].
  destruct (Z.shiftr (u8 b) 6 =? 1); [rewrite Hread by lia; eexists; reflexivity|].
  destruct (Z.shiftr (u8 b) 6 =? 2); rewrite Hread by lia; eexists; reflexivity.
Qed.

Lemma Decode_succeeds_iff_complete_witness :
  VarInt.Decode [] = (0, 0, Some EOF, [])
  /\ (exists v, VarInt.Decode (x80 :: bytes_of [1; 2; 3; 4])
                = (v, varintLength x80, None,
                   drop (Z.to_nat (varintLength x80 - 1)) (bytes_of [1; 2; 3; 4])))
  /\ VarInt.Decode (x80 :: bytes_of [1; 2])
     = (0, 1, Some (if len (bytes_of [1; 2]) =? 0 then EOF else ErrUnexpectedEOF), []).
Proof.
  split; [apply (Decode_succeeds_iff_complete x80 [])|]. split.
  - apply (Decode_succeeds_iff_complete x80 (bytes_of [1; 2; 3; 4])).
    vm_compute. discriminate.
  - apply (Decode_succeeds_iff_complete x80 (bytes_of [1; 2])).
    vm_compute. reflexivity.
Defined.

Lemma len_enc_class (v : Z) :
  0 <= v < 2 ^ 62 ->
  len (enc v)
  = (if v <? 0x40 then 1 else if v <? 0x4000 then 2
     else if v <? 0x40000000 then 4 else 8).
Proof.
  intros Hv. unfold enc, VarInt.Encode.
  destruct (v <? 0x40); [reflexivity|].
  destruct (v <? 0x4000); [reflexivity|].
  destruct (v <? 0x40000000); [reflexivity|].
  destruct (v <? 0x4000000000000000) eqn:E; [reflexivity|].
  apply Z.ltb_ge in E. lia.
Qed.

(** X3: an encoding is self-delimiting and as short as its value allows:
    [Decode] reads the value back from the encoding followed by any bytes,
    leaves those bytes in the reader, and reports the length of the
    encoding, which is 1, 2, 4 or 8 for values below 2^6, 2^14, 2^30 and
    2^62; two values with the same encoding are equal. *)
Theorem encoding_self_delimiting (v w : Z) (rest : list byte) :
  0 <= v < 2 ^ 62 -> 0 <= w < 2 ^ 62 ->
  VarInt.Decode (enc v ++ rest) = (v, len (enc v), None, rest)
  /\ len (enc v)
     = (if v <? 0x40 then 1 else if v <? 0x4000 then 2
        else if v <? 0x40000000 then 4 else 8)
  /\ (enc v = enc w -> v = w).
Proof.
  intros Hv Hw.
  assert (Hd : forall x r, 0 <= x < 2 ^ 62 ->
                           VarInt.Decode (enc x ++ r) = (x, len (enc x), None, r)).
  { intros x r Hx. apply Decode_Encode; [lia|apply Encode_enc; lia]. }
  split; [apply Hd, Hv|]. split; [apply len_enc_class, Hv|].
  intros Heq. pose proof (Hd v [] Hv) as H1. pose proof (Hd w [] Hw) as H2.
  rewrite Heq in H1. rewrite H1 in H2. congruence.
Qed.

Lemma encoding_self_delimiting_witness :
  VarInt.Decode (enc 16384 ++ bytes_of [7]) = (16384, len (enc 16384), None, bytes_of [7])
  /\ len (enc 16384)
     = (if 16384 <? 0x40 then 1 else if 16384 <? 0x4000 then 2
        else if 16384 <? 0x40000000 then 4 else 8)
  /\ 16384 = 16384.
Proof.
  destruct (encoding_self_delimiting 16384 16384 (bytes_of [7])) as (H1 & H2 & H3);
    [lia | lia |].
  split; [exact H1|]. split; [exact H2|]. apply H3. reflexivity.
Defined.

(** *** Locations *)

(** X4: [Less] is a strict total order on locations: no location is below
    itself, the order is transitive, and of two different locations exactly
    one is below the other. *)
Theorem Less_strict_total_order (a b c : Location) :
  Less a a = false
  /\ (Less a b = true -> Less b c = true -> Less a c = true)
  /\ (Less a b = true -> Less b a = false)
  /\ (a <> b -> Less a b = true \/ Less b a = true).
Proof.
  destruct a as [ag ao], b as [bg bo], c as [cg co]. unfold Less. cbn [GroupID ObjectID].
  repeat split.
  - destruct (ag <? ag) eqn:E; [apply Z.ltb_lt in E; lia|].
    rewrite Z.eqb_refl. apply Z.ltb_irrefl.
  - destruct (ag <? bg) eqn:E1, (ag =? bg) eqn:E2, (bg <? cg) eqn:E3, (bg =? cg) eqn:E4,
             (ag <? cg) eqn:E5, (ag =? cg) eqn:E6; try discriminate; try reflexivity;
      rewrite ?Z.ltb_lt, ?Z.ltb_ge, ?Z.eqb_eq, ?Z.eqb_neq in *; try lia.
  - destruct (ag <? bg) eqn:E1, (ag =? bg) eqn:E2, (bg <? ag) eqn:E3, (bg =? ag) eqn:E4;
      try discriminate; try reflexivity;
      rewrite ?Z.ltb_lt, ?Z.ltb_ge, ?Z.eqb_eq, ?Z.eqb_neq in *; try lia.
  - intros Hne.
    destruct (ag <? bg) eqn:E1, (ag =? bg) eqn:E2, (bg <? ag) eqn:E3, (bg =? ag) eqn:E4;
      rewrite ?Z.ltb_lt, ?Z.ltb_ge, ?Z.eqb_eq, ?Z.eqb_neq in *; try lia; auto.
    subst bg. destruct (Z.lt_trichotomy ao bo) as [H|[H|H]]; [left; lia| |right; lia].
    subst bo. contradiction.
Qed.

Lemma Less_strict_total_order_witness :
  let a := {| GroupID := 1; ObjectID := 9 |} in
  let b := {| GroupID := 2; ObjectID := 0 |} in
  let c := {| GroupID := 2; ObjectID := 5 |} in
  Less a a = false /\ Less a c = true /\ Less b a = false
  /\ (Less a b = true \/ Less b a = true).
Proof.
  destruct (Less_strict_total_order {| GroupID := 1; ObjectID := 9 |}
              {| GroupID := 2; ObjectID := 0 |} {| GroupID := 2; ObjectID := 5 |})
    as (H1 & H2 & H3 & H4).
  split; [exact H1|]. split; [apply H2; reflexivity|].
  split; [apply H3; reflexivity|]. apply H4. discriminate.
Defined.

(** *** Control-message framing, continued *)

Lemma ReadFull_app_len (n : Z) (bs r : list byte) :
  len bs = n -> ReadFull n (bs ++ r) = (Ok bs, r).
Proof. intros <-. apply ReadFull_app. Qed.

(** What an accepted frame is made of. *)
Lemma controlFrame_inv (data : list byte) (msgType msgLength : Z)
  (payload rest : list byte) :
  controlFrame data = Ok (msgType, msgLength, payload, rest) ->
  exists b p lengthBytes,
    data = (b :: p) ++ lengthBytes ++ payload ++ rest
    /\ len (b :: p) = varintLength b
    /\ (forall r2, VarInt.Decode ((b :: p) ++ r2) = (msgType, varintLength b, None, r2))
    /\ isValidMessageType msgType = true
    /\ len lengthBytes = 2
    /\ msgLength = BigEndian.Uint16 lengthBytes
    /\ len payload = msgLength.
Proof.
  unfold controlFrame.
  destruct (VarInt.Decode data) as [[[t n0] [e|]] r1] eqn:ED; [discriminate|].
  destruct (isValidMessageType t) eqn:Hvalid; [|discriminate]. cbn [negb].
  destruct (ReadFull 2 r1) as [[lb|e] r2] eqn:EL; [|discriminate].
  destruct (ReadFull (BigEndian.Uint16 lb) r2) as [[pl|e] r3] eqn:EP; [|discriminate].
  intros [= <- <- <- <-].
  apply Decode_shape in ED as (b & p & -> & -> & Hlen & _ & Hdec).
  apply ReadFull_inv in EL as [-> Hlb]. specialize (Hlb ltac:(lia)).
  pose proof (Uint16_bound lb) as Hb.
  apply ReadFull_inv in EP as [-> Hpl]. specialize (Hpl ltac:(lia)).
  exists b, p, lb. repeat split; try assumption; reflexivity.
Qed.

Lemma ValidateMessage_control (data : list byte) (v : MoQTValidator) :
  data <> [] ->
  ValidateMessage data true v
  = match validateControlMessage data v with
    | (Ok (result, _), v') => (Ok result, v')
    | (Err e, v') => (Err e, v')
    end.
Proof.
  intros Hne. unfold ValidateMessage.
  destruct (len data =? 0) eqn:E; [|reflexivity].
  apply Z.eqb_eq in E. destruct data; [contradiction|].
  unfold len in E. cbn [length] in E. lia.
Qed.

Lemma validateControlMessage_frame (data : list byte) (v : MoQTValidator) :
  validateControlMessage data v
  = match controlFrame data with
    | Err e => (Err e, v)
    | Ok (msgType, msgLength, payload, r) =>
        let result := [("type"%string, VString (getMessageTypeName msgType));
                       ("type_value"%string, VUint msgType);
                       ("length"%string, VUint msgLength)] in
        match payloadValidator msgType with
        | Some validate =>
            match validate payload v with
            | (Ok (details, _), v') => (Ok (mergeInto details result, r), v')
            | (Err e, v') => (Err e, v')
            end
        | None => (Ok (mset "raw_payload" (VHex payload) result, r), v)
        end
    end.
Proof.
  unfold validateControlMessage, bindM, liftP.
  destruct (controlFrame data) as [[[[t n] payload] r]|e]; [|reflexivity].
  cbv zeta. destruct (payloadValidator t) as [validate|]; [|reflexivity].
  unfold onBuffer, retM.
  destruct (validate payload v) as [[[details r']|e] v']; reflexivity.
Qed.

(** X5: bytes that follow a control message in the buffer are ignored: the
    frame read from the longer buffer is the same, and so are the result
    and the validator afterwards. *)
Theorem bytes_after_frame_ignored (data extra : list byte) (v : MoQTValidator)
  (msgType msgLength : Z) (payload rest : list byte) :
  controlFrame data = Ok (msgType, msgLength, payload, rest) ->
  controlFrame (data ++ extra) = Ok (msgType, msgLength, payload, rest ++ extra)
  /\ ValidateMessage (data ++ extra) true v = ValidateMessage data true v.
Proof.
  intros Hframe.
  assert (Hlong : controlFrame (data ++ extra)
                  = Ok (msgType, msgLength, payload, rest ++ extra)).
  { apply controlFrame_inv in Hframe
      as (b & p & lb & -> & _ & Hdec & Hvalid & Hlb & -> & Hpl).
    rewrite <- !app_assoc. unfold controlFrame. rewrite Hdec, Hvalid. cbn [negb].
    rewrite (ReadFull_app_len 2 lb) by exact Hlb.
    rewrite (ReadFull_app_len _ payload) by exact Hpl. reflexivity. }
  split; [exact Hlong|].
  assert (Hne : data <> []) by (intros ->; discriminate Hframe).
  rewrite !ValidateMessage_control;
    [|exact Hne|destruct data; [contradiction|discriminate]].
  rewrite !validateControlMessage_frame, Hlong, Hframe. cbv zeta.
  destruct (payloadValidator msgType) as [validate|]; [|reflexivity].
  destruct (validate payload v) as [[[details r']|e] v']; reflexivity.
Qed.

Lemma bytes_after_frame_ignored_witness :
  controlFrame (encMaxRequestID 10 ++ bytes_of [1; 2; 3])
  = Ok (MaxRequestID, 1, bytes_of [10], [] ++ bytes_of [1; 2; 3])
  /\ ValidateMessage (encMaxRequestID 10 ++ bytes_of [1; 2; 3]) true NewMoQTValidator
     = ValidateMessage (encMaxRequestID 10) true NewMoQTValidator.
Proof.
  apply (bytes_after_frame_ignored (encMaxRequestID 10) (bytes_of [1; 2; 3])
           NewMoQTValidator MaxRequestID 1 (bytes_of [10]) []).
  vm_compute. reflexivity.
Defined.

Lemma ValidateMessage_frame_error (data : list byte) (v : MoQTValidator) (e : Error) :
  data <> [] -> controlFrame data = Err e ->
  ValidateMessage data true v = (Err e, v).
Proof.
  intros Hne Hframe. rewrite ValidateMessage_control by exact Hne.
  rewrite validateControlMessage_frame, Hframe. reflexivity.
Qed.

(** X6: a control message whose frame covers the whole buffer is refused
    with [ErrValidation] when it is cut anywhere: every proper prefix of the
    buffer, the empty one included, fails with [ErrValidation] and leaves the
    validator as it was. *)
Theorem every_prefix_of_frame_rejected (data prefix cut : list byte)
  (v : MoQTValidator) (msgType msgLength : Z) (payload : list byte) :
  controlFrame data = Ok (msgType, msgLength, payload, []) ->
  data = prefix ++ cut -> cut <> [] ->
  ValidateMessage prefix true v = (Err ErrValidation, v).
Proof.
  intros Hframe Hsplit Hcut.
  apply controlFrame_inv in Hframe
    as (b & p & lb & Hdata & Hvl & Hdec & Hvalid & Hlb & -> & Hpl).
  rewrite app_nil_r in Hdata. rewrite Hdata in Hsplit. clear Hdata.
  destruct prefix as [|q0 prefix]; [reflexivity|].
  apply ValidateMessage_frame_error; [discriminate|].
  symmetry in Hsplit. apply app_eq_app in Hsplit as [l [[Hpre Hrest]|[Htp _]]].
  - (* the cut is after the type *)
    rewrite Hpre. unfold controlFrame. rewrite Hdec, Hvalid. cbn [negb].
    apply app_eq_app in Hrest as [l2 [[Hlb' Hcut']|[Hl Hpay]]].
    + destruct l2 as [|x l2].
      * rewrite app_nil_r in Hlb'. cbn [app] in Hcut'. subst l cut.
        rewrite <- (app_nil_r lb). rewrite (ReadFull_app_len 2 lb) by exact Hlb.
        destruct (ReadFull_short (BigEndian.Uint16 lb) []) as (e & r' & ->);
          [|reflexivity].
        rewrite <- Hpl. destruct payload; [contradiction|].
        unfold len. cbn [length]. lia.
      * destruct (ReadFull_short 2 l) as (e & r' & ->); [|reflexivity].
        rewrite <- Hlb, Hlb'. rewrite len_app. unfold len. cbn [length]. lia.
    + rewrite Hl. rewrite (ReadFull_app_len 2 lb) by exact Hlb.
      destruct (ReadFull_short (BigEndian.Uint16 lb) l2) as (e & r' & ->);
        [|reflexivity].
      rewrite <- Hpl, Hpay, len_app. destruct cut; [contradiction|].
      unfold len. cbn [length]. lia.
  - (* the cut is inside the varint of the type, or right after it *)
    destruct l as [|l0 l].
    + rewrite app_nil_r in Htp. rewrite <- Htp. rewrite <- (app_nil_r (b :: p)).
      unfold controlFrame. rewrite Hdec, Hvalid. reflexivity.
    + cbn [app] in Htp. injection Htp as <- Hp.
      unfold controlFrame. rewrite Decode_short; [reflexivity|].
      rewrite <- Hvl. subst p. unfold len. cbn [length]. rewrite length_app.
      cbn [length]. lia.
Qed.

Lemma every_prefix_of_frame_rejected_witness :
  ValidateMessage (bytes_of [0x15; 0x00]) true NewMoQTValidator
  = (Err ErrValidation, NewMoQTValidator).
Proof.
  apply (every_prefix_of_frame_rejected (encMaxRequestID 10) (bytes_of [0x15; 0x00])
           (bytes_of [0x01; 10]) NewMoQTValidator MaxRequestID 1 (bytes_of [10])).
  - vm_compute. reflexivity.
  - vm_compute. reflexivity.
  - discriminate.
Defined.

(** X7: a buffer that starts with a varint which is not one of the 26
    message types is refused with [ErrProtocolViolation], before its length
    is read and whatever follows, and the validator is left as it was. *)
Theorem unknown_message_type_rejected (data r' : list byte) (v : MoQTValidator)
  (msgType n : Z) :
  VarInt.Decode data = (msgType, n, None, r') ->
  ~ In msgType validTypes ->
  ValidateMessage data true v = (Err ErrProtocolViolation, v).
Proof.
  intros Hdec Hunknown.
  apply ValidateMessage_frame_error; [intros ->; discriminate Hdec|].
  unfold controlFrame. rewrite Hdec.
  destruct (isValidMessageType msgType) eqn:E; [|reflexivity].
  exfalso. apply Hunknown. unfold isValidMessageType in E.
  apply existsb_exists in E as (x & Hin & Heq). apply Z.eqb_eq in Heq. subst x. exact Hin.
Qed.

Lemma unknown_message_type_rejected_witness :
  ValidateMessage (bytes_of [0x01; 0x00; 0x00]) true NewMoQTValidator
  = (Err ErrProtocolViolation, NewMoQTValidator).
Proof.
  apply (unknown_message_type_rejected (bytes_of [0x01; 0x00; 0x00])
           (bytes_of [0x00; 0x00]) NewMoQTValidator 1 1).
  - reflexivity.
  - vm_compute. intros H.
    repeat (destruct H as [H|H]; [discriminate H|]). exact H.
Defined.

Lemma opaqueTypes_default (msgType : Z) :
  In msgType opaqueTypes ->
  isValidMessageType msgType = true /\ payloadValidator msgType = None.
Proof.
  intros H. unfold opaqueTypes in H. cbn [In] in H.
  repeat (destruct H as [<-|H]; [split; reflexivity|]). contradiction.
Qed.

(** X8: the 17 message types without a case in the dispatch (UNSUBSCRIBE,
    SUBSCRIBE_DONE, FETCH_CANCEL, ANNOUNCE_OK and the others) are accepted
    with any payload, which is returned as it is under [raw_payload], and
    leave the validator as it was: they end no subscription and no fetch. *)
Theorem opaque_message_accepted (data : list byte) (v : MoQTValidator)
  (msgType msgLength : Z) (payload rest : list byte) :
  In msgType opaqueTypes ->
  controlFrame data = Ok (msgType, msgLength, payload, rest) ->
  ValidateMessage data true v
  = (Ok [("type"%string, VString (getMessageTypeName msgType));
         ("type_value"%string, VUint msgType);
         ("length"%string, VUint msgLength);
         ("raw_payload"%string, VHex payload)], v).
Proof.
  intros Hin Hframe. destruct (opaqueTypes_default msgType Hin) as [_ Hnone].
  rewrite ValidateMessage_control by (intros ->; discriminate Hframe).
  rewrite validateControlMessage_frame, Hframe. cbv zeta. rewrite Hnone. reflexivity.
Qed.

Lemma opaque_message_accepted_witness :
  ValidateMessage (encControl Unsubscribe (bytes_of [0; 9; 9])) true
    (snd (ValidateMessage (subscribeExample 0) true NewMoQTValidator))
  = (Ok [("type"%string, VString (getMessageTypeName Unsubscribe));
         ("type_value"%string, VUint Unsubscribe);
         ("length"%string, VUint 3);
         ("raw_payload"%string, VHex (bytes_of [0; 9; 9]))],
     snd (ValidateMessage (subscribeExample 0) true NewMoQTValidator)).
Proof.
  apply (opaque_message_accepted (encControl Unsubscribe (bytes_of [0; 9; 9]))
           _ Unsubscribe 3 (bytes_of [0; 9; 9]) []).
  - vm_compute. auto 20.
  - vm_compute. reflexivity.
Defined.

(** X9: a message of one of the nine parsed types with an empty payload
    fails with the [io.EOF] of the first [Decode], returned as it is: an
    error that wraps neither [ErrValidation] nor [ErrProtocolViolation].
    The validator is left as it was. *)
Theorem empty_payload_is_EOF (data : list byte) (v : MoQTValidator)
  (msgType : Z) (rest : list byte) :
  In msgType parsedTypes ->
  controlFrame data = Ok (msgType, 0, [], rest) ->
  ValidateMessage data true v = (Err EOF, v).
Proof.
  intros Hin Hframe.
  rewrite ValidateMessage_control by (intros ->; discriminate Hframe).
  rewrite validateControlMessage_frame, Hframe. cbv zeta.
  unfold parsedTypes in Hin. cbn [In] in Hin.
  repeat (destruct Hin as [<-|Hin]; [reflexivity|]). contradiction.
Qed.

Lemma empty_payload_is_EOF_witness :
  ValidateMessage (encControl Subscribe []) true NewMoQTValidator
  = (Err EOF, NewMoQTValidator).
Proof.
  apply (empty_payload_is_EOF (encControl Subscribe []) NewMoQTValidator Subscribe []).
  - vm_compute. auto.
  - vm_compute. reflexivity.
Defined.

(** *** What the messages write *)

Section Stable.

Variable I : MoQTValidator -> Prop.

(** [I] survives the three kinds of write the validators make. *)
Hypothesis I_tokens : forall m size v, I v -> I (set_tokens m size v).
Hypothesis I_subscribe :
  forall requestID info v,
    I v -> I (set_activeSubscriptions (<[requestID := info]> (activeSubscriptions v)) v).
Hypothesis I_fetch :
  forall requestID result v,
    I v -> I (set_activeFetches (<[requestID := result]> (activeFetches v)) v).

Lemma stable_registerToken (result : Record) (tokenValue : list byte) :
  preserves I (registerToken result tokenValue).
Proof.
  intros r v H. unfold registerToken.
  destruct (_ >? _); [exact H|].
  destruct (mget "token_alias" result) as [[]|]; try exact H.
  destruct (authTokens v !! z); [exact H|]. apply I_tokens, H.
Qed.

Lemma stable_tokenOperation (aliasType : Z) (result : Record) :
  preserves I (tokenOperation aliasType result).
Proof.
  intros r v H. unfold tokenOperation.
  destruct (aliasType =? AliasTypeDelete).
  - destruct (mget "token_alias" result) as [[]|]; try exact H.
    destruct (authTokens v !! z); [apply I_tokens, H|exact H].
  - destruct (aliasType =? AliasTypeUseAlias); [|exact H].
    destruct (mget "token_alias" result) as [[]|]; try exact H.
    destruct (authTokens v !! z); exact H.
Qed.

Ltac stable_with known :=
  repeat first
    [ known
    | apply preserves_retM
    | apply preserves_failM
    | apply preserves_liftP
    | apply preserves_checkRequestID
    | apply preserves_liftResult
    | apply stable_registerToken
    | apply stable_tokenOperation
    | apply preserves_bindM
    | match goal with
      | |- forall _, preserves _ _ => intro
      | |- preserves _ (if ?c then _ else _) => destruct c
      | |- preserves _ (match ?x with _ => _ end) => destruct x
      end ].

Lemma stable_authTokenBody : preserves I authTokenBody.
Proof. unfold authTokenBody. stable_with fail. Qed.

Lemma stable_authorizationToken (paramInfo : Record) (value : list byte) :
  preserves I (authorizationToken paramInfo value).
Proof.
  intros r v H. unfold authorizationToken, validateAuthToken.
  pose proof (stable_authTokenBody value v H) as H'.
  destruct (authTokenBody value v) as [[[d r1]|e] v1]; exact H'.
Qed.

Lemma stable_versionParameter (params : list Record) :
  preserves I (versionParameter params).
Proof. unfold versionParameter. stable_with ltac:(apply stable_authorizationToken). Qed.

Lemma stable_parametersTail (result : Record) : preserves I (parametersTail result).
Proof.
  unfold parametersTail.
  stable_with ltac:(apply preserves_forM; apply stable_versionParameter).
Qed.

Lemma stable_modify_subscriptions (requestID : Z) (info : SubscriptionInfo) :
  preserves I
    (modifyV (fun v =>
       set_activeSubscriptions (<[requestID := info]> (activeSubscriptions v)) v)).
Proof. intros r v H. apply I_subscribe, H. Qed.

Lemma stable_modify_fetches (requestID : Z) (result : Record) :
  preserves I
    (modifyV (fun v => set_activeFetches (<[requestID := result]> (activeFetches v)) v)).
Proof. intros r v H. apply I_fetch, H. Qed.

Lemma stable_validateSubscribe : preserves I validateSubscribe.
Proof.
  unfold validateSubscribe.
  stable_with ltac:(first [ apply stable_parametersTail
                          | apply stable_modify_subscriptions ]).
Qed.

Lemma stable_validateSubscribeOK : preserves I validateSubscribeOK.
Proof. unfold validateSubscribeOK. stable_with ltac:(apply stable_parametersTail). Qed.

Lemma stable_validateFetch : preserves I validateFetch.
Proof.
  unfold validateFetch.
  stable_with ltac:(first [ apply stable_parametersTail
                          | apply stable_modify_fetches ]).
Qed.

Lemma stable_validateAnnounce : preserves I validateAnnounce.
Proof. unfold validateAnnounce. stable_with ltac:(apply stable_parametersTail). Qed.

Lemma stable_validateTrackStatusRequest : preserves I validateTrackStatusRequest.
Proof.
  unfold validateTrackStatusRequest. stable_with ltac:(apply stable_parametersTail).
Qed.

Lemma stable_payloadValidator (msgType : Z) (validate : M Record) :
  payloadValidator msgType = Some validate -> preserves I validate.
Proof.
  unfold payloadValidator.
  repeat match goal with
         | |- (if ?c then _ else _) = _ -> _ => destruct c
         end;
    intros [= <-];
    auto using preserves_liftP, stable_validateSubscribe,
      stable_validateSubscribeOK, stable_validateFetch,
      stable_validateAnnounce, stable_validateTrackStatusRequest.
Qed.

Lemma stable_ValidateMessage (data : list byte) (isControlStream : bool)
  (v : MoQTValidator) :
  I v -> I (snd (ValidateMessage data isControlStream v)).
Proof.
  intros H. unfold ValidateMessage. destruct (len data =? 0); [exact H|].
  destruct isControlStream; [|exact H].
  rewrite validateControlMessage_frame.
  destruct (controlFrame data) as [[[[t n] payload] r]|e]; [|exact H]. cbv zeta.
  destruct (payloadValidator t) as [validate|] eqn:E; [|exact H].
  pose proof (stable_payloadValidator t validate E payload v H) as H'.
  destruct (validate payload v) as [[[details r']|e] v']; exact H'.
Qed.

Lemma stable_ValidateDatagram (data : list byte) (v : MoQTValidator) :
  I v -> I (snd (ValidateDatagram data v)).
Proof.
  intros H. unfold ValidateDatagram. destruct (len data =? 0); [exact H|].
  destruct (decode data) as [[datagramType r]|e]; [|exact H].
  destruct (negb (isValidDatagramType datagramType)); [exact H|].
  destruct (datagramBody datagramType r) as [[result r']|e]; exact H.
Qed.

Lemma stable_reachable (v0 v : MoQTValidator) : reachable v0 v -> I v0 -> I v.
Proof.
  induction 1 as [|v v' _ IH Hcall]; intros H; [exact H|].
  destruct Hcall; [apply stable_ValidateMessage|apply stable_ValidateDatagram];
    apply IH, H.
Qed.

End Stable.

(** X10: over a whole session, whatever is validated and whether it is
    accepted or not, the version, the two request-ID limits, the track-alias
    table and the token-cache limit stay what they were at the start: no
    message of any type writes them. *)
Theorem limits_never_change (v0 v : MoQTValidator) :
  reachable v0 v -> sameLimits v0 v.
Proof.
  intros Hreach.
  apply (fun Ht Hs Hf => stable_reachable (sameLimits v0) Ht Hs Hf v0 v Hreach).
  - intros m size v1 H. exact H.
  - intros requestID info v1 H. exact H.
  - intros requestID result v1 H. exact H.
  - repeat split.
Qed.

Lemma limits_never_change_witness :
  sameLimits (validatorWithCache 64)
    (snd (ValidateMessage announceRegisterExample true (validatorWithCache 64))).
Proof.
  apply limits_never_change.
  eapply reachable_call; [apply reachable_start | apply call_message].
Defined.

(** X11: a validator that starts as [NewMoQTValidator] accepts, at any
    point of its session, the client request ID 0 and no other, and no
    server request ID: its limits are 0 and stay 0. *)
Theorem new_validator_accepts_request_0_only (v : MoQTValidator) (requestID : Z) :
  reachable NewMoQTValidator v -> 0 <= requestID ->
  (validateRequestID requestID true v = None <-> requestID = 0)
  /\ validateRequestID requestID false v = Some ErrProtocolViolation.
Proof.
  intros Hreach Hid.
  assert (Hl : sameLimits NewMoQTValidator v).
  { apply (fun Ht Hs Hf => stable_reachable (sameLimits NewMoQTValidator) Ht Hs Hf
                               NewMoQTValidator v Hreach);
      try (intros; assumption). repeat split. }
  destruct Hl as (_ & Hc & Hs & _). cbn in Hc, Hs.
  unfold validateRequestID. rewrite Hc, Hs. split; [split|].
  - destruct (requestID mod 2 =? 0) eqn:E; cbn [negb]; [|discriminate].
    destruct (requestID >? 0) eqn:E2; [discriminate|]. intros _.
    rewrite Z.gtb_ltb in E2. apply Z.ltb_ge in E2. lia.
  - intros ->. reflexivity.
  - destruct (requestID mod 2 =? 1) eqn:E; cbn [negb]; [|reflexivity].
    destruct (requestID >? 0) eqn:E2; [reflexivity|].
    rewrite Z.gtb_ltb in E2. apply Z.ltb_ge in E2. apply Z.eqb_eq in E.
    assert (requestID = 0) as -> by lia. discriminate E.
Qed.

Lemma new_validator_accepts_request_0_only_witness :
  let v := snd (ValidateMessage (subscribeExample 0) true NewMoQTValidator) in
  (validateRequestID 2 true v = None <-> 2 = 0)
  /\ validateRequestID 2 false v = Some ErrProtocolViolation.
Proof.
  apply new_validator_accepts_request_0_only; [|lia].
  eapply reachable_call; [apply reachable_start | apply call_message].
Defined.

(** X12: over a whole session no live subscription and no live fetch is
    ever removed: a request ID that has an entry in [activeSubscriptions] or
    in [activeFetches] keeps one, whatever is validated afterwards. *)
Theorem requests_never_removed (v0 v : MoQTValidator) :
  reachable v0 v -> stillLive v0 v.
Proof.
  intros Hreach.
  apply (fun Ht Hs Hf => stable_reachable (stillLive v0) Ht Hs Hf v0 v Hreach).
  - intros m size v1 H. exact H.
  - intros requestID info v1 [Hs Hf]. split; [|exact Hf].
    cbn [set_activeSubscriptions activeSubscriptions]. rewrite dom_insert_L. set_solver.
  - intros requestID result v1 [Hs Hf]. split; [exact Hs|].
    cbn [set_activeFetches activeFetches]. rewrite dom_insert_L. set_solver.
  - split; reflexivity.
Qed.

Lemma requests_never_removed_witness :
  let v0 := snd (ValidateMessage (subscribeExample 0) true NewMoQTValidator) in
  stillLive v0 (snd (ValidateMessage (encControl Unsubscribe (bytes_of [0])) true v0)).
Proof.
  apply requests_never_removed.
  eapply reachable_call; [apply reachable_start | apply call_message].
Defined.

Lemma payloadValidator_cases (msgType : Z) (validate : M Record) :
  payloadValidator msgType = Some validate ->
  (exists p, validate = liftP p)
  \/ (msgType = Subscribe /\ validate = validateSubscribe)
  \/ (msgType = SubscribeOK /\ validate = validateSubscribeOK)
  \/ (msgType = Fetch /\ validate = validateFetch)
  \/ (msgType = Announce /\ validate = validateAnnounce)
  \/ (msgType = TrackStatusRequest /\ validate = validateTrackStatusRequest).
Proof.
  unfold payloadValidator.
  destruct (msgType =? ClientSetup); [intros [= <-]; left; eauto|].
  destruct (msgType =? ServerSetup); [intros [= <-]; left; eauto|].
  destruct (msgType =? Subscribe) eqn:E1;
    [apply Z.eqb_eq in E1; intros [= <-]; auto|].
  destruct (msgType =? SubscribeOK) eqn:E2;
    [apply Z.eqb_eq in E2; intros [= <-]; auto|].
  destruct (msgType =? Fetch) eqn:E3;
    [apply Z.eqb_eq in E3; intros [= <-]; auto 6|].
  destruct (msgType =? Announce) eqn:E4;
    [apply Z.eqb_eq in E4; intros [= <-]; auto 7|].
  destruct (msgType =? Goaway); [intros [= <-]; left; eauto|].
  destruct (msgType =? MaxRequestID); [intros [= <-]; left; eauto|].
  destruct (msgType =? TrackStatusRequest) eqn:E5; [|discriminate].
  apply Z.eqb_eq in E5. intros [= <-]. auto 8.
Qed.

Lemma ValidateMessage_framed (data : list byte) (v : MoQTValidator)
  (msgType msgLength : Z) (payload rest : list byte) :
  controlFrame data = Ok (msgType, msgLength, payload, rest) ->
  ValidateMessage data true v
  = match payloadValidator msgType with
    | Some validate =>
        match validate payload v with
        | (Ok (details, _), v') =>
            (Ok (mergeInto details
                   [("type"%string, VString (getMessageTypeName msgType));
                    ("type_value"%string, VUint msgType);
                    ("length"%string, VUint msgLength)]), v')
        | (Err e, v') => (Err e, v')
        end
    | None =>
        (Ok [("type"%string, VString (getMessageTypeName msgType));
             ("type_value"%string, VUint msgType);
             ("length"%string, VUint msgLength);
             ("raw_payload"%string, VHex payload)], v)
    end.
Proof.
  intros Hframe.
  rewrite ValidateMessage_control by (intros ->; discriminate Hframe).
  rewrite validateControlMessage_frame, Hframe. cbv zeta.
  destruct (payloadValidator msgType) as [validate|]; [|reflexivity].
  destruct (validate payload v) as [[[details r']|e] v']; reflexivity.
Qed.

(** X13: which message writes what.  Only a SUBSCRIBE changes the table of
    live subscriptions and only a FETCH changes the table of live fetches;
    a message that is none of SUBSCRIBE, SUBSCRIBE_OK, FETCH, ANNOUNCE and
    TRACK_STATUS_REQUEST (the five that read version parameters) leaves the
    whole validator as it was, accepted or not. *)
Theorem message_write_footprint (data : list byte) (v : MoQTValidator)
  (msgType msgLength : Z) (payload rest : list byte) :
  controlFrame data = Ok (msgType, msgLength, payload, rest) ->
  let v' := snd (ValidateMessage data true v) in
  (msgType <> Subscribe -> activeSubscriptions v' = activeSubscriptions v)
  /\ (msgType <> Fetch -> activeFetches v' = activeFetches v)
  /\ (~ In msgType [Subscribe; SubscribeOK; Fetch; Announce; TrackStatusRequest] ->
      v' = v).
Proof.
  intros Hframe v'. subst v'.
  rewrite (ValidateMessage_framed data v msgType msgLength payload rest Hframe).
  destruct (payloadValidator msgType) as [validate|] eqn:E;
    [|repeat split; reflexivity].
  assert (Hsnd : forall J : MoQTValidator -> Prop,
             J (snd (validate payload v)) ->
             J (snd (match validate payload v with
                     | (Ok (details, _), v') =>
                         (Ok (mergeInto details
                                [("type"%string, VString (getMessageTypeName msgType));
                                 ("type_value"%string, VUint msgType);
                                 ("length"%string, VUint msgLength)]), v')
                     | (Err e, v') => (@Err Record e, v')
                     end))).
  { intros J H. destruct (validate payload v) as [[[details r']|e] v']; exact H. }
  apply payloadValidator_cases in E
    as [[p ->]|[[-> ->]|[[-> ->]|[[-> ->]|[[-> ->]|[-> ->]]]]]].
  - repeat split; intros _; apply Hsnd; reflexivity.
  - split; [intros H; contradiction|]. split.
    + intros _. apply Hsnd.
      apply (stable_validateSubscribe (fun v1 => activeFetches v1 = activeFetches v));
        [intros m size v1 H; exact H|intros requestID info v1 H; exact H|reflexivity].
    + intros H. exfalso. apply H. cbn. auto.
  - split; [|split].
    + intros _. apply Hsnd.
      apply (stable_validateSubscribeOK
               (fun v1 => activeSubscriptions v1 = activeSubscriptions v));
        [intros m size v1 H; exact H|reflexivity].
    + intros _. apply Hsnd.
      apply (stable_validateSubscribeOK (fun v1 => activeFetches v1 = activeFetches v));
        [intros m size v1 H; exact H|reflexivity].
    + intros H. exfalso. apply H. cbn. auto.
  - split; [|split].
    + intros _. apply Hsnd.
      apply (stable_validateFetch
               (fun v1 => activeSubscriptions v1 = activeSubscriptions v));
        [intros m size v1 H; exact H|intros requestID result v1 H; exact H|reflexivity].
    + intros H. contradiction.
    + intros H. exfalso. apply H. cbn. auto.
  - split; [|split].
    + intros _. apply Hsnd.
      apply (stable_validateAnnounce
               (fun v1 => activeSubscriptions v1 = activeSubscriptions v));
        [intros m size v1 H; exact H|reflexivity].
    + intros _. apply Hsnd.
      apply (stable_validateAnnounce (fun v1 => activeFetches v1 = activeFetches v));
        [intros m size v1 H; exact H|reflexivity].
    + intros H. exfalso. apply H. cbn. auto 6.
  - split; [|split].
    + intros _. apply Hsnd.
      apply (stable_validateTrackStatusRequest
               (fun v1 => activeSubscriptions v1 = activeSubscriptions v));
        [intros m size v1 H; exact H|reflexivity].
    + intros _. apply Hsnd.
      apply (stable_validateTrackStatusRequest
               (fun v1 => activeFetches v1 = activeFetches v));
        [intros m size v1 H; exact H|reflexivity].
    + intros H. exfalso. apply H. cbn. auto 6.
Qed.

Lemma message_write_footprint_witness :
  let v := validatorWithCache 64 in
  let v' := snd (ValidateMessage announceRegisterExample true v) in
  activeSubscriptions v' = activeSubscriptions v
  /\ activeFetches v' = activeFetches v
  /\ snd (ValidateMessage (encMaxRequestID 10) true v) = v.
Proof.
  split; [|split].
  - apply (message_write_footprint announceRegisterExample (validatorWithCache 64)
             Announce 14
             (bytes_of [0; 1; 1; 97; 1; 1; 7] ++ encRegister 3 0 (bytes_of [1; 2; 3; 4]))
             []); [vm_compute; reflexivity|discriminate].
  - apply (message_write_footprint announceRegisterExample (validatorWithCache 64)
             Announce 14
             (bytes_of [0; 1; 1; 97; 1; 1; 7] ++ encRegister 3 0 (bytes_of [1; 2; 3; 4]))
             []); [vm_compute; reflexivity|discriminate].
  - apply (message_write_footprint (encMaxRequestID 10) (validatorWithCache 64)
             MaxRequestID 1 (bytes_of [10]) []); [vm_compute; reflexivity|].
    vm_compute. intros H. repeat (destruct H as [H|H]; [discriminate H|]). exact H.
Defined.

(** *** A failed message and the tables of requests *)

Lemma failsKeeping_failM {A} (I : MoQTValidator -> Prop) (e : Error) :
  failsKeeping I (@failM A e).
Proof. intros r v e' v' H [= _ <-]. exact H. Qed.

Lemma failsKeeping_bindM {A B} (I : MoQTValidator -> Prop) (m : M A) (k : A -> M B) :
  preserves I m -> (forall a, failsKeeping I (k a)) -> failsKeeping I (bindM m k).
Proof.
  intros Hm Hk r v e v' H. unfold bindM. specialize (Hm r v H).
  destruct (m r v) as [[[a r1]|e1] v1]; cbn [snd] in Hm.
  - intros E. eapply Hk; [exact Hm|exact E].
  - intros [= _ <-]. exact Hm.
Qed.

(** The write at the end of SUBSCRIBE and FETCH cannot fail. *)
Lemma failsKeeping_write {A} (I : MoQTValidator -> Prop)
  (f : MoQTValidator -> MoQTValidator) (result : A) :
  failsKeeping I (bindM (modifyV f) (fun _ => retM result)).
Proof. intros r v e v' _ [=]. Qed.

Lemma failsKeeping_preserves {A} (I : MoQTValidator -> Prop) (m : M A) :
  preserves I m -> failsKeeping I m.
Proof.
  intros Hm r v e v' H E. specialize (Hm r v H). rewrite E in Hm. exact Hm.
Qed.

Lemma sameRequests_tokens (v0 : MoQTValidator) m size v :
  sameRequests v0 v -> sameRequests v0 (set_tokens m size v).
Proof. intros H. exact H. Qed.

Ltac reads_only known :=
  repeat first
    [ known
    | apply preserves_retM
    | apply preserves_failM
    | apply preserves_liftP
    | apply preserves_checkRequestID
    | apply preserves_liftResult
    | apply preserves_bindM
    | match goal with
      | |- forall _, preserves _ _ => intro
      | |- preserves _ (if ?c then _ else _) => destruct c
      | |- preserves _ (match ?x with _ => _ end) => destruct x
      end ].

Ltac fails_clean v0 :=
  repeat first
    [ apply failsKeeping_failM
    | apply failsKeeping_write
    | apply failsKeeping_bindM;
      [ reads_only ltac:(apply stable_parametersTail; apply sameRequests_tokens)
      | intro ]
    | match goal with
      | |- failsKeeping _ (if ?c then _ else _) => destruct c
      end ].

Lemma failsKeeping_validateSubscribe (v0 : MoQTValidator) :
  failsKeeping (sameRequests v0) validateSubscribe.
Proof. unfold validateSubscribe. cbv zeta. fails_clean v0. Qed.

Lemma failsKeeping_validateFetch (v0 : MoQTValidator) :
  failsKeeping (sameRequests v0) validateFetch.
Proof. unfold validateFetch. cbv zeta. fails_clean v0. Qed.

(** X14: a message that is refused has added no subscription and no fetch:
    whenever [ValidateMessage] returns an error, of any kind and on either
    kind of stream, [activeSubscriptions] and [activeFetches] are what they
    were.  (The token cache is not covered: a parameter handled before the
    failure keeps its effect.) *)
Theorem failed_message_keeps_requests (data : list byte) (isControlStream : bool)
  (v v' : MoQTValidator) (e : Error) :
  ValidateMessage data isControlStream v = (Err e, v') -> sameRequests v v'.
Proof.
  unfold ValidateMessage. destruct (len data =? 0); [intros [= _ <-]; split; reflexivity|].
  destruct isControlStream; [|intros [= _ <-]; split; reflexivity].
  rewrite validateControlMessage_frame.
  destruct (controlFrame data) as [[[[t n] payload] r]|e0];
    [|intros [= _ <-]; split; reflexivity].
  cbv zeta. destruct (payloadValidator t) as [validate|] eqn:E; [|discriminate].
  destruct (validate payload v) as [[[details r']|e1] v1] eqn:Ev; [discriminate|].
  intros [= _ <-].
  assert (H0 : sameRequests v v) by (split; reflexivity).
  apply payloadValidator_cases in E
    as [[p ->]|[[-> ->]|[[-> ->]|[[-> ->]|[[-> ->]|[-> ->]]]]]].
  - unfold liftP in Ev. injection Ev as _ <-. exact H0.
  - eapply failsKeeping_validateSubscribe; [exact H0|exact Ev].
  - eapply (failsKeeping_preserves (sameRequests v)); [|exact H0|exact Ev].
    apply stable_validateSubscribeOK, sameRequests_tokens.
  - eapply failsKeeping_validateFetch; [exact H0|exact Ev].
  - eapply (failsKeeping_preserves (sameRequests v)); [|exact H0|exact Ev].
    apply stable_validateAnnounce, sameRequests_tokens.
  - eapply (failsKeeping_preserves (sameRequests v)); [|exact H0|exact Ev].
    apply stable_validateTrackStatusRequest, sameRequests_tokens.
Qed.

Lemma failed_message_keeps_requests_witness :
  sameRequests scenarioValidator scenarioValidator.
Proof.
  apply (failed_message_keeps_requests (subscribeRange 4) true scenarioValidator
           scenarioValidator ErrValidation).
  vm_compute. reflexivity.
Defined.

(** ** The token cache, operation by operation *)

Lemma bindM_retM {A B} (a : A) (k : A -> M B) (r : Reader) (v : MoQTValidator) :
  bindM (retM a) k r v = k a r v.
Proof. reflexivity. Qed.

Lemma bindM_bindM {A B C} (m : M A) (f : A -> M B) (k : B -> M C)
  (r : Reader) (v : MoQTValidator) :
  bindM (bindM m f) k r v = bindM m (fun a => bindM (f a) k) r v.
Proof. unfold bindM. destruct (m r v) as [[[a r1]|e] v1]; reflexivity. Qed.

Lemma bindM_decode_enc {B} (x : Z) (k : Z -> M B) (r : Reader) (v : MoQTValidator) :
  0 <= x < 2 ^ 62 -> bindM (liftP decode) k (enc x ++ r) v = k x r v.
Proof. intros H. unfold bindM, liftP. rewrite decode_enc by exact H. reflexivity. Qed.

Lemma set_tokens_same (v : MoQTValidator) :
  set_tokens (authTokens v) (currentAuthTokenSize v) v = v.
Proof. destruct v; reflexivity. Qed.

Lemma set_tokens_twice (m1 m2 : gmap Z (list byte)) (s1 s2 : Z) (v : MoQTValidator) :
  set_tokens m2 s2 (set_tokens m1 s1 v) = set_tokens m2 s2 v.
Proof. reflexivity. Qed.

Lemma validateAuthToken_register (alias tokenType : Z) (tokenValue : list byte)
  (v : MoQTValidator) :
  0 <= alias < 2 ^ 62 -> 0 <= tokenType < 2 ^ 62 ->
  validateAuthToken (encRegister alias tokenType tokenValue) v
  = match registerToken (registerDetails alias tokenType tokenValue) tokenValue [] v with
    | (Ok _, v') => (Ok (registerDetails alias tokenType tokenValue), v')
    | (Err e, v') => (Err e, v')
    end.
Proof.
  intros Ha Ht. unfold validateAuthToken, authTokenBody, encRegister, AliasTypeRegister.
  rewrite bindM_decode_enc by lia.
  change (1 >? 3) with false. change (1 <=? 2) with true.
  change ((1 =? 1) || (1 =? 3)) with true. change (1 =? 1) with true. cbv beta iota zeta.
  rewrite bindM_bindM, bindM_decode_enc by lia. rewrite bindM_retM.
  rewrite bindM_bindM, bindM_decode_enc by lia.
  rewrite bindM_bindM. unfold bindM at 1, liftP at 1, ReadAll. cbv beta iota.
  rewrite bindM_bindM. unfold bindM at 1.
  change (mset "token_value_length" (VUint (len tokenValue))
            (mset "token_value" (VHex tokenValue)
               (mset "token_type" (VUint tokenType)
                  (mset "token_alias" (VUint alias)
                     [("alias_type"%string, VString (aliasTypeNames 1))]))))
    with (registerDetails alias tokenType tokenValue).
  destruct (registerToken _ tokenValue [] v) as [[[u r1]|e] v1] eqn:E; [|reflexivity].
  rewrite bindM_retM. unfold bindM, tokenOperation, retM.
  change (1 =? AliasTypeDelete) with false. change (1 =? AliasTypeUseAlias) with false.
  cbv beta iota.
  unfold registerToken in E.
  destruct (_ >? _) in E; [discriminate|].
  change (mget "token_alias" (registerDetails alias tokenType tokenValue))
    with (Some (VUint alias)) in E.
  cbv beta iota in E. destruct (authTokens v !! alias); [discriminate|].
  injection E as _ <- <-. reflexivity.
Qed.

Lemma registerToken_exact (alias tokenType : Z) (tokenValue : list byte)
  (r : Reader) (v : MoQTValidator) :
  0 <= currentAuthTokenSize v ->
  currentAuthTokenSize v + (8 + len tokenValue) < 2 ^ 64 ->
  registerToken (registerDetails alias tokenType tokenValue) tokenValue r v
  = if currentAuthTokenSize v + (8 + len tokenValue) >? maxAuthTokenCacheSize v
    then (Err ErrProtocolViolation, v)
    else match authTokens v !! alias with
         | Some _ => (Err ErrProtocolViolation, v)
         | None =>
             (Ok (tt, r),
              set_tokens (<[alias := tokenValue]> (authTokens v))
                (currentAuthTokenSize v + (8 + len tokenValue)) v)
         end.
Proof.
  intros Hc Hs. pose proof (len_nonneg tokenValue).
  unfold registerToken, uint64.
  rewrite (Z.mod_small (8 + len tokenValue)) by lia.
  rewrite (Z.mod_small (currentAuthTokenSize v + _)) by lia.
  reflexivity.
Qed.

Lemma validateAuthToken_delete (alias : Z) (v : MoQTValidator) :
  0 <= alias < 2 ^ 62 ->
  validateAuthToken (encDelete alias) v
  = (Ok (deleteDetails alias),
     match authTokens v !! alias with
     | Some token =>
         set_tokens (delete alias (authTokens v))
           (uint64 (currentAuthTokenSize v - uint64 (8 + len token))) v
     | None => v
     end).
Proof.
  intros Ha. unfold validateAuthToken, authTokenBody, encDelete, AliasTypeDelete.
  rewrite bindM_decode_enc by lia.
  change (0 >? 3) with false. change (0 <=? 2) with true.
  change ((0 =? 1) || (0 =? 3)) with false. cbv beta iota zeta.
  rewrite bindM_bindM.
  rewrite <- (app_nil_r (enc alias)). rewrite bindM_decode_enc by lia.
  rewrite !bindM_retM. unfold bindM, tokenOperation, retM.
  change (0 =? AliasTypeDelete) with true. cbv beta iota.
  change (mget "token_alias" _) with (Some (VUint alias)). cbv beta iota.
  destruct (authTokens v !! alias); reflexivity.
Qed.

Lemma validateAuthToken_useAlias (alias : Z) (v : MoQTValidator) :
  0 <= alias < 2 ^ 62 ->
  validateAuthToken (encUseAlias alias) v
  = match authTokens v !! alias with
    | Some _ => (Ok (useAliasDetails alias), v)
    | None => (Err ErrProtocolViolation, v)
    end.
Proof.
  intros Ha. unfold validateAuthToken, authTokenBody, encUseAlias, AliasTypeUseAlias.
  rewrite bindM_decode_enc by lia.
  change (2 >? 3) with false. change (2 <=? 2) with true.
  change ((2 =? 1) || (2 =? 3)) with false. cbv beta iota zeta.
  rewrite bindM_bindM.
  rewrite <- (app_nil_r (enc alias)). rewrite bindM_decode_enc by lia.
  rewrite !bindM_retM. unfold bindM, tokenOperation, retM.
  change (2 =? AliasTypeDelete) with false. change (2 =? AliasTypeUseAlias) with true.
  cbv beta iota.
  change (mget "token_alias" _) with (Some (VUint alias)). cbv beta iota.
  destruct (authTokens v !! alias); reflexivity.
Qed.

(** X15: when a REGISTER is accepted.  With the running total and the new
    entry's charge [8 + len(value)] inside 64 bits, a REGISTER is accepted
    exactly when the charged total stays within [maxAuthTokenCacheSize] and
    the alias is not in the cache; it then stores the value under the alias
    and adds the charge; otherwise it is a protocol violation and nothing is
    written. *)
Theorem register_accepted_iff (v : MoQTValidator) (alias tokenType : Z)
  (tokenValue : list byte) :
  0 <= alias < 2 ^ 62 -> 0 <= tokenType < 2 ^ 62 ->
  0 <= currentAuthTokenSize v ->
  currentAuthTokenSize v + (8 + len tokenValue) < 2 ^ 64 ->
  let size := currentAuthTokenSize v + (8 + len tokenValue) in
  (size <= maxAuthTokenCacheSize v /\ authTokens v !! alias = None ->
   validateAuthToken (encRegister alias tokenType tokenValue) v
   = (Ok (registerDetails alias tokenType tokenValue),
      set_tokens (<[alias := tokenValue]> (authTokens v)) size v))
  /\ (size > maxAuthTokenCacheSize v \/ is_Some (authTokens v !! alias) ->
      validateAuthToken (encRegister alias tokenType tokenValue) v
      = (Err ErrProtocolViolation, v)).
Proof.
  intros Ha Ht Hc Hs size. subst size.
  rewrite validateAuthToken_register by assumption.
  rewrite (registerToken_exact alias tokenType tokenValue [] v Hc Hs).
  destruct (_ >? _) eqn:E.
  - rewrite Z.gtb_ltb in E. apply Z.ltb_lt in E.
    split; [intros [H _]; lia|reflexivity].
  - rewrite Z.gtb_ltb in E. apply Z.ltb_ge in E.
    split.
    + intros [_ ->]. reflexivity.
    + intros [H|[token ->]]; [lia|reflexivity].
Qed.

Lemma register_accepted_iff_witness :
  validateAuthToken (encRegister 3 0 (bytes_of [1; 2; 3; 4])) (validatorWithCache 64)
  = (Ok (registerDetails 3 0 (bytes_of [1; 2; 3; 4])),
     set_tokens (<[3 := bytes_of [1; 2; 3; 4]]> ∅) 12 (validatorWithCache 64))
  /\ validateAuthToken (encRegister 3 0 (bytes_of [1; 2; 3; 4])) (validatorWithCache 11)
     = (Err ErrProtocolViolation, validatorWithCache 11).
Proof.
  split.
  - apply (register_accepted_iff (validatorWithCache 64) 3 0 (bytes_of [1; 2; 3; 4]));
      [lia|lia|vm_compute; discriminate|vm_compute; reflexivity|].
    split; [vm_compute; discriminate|reflexivity].
  - apply (register_accepted_iff (validatorWithCache 11) 3 0 (bytes_of [1; 2; 3; 4]));
      [lia|lia|vm_compute; discriminate|vm_compute; reflexivity|].
    left. vm_compute. reflexivity.
Defined.

(** X16: REGISTER then DELETE is a round trip.  After an accepted REGISTER
    of a fresh alias, a DELETE of the same alias is accepted and puts back
    the validator exactly as it was before the REGISTER: the cache and the
    running total. *)
Theorem register_then_delete_restores (v : MoQTValidator) (alias tokenType : Z)
  (tokenValue : list byte) :
  0 <= alias < 2 ^ 62 -> 0 <= tokenType < 2 ^ 62 ->
  0 <= currentAuthTokenSize v ->
  currentAuthTokenSize v + (8 + len tokenValue) <= maxAuthTokenCacheSize v ->
  maxAuthTokenCacheSize v < 2 ^ 64 ->
  authTokens v !! alias = None ->
  exists v1,
    validateAuthToken (encRegister alias tokenType tokenValue) v
    = (Ok (registerDetails alias tokenType tokenValue), v1)
    /\ authTokens v1 !! alias = Some tokenValue
    /\ validateAuthToken (encDelete alias) v1 = (Ok (deleteDetails alias), v).
Proof.
  intros Ha Ht Hc Hfit Hmax Hfresh. pose proof (len_nonneg tokenValue) as Hl.
  rewrite validateAuthToken_register by assumption.
  rewrite (registerToken_exact alias tokenType tokenValue [] v) by lia.
  destruct (_ >? _) eqn:E;
    [rewrite Z.gtb_ltb in E; apply Z.ltb_lt in E; lia|].
  rewrite Hfresh. eexists. split; [reflexivity|].
  split; [cbn [authTokens set_tokens]; apply lookup_insert_eq|].
  rewrite validateAuthToken_delete by assumption.
  cbn [authTokens set_tokens currentAuthTokenSize].
  rewrite lookup_insert_eq. f_equal.
  rewrite set_tokens_twice, delete_insert_id by exact Hfresh.
  unfold uint64. rewrite (Z.mod_small (8 + len tokenValue)) by lia.
  replace (currentAuthTokenSize v + (8 + len tokenValue) - (8 + len tokenValue))
    with (currentAuthTokenSize v) by lia.
  rewrite Z.mod_small by lia. apply set_tokens_same.
Qed.

Lemma register_then_delete_restores_witness :
  exists v1,
    validateAuthToken (encRegister 3 0 (bytes_of [1; 2; 3; 4])) (validatorWithCache 64)
    = (Ok (registerDetails 3 0 (bytes_of [1; 2; 3; 4])), v1)
    /\ authTokens v1 !! 3 = Some (bytes_of [1; 2; 3; 4])
    /\ validateAuthToken (encDelete 3) v1 = (Ok (deleteDetails 3), validatorWithCache 64).
Proof.
  apply (register_then_delete_restores (validatorWithCache 64) 3 0 (bytes_of [1; 2; 3; 4]));
    [lia|lia|vm_compute; discriminate|vm_compute; discriminate|vm_compute; reflexivity
    |reflexivity].
Defined.

(** X17: a USE_ALIAS is accepted exactly when its alias is in the cache, and
    is a protocol violation otherwise; either way it leaves the validator as
    it was. *)
Theorem use_alias_accepted_iff_registered (v : MoQTValidator) (alias : Z) :
  0 <= alias < 2 ^ 62 ->
  snd (validateAuthToken (encUseAlias alias) v) = v
  /\ (fst (validateAuthToken (encUseAlias alias) v) = Ok (useAliasDetails alias)
      <-> is_Some (authTokens v !! alias))
  /\ (fst (validateAuthToken (encUseAlias alias) v) = Err ErrProtocolViolation
      <-> authTokens v !! alias = None).
Proof.
  intros Ha. rewrite validateAuthToken_useAlias by assumption.
  destruct (authTokens v !! alias) as [token|]; cbn [fst snd].
  - split; [reflexivity|]. split; split; intros H; try discriminate; eauto.
  - split; [reflexivity|]. split; split; intros H; try reflexivity;
      try discriminate. destruct H as [x H]. discriminate.
Qed.

Lemma use_alias_accepted_iff_registered_witness :
  snd (validateAuthToken (encUseAlias 3) NewMoQTValidator) = NewMoQTValidator
  /\ fst (validateAuthToken (encUseAlias 3) NewMoQTValidator) = Err ErrProtocolViolation.
Proof.
  destruct (use_alias_accepted_iff_registered NewMoQTValidator 3) as (H1 & _ & H3);
    [lia|].
  split; [exact H1|]. apply H3. reflexivity.
Defined.

(** X18: a DELETE never fails.  Whatever the cache holds, a DELETE is
    accepted; afterwards the alias is not in the cache and every other alias
    is as before; deleting an alias that is not there changes nothing. *)
Theorem delete_always_accepted (v : MoQTValidator) (alias : Z) :
  0 <= alias < 2 ^ 62 ->
  exists v',
    validateAuthToken (encDelete alias) v = (Ok (deleteDetails alias), v')
    /\ authTokens v' = delete alias (authTokens v)
    /\ (authTokens v !! alias = None -> v' = v).
Proof.
  intros Ha. rewrite validateAuthToken_delete by assumption.
  eexists. split; [reflexivity|].
  destruct (authTokens v !! alias) as [token|] eqn:E.
  - split; [reflexivity|discriminate].
  - split; [|reflexivity]. symmetry. apply delete_id. exact E.
Qed.

Lemma delete_always_accepted_witness :
  exists v',
    validateAuthToken (encDelete 3) NewMoQTValidator = (Ok (deleteDetails 3), v')
    /\ authTokens v' = delete 3 (authTokens NewMoQTValidator)
    /\ (authTokens NewMoQTValidator !! 3 = None -> v' = NewMoQTValidator).
Proof. apply (delete_always_accepted NewMoQTValidator 3). lia. Defined.

Lemma atomic_bindM_readOnly {A B} (m : M A) (k : A -> M B) :
  readOnly m -> (forall a, atomic (k a)) -> atomic (bindM m k).
Proof.
  intros Hm Hk r v e v'. unfold bindM. specialize (Hm r v).
  destruct (m r v) as [[[a r1]|e1] v1]; cbn [snd] in Hm; subst v1.
  - apply Hk.
  - intros [= _ <-]. reflexivity.
Qed.

Lemma atomic_failM {A} (e : Error) : atomic (@failM A e).
Proof. intros r v e' v' [= _ <-]. reflexivity. Qed.

Lemma atomic_retM {A} (a : A) : atomic (retM a).
Proof. intros r v e v' [=]. Qed.

(** A step that can fail only before it writes, followed by a step that
    cannot fail. *)
Lemma atomic_then_retM {A B} (m : M A) (f : A -> B) :
  atomic m -> atomic (bindM m (fun a => retM (f a))).
Proof.
  intros Hm r v e v'. unfold bindM, retM. specialize (Hm r v).
  destruct (m r v) as [[[a r1]|e1] v1]; [discriminate|].
  intros [= <- <-]. eapply Hm. reflexivity.
Qed.

Lemma atomic_registerToken (result : Record) (tokenValue : list byte) :
  atomic (registerToken result tokenValue).
Proof.
  intros r v e v'. unfold registerToken.
  destruct (_ >? _); [intros [= _ <-]; reflexivity|].
  destruct (mget "token_alias" result) as [[]|]; try discriminate.
  destruct (authTokens v !! _); [intros [= _ <-]; reflexivity|discriminate].
Qed.

Lemma atomic_tokenOperation (aliasType : Z) (result : Record) :
  atomic (tokenOperation aliasType result).
Proof.
  intros r v e v'. unfold tokenOperation.
  destruct (aliasType =? AliasTypeDelete).
  - destruct (mget "token_alias" result) as [[]|]; try discriminate.
    destruct (authTokens v !! _); discriminate.
  - destruct (aliasType =? AliasTypeUseAlias); [|discriminate].
    destruct (mget "token_alias" result) as [[]|]; try discriminate.
    destruct (authTokens v !! _); [discriminate|intros [= _ <-]; reflexivity].
Qed.

(** After a REGISTER neither of the two later operations applies. *)
Lemma tokenOperation_register (result : Record) (r : Reader) (v : MoQTValidator) :
  tokenOperation AliasTypeRegister result r v = (Ok (tt, r), v).
Proof. reflexivity. Qed.

Lemma atomic_authTokenBody : atomic authTokenBody.
Proof.
  unfold authTokenBody.
  apply atomic_bindM_readOnly; [apply readOnly_liftP|intros aliasType].
  destruct (aliasType >? 3); [apply atomic_failM|]. cbv zeta.
  apply atomic_bindM_readOnly.
  { destruct (aliasType <=? 2); [|apply readOnly_retM].
    apply readOnly_bindM; [apply readOnly_liftP|intro; apply readOnly_retM]. }
  intros result.
  destruct ((aliasType =? 1) || (aliasType =? 3)).
  - intros r v e v'. unfold bindM, liftP, retM, ReadAll.
    destruct (decode r) as [[tokenType r1]|e1]; [|intros [= _ <-]; reflexivity].
    destruct (aliasType =? AliasTypeRegister) eqn:E1.
    + apply Z.eqb_eq in E1. subst aliasType.
      destruct (registerToken _ r1 [] v) as [[[u r2]|e1] v1] eqn:Er.
      * rewrite tokenOperation_register. discriminate.
      * intros [= _ <-]. eapply atomic_registerToken. exact Er.
    + destruct (tokenOperation aliasType _ [] v) as [[[u r2]|e1] v1] eqn:Eo;
        [discriminate|].
      intros [= _ <-]. eapply atomic_tokenOperation. exact Eo.
  - apply atomic_bindM_readOnly; [apply readOnly_retM|intros result'].
    apply (atomic_then_retM (tokenOperation aliasType result') (fun _ => result')).
    apply atomic_tokenOperation.
Qed.

(** X19: the auth-token subparser writes last.  Whenever [validateAuthToken]
    returns an error, for any bytes at all, the validator is as it was: the
    cache is written only by a REGISTER or DELETE that is then reported as
    accepted. *)
Theorem validateAuthToken_failure_atomic (tokenData : list byte)
  (v v' : MoQTValidator) (e : Error) :
  validateAuthToken tokenData v = (Err e, v') -> v' = v.
Proof.
  unfold validateAuthToken.
  destruct (authTokenBody tokenData v) as [[[result r]|e1] v1] eqn:E; [discriminate|].
  intros [= _ <-]. eapply atomic_authTokenBody. exact E.
Qed.

Lemma validateAuthToken_failure_atomic_witness :
  set_tokens (<[3 := bytes_of [1; 2; 3; 4]]> ∅) 12 (validatorWithCache 64)
  = set_tokens (<[3 := bytes_of [1; 2; 3; 4]]> ∅) 12 (validatorWithCache 64).
Proof.
  apply (validateAuthToken_failure_atomic (encRegister 3 0 (bytes_of [9]))
           (set_tokens (<[3 := bytes_of [1; 2; 3; 4]]> ∅) 12 (validatorWithCache 64))
           _ ErrProtocolViolation).
  vm_compute. reflexivity.
Defined.

(** What [validateAuthToken] returns for a USE_VALUE. *)
Lemma validateAuthToken_useValue (tokenType : Z) (tokenValue : list byte)
  (v : MoQTValidator) :
  0 <= tokenType < 2 ^ 62 ->
  validateAuthToken (encUseValue tokenType tokenValue) v
  = (Ok [("alias_type"%string, VString "USE_VALUE");
         ("token_type"%string, VUint tokenType);
         ("token_value"%string, VHex tokenValue);
         ("token_value_length"%string, VUint (len tokenValue))], v).
Proof.
  intros Ht. unfold validateAuthToken, authTokenBody, encUseValue, AliasTypeUseValue.
  rewrite bindM_decode_enc by lia.
  change (3 >? 3) with false. change (3 <=? 2) with false.
  change ((3 =? 1) || (3 =? 3)) with true. change (3 =? AliasTypeRegister) with false.
  cbv beta iota zeta.
  rewrite bindM_retM.
  rewrite bindM_bindM, bindM_decode_enc by lia.
  reflexivity.
Qed.

(** X20: the alias type decides what is read and what is charged.  A
    USE_VALUE token, whatever its value, is accepted without touching the
    cache or its running total (only REGISTER is charged), and an alias type
    above 3 is a protocol violation whatever follows it. *)
Theorem alias_type_dispatch (v : MoQTValidator) (tokenType aliasType : Z)
  (tokenValue rest : list byte) :
  0 <= tokenType < 2 ^ 62 -> 3 < aliasType < 2 ^ 62 ->
  snd (validateAuthToken (encUseValue tokenType tokenValue) v) = v
  /\ (exists details,
        fst (validateAuthToken (encUseValue tokenType tokenValue) v) = Ok details
        /\ mget "token_value_length" details = Some (VUint (len tokenValue))
        /\ mget "token_alias" details = None)
  /\ validateAuthToken (enc aliasType ++ rest) v = (Err ErrProtocolViolation, v).
Proof.
  intros Ht Ha. rewrite validateAuthToken_useValue by assumption.
  split; [reflexivity|]. split; [eexists; repeat split|].
  unfold validateAuthToken, authTokenBody.
  rewrite bindM_decode_enc by lia.
  destruct (aliasType >? 3) eqn:E; [reflexivity|].
  rewrite Z.gtb_ltb in E. apply Z.ltb_ge in E. lia.
Qed.

Lemma alias_type_dispatch_witness :
  snd (validateAuthToken (encUseValue 0 (bytes_of [1; 2; 3])) NewMoQTValidator)
  = NewMoQTValidator
  /\ (exists details,
        fst (validateAuthToken (encUseValue 0 (bytes_of [1; 2; 3])) NewMoQTValidator)
        = Ok details
        /\ mget "token_value_length" details = Some (VUint 3)
        /\ mget "token_alias" details = None)
  /\ validateAuthToken (enc 4 ++ []) NewMoQTValidator
     = (Err ErrProtocolViolation, NewMoQTValidator).
Proof.
  apply (alias_type_dispatch NewMoQTValidator 0 4 (bytes_of [1; 2; 3]) []); lia.
Defined.

(** ** A token registered by a message that is then refused *)

(** One round of the parameter loop on an AUTHORIZATION_TOKEN that is not
    empty. *)
Lemma versionParameter_token (params : list Record) (token r : list byte)
  (v : MoQTValidator) :
  0 < len token <= 65535 ->
  exists paramInfo,
    versionParameter params (encTokenParameter token ++ r) v
    = match validateAuthToken token v with
      | (Err e, v') => (Err e, v')
      | (Ok authDetails, v') =>
          (Ok (params ++ [mergeInto authDetails paramInfo], r), v')
      end.
Proof.
  intros Hl. eexists. unfold versionParameter, encTokenParameter, encBytes.
  rewrite <- !app_assoc. rewrite bindM_decode_enc by (vm_compute; split; congruence).
  change (VersionParamAuthorizationToken mod 2 =? 0) with false. cbv beta iota zeta.
  rewrite bindM_bindM, bindM_decode_enc by lia.
  destruct (len token >? 65535) eqn:E;
    [rewrite Z.gtb_ltb in E; apply Z.ltb_lt in E; lia|].
  rewrite bindM_bindM. unfold bindM at 1, liftP at 1.
  rewrite readFullOr_app by lia. rewrite bindM_retM.
  change (VersionParamAuthorizationToken =? VersionParamAuthorizationToken) with true.
  cbv beta iota.
  destruct (len token >? 0) eqn:E0;
    [|rewrite Z.gtb_ltb in E0; apply Z.ltb_ge in E0; lia].
  unfold bindM, authorizationToken, retM.
  destruct (validateAuthToken token v) as [[authDetails|e] v']; reflexivity.
Qed.

(** A parameter list that announces more parameters than it holds, after a
    token that was accepted. *)
Lemma parameters_cut_after_token (n : Z) (token : list byte)
  (v v1 : MoQTValidator) (authDetails : Record) :
  2 <= n -> 0 < len token <= 65535 ->
  validateAuthToken token v = (Ok authDetails, v1) ->
  validateVersionParameters n (encTokenParameter token) v = (Err EOF, v1).
Proof.
  intros Hn Hl Htoken.
  destruct (versionParameter_token [] token [] v Hl) as [paramInfo Hround].
  rewrite Htoken, app_nil_r in Hround.
  unfold validateVersionParameters, forM.
  destruct (length (encTokenParameter token)) as [|fuel] eqn:El.
  { unfold encTokenParameter, encBytes in El. rewrite !length_app in El.
    unfold len in Hl. lia. }
  cbn [forM_from]. destruct (0 <? n) eqn:E0; [|apply Z.ltb_ge in E0; lia].
  rewrite Hround.
  assert (E1 : (0 + 1 <? n) = true) by (apply Z.ltb_lt; lia).
  destruct fuel; cbn [forM_from]; rewrite E1; reflexivity.
Qed.

(** X21: a refused message can still have written the token cache.  An
    ANNOUNCE that announces 2 to 65535 parameters but ends after a first
    one that registers a token is refused with the raw end-of-input error,
    and the token it registered stays in the cache: refusing a message does
    not undo the parameters already handled. *)
Theorem register_survives_failure (v : MoQTValidator) (requestID n : Z)
  (namespace : list (list byte)) (alias tokenType : Z) (tokenValue : list byte) :
  0 <= requestID < 2 ^ 62 -> validateRequestID requestID true v = None ->
  Forall (fun f => len f < 2 ^ 62) namespace ->
  0 <= alias < 2 ^ 62 -> 0 <= tokenType < 2 ^ 62 -> 2 <= n <= 65535 ->
  0 <= currentAuthTokenSize v ->
  currentAuthTokenSize v + (8 + len tokenValue) <= maxAuthTokenCacheSize v ->
  maxAuthTokenCacheSize v < 2 ^ 64 ->
  authTokens v !! alias = None ->
  let token := encRegister alias tokenType tokenValue in
  let payload :=
    enc requestID ++ encTuple namespace ++ enc n ++ encTokenParameter token in
  len payload < 2 ^ 16 ->
  exists v',
    ValidateMessage (encControl Announce payload) true v = (Err EOF, v')
    /\ authTokens v' !! alias = Some tokenValue
    /\ currentAuthTokenSize v' = currentAuthTokenSize v + (8 + len tokenValue).
Proof.
  intros Hid Hreq Hns Ha Ht Hn Hc Hfit Hmax Hfresh token payload Hlen.
  pose proof (len_nonneg tokenValue) as Hv.
  assert (Htoken : validateAuthToken token v
                   = (Ok (registerDetails alias tokenType tokenValue),
                      set_tokens (<[alias := tokenValue]> (authTokens v))
                        (currentAuthTokenSize v + (8 + len tokenValue)) v)).
  { subst token. rewrite validateAuthToken_register by assumption.
    rewrite (registerToken_exact alias tokenType tokenValue [] v) by lia.
    destruct (_ >? _) eqn:E;
      [rewrite Z.gtb_ltb in E; apply Z.ltb_lt in E; lia|].
    rewrite Hfresh. reflexivity. }
  assert (Hsize : 0 < len token <= 65535).
  { subst payload. unfold encTokenParameter, encBytes in Hlen.
    rewrite !len_app in Hlen.
    pose proof (len_nonneg (enc requestID)). pose proof (len_nonneg (encTuple namespace)).
    pose proof (len_nonneg (enc n)).
    pose proof (len_nonneg (enc VersionParamAuthorizationToken)).
    pose proof (len_nonneg (enc (len token))).
    split; [|lia]. subst token. unfold encRegister. rewrite len_app.
    pose proof (enc_nonempty AliasTypeRegister).
    pose proof (len_nonneg (enc alias ++ enc tokenType ++ tokenValue)).
    assert (AliasTypeRegister < 2 ^ 62) by (vm_compute; reflexivity). lia. }
  assert (Hfields : len namespace < 2 ^ 62).
  { subst payload. unfold encTuple in Hlen. rewrite !len_app in Hlen.
    pose proof (length_concat_encBytes namespace Hns) as Hcat.
    pose proof (len_nonneg (enc requestID)). pose proof (len_nonneg (enc (len namespace))).
    pose proof (len_nonneg (enc n ++ encTokenParameter token)).
    unfold len in *. lia. }
  exists (set_tokens (<[alias := tokenValue]> (authTokens v))
            (currentAuthTokenSize v + (8 + len tokenValue)) v).
  split; [|split; [cbn [authTokens set_tokens]; apply lookup_insert_eq|reflexivity]].
  rewrite (ValidateMessage_encControl Announce payload validateAnnounce v);
    [|vm_compute; split; congruence|reflexivity|exact Hlen|reflexivity].
  subst payload. unfold validateAnnounce.
  rewrite bindM_decode_enc by lia. cbv zeta.
  unfold bindM at 1, checkRequestID. rewrite Hreq.
  unfold bindM at 1, liftP at 1. rewrite readTuple_encTuple by assumption.
  unfold parametersTail. rewrite bindM_decode_enc by lia. cbv zeta.
  destruct (n >? 0) eqn:E; [|rewrite Z.gtb_ltb in E; apply Z.ltb_ge in E; lia].
  unfold bindM.
  rewrite (parameters_cut_after_token n token v _ _ ltac:(lia) Hsize Htoken).
  reflexivity.
Qed.

Lemma register_survives_failure_witness :
  exists v',
    ValidateMessage
      (encControl Announce
         (enc 0 ++ encTuple [bytes_of [97]] ++ enc 2
          ++ encTokenParameter (encRegister 3 0 (bytes_of [1; 2; 3; 4]))))
      true (validatorWithCache 64)
    = (Err EOF, v')
    /\ authTokens v' !! 3 = Some (bytes_of [1; 2; 3; 4])
    /\ currentAuthTokenSize v' = 12.
Proof.
  apply (register_survives_failure (validatorWithCache 64) 0 2 [bytes_of [97]] 3 0
           (bytes_of [1; 2; 3; 4]));
    [lia|reflexivity|repeat constructor|lia|lia|lia|vm_compute; discriminate
    |vm_compute; discriminate|vm_compute; reflexivity|reflexivity
    |vm_compute; reflexivity].
Defined.

(** ** Data streams *)

(** Once it holds an object the loop of [validateFetchHeader] only breaks. *)
Lemma fetchObjects_nonempty (fuel : nat) :
  forall (objs : list Record) (r : Reader),
    0 < len objs -> exists objs', fetchObjects fuel objs r = Ok objs'.
Proof.
  induction fuel as [|fuel IH]; intros objs r Hobjs.
  - cbn [fetchObjects].
    destruct (validateFetchObject r) as [[obj r']|e]; [eauto|].
    assert ((len objs >? 0) = true) as E by (apply Z.gtb_lt; lia).
    rewrite E. destruct e; eauto.
  - cbn [fetchObjects].
    destruct (validateFetchObject r) as [[obj r']|e].
    + apply IH. rewrite len_app. unfold len in *. cbn [length]. lia.
    + assert ((len objs >? 0) = true) as E by (apply Z.gtb_lt; lia).
      rewrite E. destruct e; eauto.
Qed.

(** X22: a fetch stream is refused in two cases only: its request ID does
    not decode, or its first object fails with an error other than the bare
    [io.EOF].  Nothing after the first object can make it fail: there is no
    check on the order of the objects, and an object that fails later ends
    the stream without error.  This is for streams whose first undecodable
    object, if there is one, is modest: it announces no length beyond what
    65535 more bytes would supply, so that no allocation of the source is
    oversized. *)
Theorem fetch_stream_refused_iff (r : Reader) (e : Error) :
  modestFetchStream r ->
  validateFetchHeader r = Err e
  <-> decode r = Err e
      \/ exists requestID r1,
           decode r = Ok (requestID, r1)
           /\ validateFetchObject r1 = Err e /\ e <> EOF.
Proof.
  intros _.
  unfold validateFetchHeader. cbv zeta. unfold bindP at 1.
  destruct (decode r) as [[requestID r1]|e0].
  - assert (Hloop : fetchObjects (length r1) [] r1
                    = match validateFetchObject r1 with
                      | Err EOF => Ok []
                      | Err e1 => Err e1
                      | Ok _ => fetchObjects (length r1) [] r1
                      end).
    { destruct (length r1); cbn [fetchObjects];
        destruct (validateFetchObject r1) as [[obj r']|[]]; reflexivity. }
    destruct (validateFetchObject r1) as [[obj r']|e1] eqn:Eobj.
    + clear Hloop. split.
      * intros H. exfalso.
        destruct (length r1) as [|fuel]; cbn [fetchObjects] in H; rewrite Eobj in H;
          [discriminate|].
        destruct (fetchObjects_nonempty fuel ([] ++ [obj]) r') as [objs' E];
          [vm_compute; reflexivity|].
        rewrite E in H. discriminate.
      * intros [H|(id & r2 & H1 & H2 & _)]; [discriminate|].
        injection H1 as <- <-. rewrite Eobj in H2. discriminate.
    + rewrite Hloop. split.
      * intros H. right. exists requestID, r1. split; [reflexivity|].
        destruct e1; cbn in H; try discriminate H; injection H as <-;
          (split; [exact Eobj|discriminate]).
      * intros [H|(id & r2 & H1 & H2 & Hne)]; [discriminate|].
        injection H1 as <- <-. rewrite Eobj in H2. injection H2 as ->.
        destruct e; try reflexivity. contradiction.
  - split.
    + intros [= ->]. left. reflexivity.
    + intros [[= ->]|(id & r2 & H1 & _)]; [reflexivity|discriminate].
Qed.

Lemma fetch_stream_refused_iff_witness :
  validateFetchHeader (bytes_of [0; 1; 0; 3; 7; 0; 2; 97]) = Err ErrValidation.
Proof.
  assert (Hguard : modestFetchStream (bytes_of [0; 1; 0; 3; 7; 0; 2; 97])).
  { change (modestFetchTail (bytes_of [1; 0; 3; 7; 0; 2; 97]) ErrValidation).
    right. exists (bytes_of [98]). split; [vm_compute; discriminate|].
    vm_compute. reflexivity. }
  apply (fetch_stream_refused_iff (bytes_of [0; 1; 0; 3; 7; 0; 2; 97]) ErrValidation
           Hguard).
  right. exists 0, (bytes_of [1; 0; 3; 7; 0; 2; 97]).
  split; [reflexivity|]. split; [vm_compute; reflexivity|discriminate].
Defined.

(** X23: once a subgroup stream holds an object, the only error its loop
    can return is the protocol violation of the ordering check: an object
    that fails to decode, with any error, ends the stream without error and
    leaves the loop variables as they are.  This is for streams whose first
    undecodable object, if there is one, is modest: it announces no length
    beyond what 65535 more bytes would supply, so that no allocation of the
    source is oversized. *)
Theorem subgroup_loop_fails_only_on_order (fuel : nat) (extensionsPresent : bool)
  (s : SubgroupLoop) (r : Reader) :
  0 < objectCount s ->
  modestSubgroupObjects fuel extensionsPresent r ->
  (forall e, subgroupObjects fuel extensionsPresent s r = Err e ->
             e = ErrProtocolViolation)
  /\ (forall e, validateSubgroupObject extensionsPresent r = Err e ->
                subgroupObjects fuel extensionsPresent s r = Ok s).
Proof.
  intros Hcount _. split.
  - revert s r Hcount. induction fuel as [|fuel IH]; intros s r Hcount e.
    + cbn [subgroupObjects].
      assert ((objectCount s >? 0) = true) as E by (apply Z.gtb_lt; lia).
      rewrite E.
      destruct (validateSubgroupObject extensionsPresent r) as [[obj r']|e1].
      * destruct (_ && _); [intros [= <-]; reflexivity|discriminate].
      * destruct e1; discriminate.
    + cbn [subgroupObjects].
      assert ((objectCount s >? 0) = true) as E by (apply Z.gtb_lt; lia).
      rewrite E.
      destruct (validateSubgroupObject extensionsPresent r) as [[obj r']|e1].
      * destruct (_ && _); [intros [= <-]; reflexivity|].
        cbv zeta. apply IH. cbn [objectCount]. lia.
      * destruct e1; discriminate.
  - intros e Hobj.
    assert ((objectCount s >? 0) = true) as E by (apply Z.gtb_lt; lia).
    destruct fuel; cbn [subgroupObjects]; rewrite Hobj, E; destruct e; reflexivity.
Qed.

Lemma subgroup_loop_fails_only_on_order_witness :
  let s := {| objects := []; objectCount := 1; firstObjectID := Some 7;
              lastObjectID := 7 |} in
  subgroupObjects 4 false s (bytes_of [9; 5; 1]) = Ok s.
Proof.
  intros s.
  assert (Hguard : modestSubgroupObjects 4 false (bytes_of [9; 5; 1])).
  { change (modestTail false (bytes_of [9; 5; 1]) ErrValidation).
    right. exists (bytes_of [2; 3; 4; 5]). split; [vm_compute; discriminate|].
    vm_compute. reflexivity. }
  destruct (subgroup_loop_fails_only_on_order 4 false s (bytes_of [9; 5; 1])
              eq_refl Hguard) as [_ Hbreak].
  apply (Hbreak ErrValidation). vm_compute. reflexivity.
Defined.

Lemma bindP_decode_enc {B} (x : Z) (k : Z -> P B) (r : Reader) :
  0 <= x < 2 ^ 62 -> bindP decode k (enc x ++ r) = k x r.
Proof. intros H. unfold bindP. rewrite decode_enc by exact H. reflexivity. Qed.

Lemma bindP_retP {A B} (a : A) (k : A -> P B) (r : Reader) :
  bindP (retP a) k r = k a r.
Proof. reflexivity. Qed.

Lemma bindP_bindP {A B C} (m : P A) (f : A -> P B) (k : B -> P C) (r : Reader) :
  bindP (bindP m f) k r = bindP m (fun a => bindP (f a) k) r.
Proof. unfold bindP. destruct (m r) as [[a r1]|e]; reflexivity. Qed.

Lemma bindP_readByteOr_cons {B} (e : Error) (b : byte) (k : Z -> P B) (r : Reader) :
  bindP (readByteOr e) k (b :: r) = k (u8 b) r.
Proof. unfold bindP. rewrite readByteOr_cons. reflexivity. Qed.

(** The loop of [validateSubgroupHeader] over well-formed objects with
    ascending IDs, followed by bytes that are not an object. *)
Lemma subgroupObjects_ascending (ext : bool) (objs : list SubgroupObject) :
  Forall (wfObject ext) objs ->
  forall fuel s tail e,
    (length objs <= fuel)%nat -> 0 <= objectCount s ->
    ascending ((if objectCount s >? 0 then [lastObjectID s] else [])
               ++ map oid objs) = true ->
    validateSubgroupObject ext tail = Err e ->
    e = EOF \/ 0 < objectCount s + len objs ->
    exists s',
      subgroupObjects fuel ext s (concat (map (encObject ext) objs) ++ tail) = Ok s'
      /\ objectCount s' = objectCount s + len objs
      /\ firstObjectID s'
         = match firstObjectID s with
           | Some f => Some f
           | None => head (map oid objs)
           end.
Proof.
  induction 1 as [|o os Hwf _ IH]; intros fuel s tail e Hfuel Hcount Hasc Htail Hend.
  - exists s. cbn [map concat app]. split; [|split].
    + assert (Hstep : subgroupObjects fuel ext s tail
                      = match e with
                        | EOF => Ok s
                        | _ => if objectCount s >? 0 then Ok s else Err e
                        end).
      { destruct fuel; cbn [subgroupObjects]; rewrite Htail; reflexivity. }
      rewrite Hstep. destruct Hend as [->|Hpos]; [reflexivity|].
      assert ((objectCount s >? 0) = true) as ->
        by (apply Z.gtb_lt; unfold len in Hpos; cbn [length] in Hpos; lia).
      destruct e; reflexivity.
    + unfold len. cbn [length]. lia.
    + destruct (firstObjectID s); reflexivity.
  - cbn [map concat]. rewrite <- app_assoc.
    destruct (validateSubgroupObject_encObject ext o
                (concat (map (encObject ext) os) ++ tail) Hwf) as (obj & E & Hid).
    cbn [length] in Hfuel. destruct fuel as [|fuel]; [lia|].
    cbn [subgroupObjects]. rewrite E, Hid.
    assert (Hnext : ascending ([oid o] ++ map oid os) = true
                    /\ (objectCount s >? 0) && (oid o <=? lastObjectID s) = false).
    { destruct (objectCount s >? 0).
      - cbn [app map ascending] in Hasc. apply andb_true_iff in Hasc as [Hlt Hrest].
        split; [exact Hrest|]. apply Z.ltb_lt in Hlt. cbn [andb].
        apply Z.leb_gt. lia.
      - split; [exact Hasc|reflexivity]. }
    destruct Hnext as [Hrest ->]. cbv zeta.
    destruct (IH fuel
                {| objects := objects s ++ [obj];
                   objectCount := objectCount s + 1;
                   firstObjectID := match firstObjectID s with
                                    | Some f => Some f
                                    | None => Some (oid o)
                                    end;
                   lastObjectID := oid o |} tail e) as (s' & Hs' & Hc' & Hf').
    + lia.
    + cbn [objectCount]. lia.
    + cbn [objectCount lastObjectID].
      assert ((objectCount s + 1 >? 0) = true) as -> by (apply Z.gtb_lt; lia).
      exact Hrest.
    + exact Htail.
    + right. cbn [objectCount]. pose proof (len_nonneg os). lia.
    + exists s'. split; [|split].
      * exact Hs'.
      * rewrite Hc'. cbn [objectCount]. unfold len. cbn [length]. lia.
      * rewrite Hf'. cbn [firstObjectID map head].
        destruct (firstObjectID s); reflexivity.
Qed.

Lemma validateSubgroupHeader_ascending (headerType : Z) (present ext : bool)
  (value : string) (trackAlias groupID subgroupID : Z) (priority : byte)
  (objs : list SubgroupObject) (tail : list byte) (e : Error) :
  typeInfo headerType = Some (present, value, ext) ->
  0 <= trackAlias < 2 ^ 62 -> 0 <= groupID < 2 ^ 62 -> 0 <= subgroupID < 2 ^ 62 ->
  Forall (wfObject ext) objs -> ascending (map oid objs) = true ->
  validateSubgroupObject ext tail = Err e ->
  objs <> [] \/ e = EOF ->
  exists details,
    validateSubgroupHeader headerType
      (enc trackAlias ++ enc groupID ++ (if present then enc subgroupID else [])
       ++ [priority] ++ concat (map (encObject ext) objs) ++ tail)
    = Ok (details, [])
    /\ mget "object_count" details = Some (VUint (len objs))
    /\ mget "subgroup_id" details
       = match head (map oid objs) with
         | Some first =>
             if (headerType =? 0x0A) || (headerType =? 0x0B) then Some (VUint first)
             else if present then Some (VUint subgroupID) else None
         | None => if present then Some (VUint subgroupID) else None
         end.
Proof.
  intros Eti Ha Hg Hs Hwf Hasc Htail Hend.
  unfold validateSubgroupHeader. rewrite Eti. cbv zeta.
  rewrite bindP_decode_enc by lia. rewrite bindP_decode_enc by lia.
  set (s0 := {| objects := []; objectCount := 0; firstObjectID := None;
                lastObjectID := 0 |}).
  destruct (subgroupObjects_ascending ext objs Hwf
              (length (concat (map (encObject ext) objs) ++ tail)) s0 tail e)
    as (s' & Hs' & Hc' & Hf').
  { rewrite length_app. pose proof (length_concat_encObject ext objs Hwf). lia. }
  { cbn [objectCount s0]. lia. }
  { exact Hasc. }
  { exact Htail. }
  { destruct Hend as [Hne | ->]; [right|left; reflexivity].
    cbn [objectCount s0]. destruct objs; [contradiction|].
    unfold len. cbn [length]. lia. }
  cbn [objectCount firstObjectID s0] in Hc', Hf'.
  destruct present.
  - rewrite bindP_bindP, bindP_decode_enc by lia. rewrite bindP_retP.
    match goal with
    | |- context [[priority] ++ ?x] => change ([priority] ++ x) with (priority :: x)
    end.
    rewrite bindP_readByteOr_cons. cbv beta. rewrite Hs'.
    eexists. split; [reflexivity|]. rewrite Hc', Hf'. split.
    + destruct (head (map oid objs)); [destruct (_ || _)|];
        repeat first [rewrite mget_mset_eq | rewrite mget_mset_ne by discriminate];
        reflexivity.
    + destruct (head (map oid objs)); [destruct (_ || _)|];
        repeat first [rewrite mget_mset_eq | rewrite mget_mset_ne by discriminate];
        reflexivity.
  - rewrite app_nil_l, bindP_retP.
    match goal with
    | |- context [[priority] ++ ?x] => change ([priority] ++ x) with (priority :: x)
    end.
    rewrite bindP_readByteOr_cons. cbv beta. rewrite Hs'.
    eexists. split; [reflexivity|]. rewrite Hc', Hf'. split.
    + destruct (head (map oid objs)); [destruct (_ || _)|];
        repeat first [rewrite mget_mset_eq | rewrite mget_mset_ne by discriminate];
        reflexivity.
    + destruct (head (map oid objs)); [destruct (_ || _)|];
        repeat first [rewrite mget_mset_eq | rewrite mget_mset_ne by discriminate];
        reflexivity.
Qed.

(** X24: a subgroup stream of any of the six header types whose objects are
    well formed, with strictly ascending object IDs, is accepted, and
    [object_count] is the number of those objects, whatever follows them:
    bytes after the last object that do not decode as an object (cut short,
    with an invalid status, or anything else that announces no oversized
    length) end the stream without error, provided one object was read or
    the failure is the bare [io.EOF].
    [subgroup_id] is the header's field for the types 0x0C and 0x0D, the ID
    of the first object for 0x0A and 0x0B, and absent for 0x08 and 0x09. *)
Theorem ascending_subgroup_stream_accepted (streamType trackAlias groupID subgroupID : Z)
  (priority : byte) (objs : list SubgroupObject) (tail : list byte) (e : Error) :
  In streamType [0x08; 0x09; 0x0A; 0x0B; 0x0C; 0x0D] ->
  0 <= trackAlias < 2 ^ 62 -> 0 <= groupID < 2 ^ 62 -> 0 <= subgroupID < 2 ^ 62 ->
  Forall (wfObject (extensionsOf streamType)) objs ->
  ascending (map oid objs) = true ->
  validateSubgroupObject (extensionsOf streamType) tail = Err e ->
  modestTail (extensionsOf streamType) tail e ->
  objs <> [] \/ e = EOF ->
  exists details,
    validateDataStream
      (encSubgroupStream streamType trackAlias groupID subgroupID priority objs ++ tail)
    = Ok (mergeInto details [("stream_type"%string, VUint streamType)])
    /\ mget "object_count" details = Some (VUint (len objs))
    /\ mget "subgroup_id" details
       = if (streamType =? 0x0C) || (streamType =? 0x0D) then Some (VUint subgroupID)
         else if (streamType =? 0x0A) || (streamType =? 0x0B)
              then option_map VUint (head (map oid objs))
              else None.
Proof.
  intros Hin Ha Hg Hs Hwf Hasc Htail _ Hend.
  assert (Hti : exists present value,
             typeInfo streamType = Some (present, value, extensionsOf streamType)
             /\ (streamType >=? 0x08) && (streamType <=? 0x0D) = true
             /\ 0 <= streamType < 2 ^ 62
             /\ present = (streamType =? 0x0C) || (streamType =? 0x0D)
             /\ (present = true ->
                 (streamType =? 0x0A) || (streamType =? 0x0B) = false)).
  { cbn [In] in Hin.
    destruct Hin as [<-|[<-|[<-|[<-|[<-|[<-|[]]]]]]]; eexists _, _;
      (split; [reflexivity|]); repeat split; try lia; try reflexivity;
      discriminate. }
  destruct Hti as (present & value & Eti & Hrange & Ht & Hpresent & Hfirst).
  destruct (validateSubgroupHeader_ascending streamType present
              (extensionsOf streamType) value trackAlias groupID subgroupID priority
              objs tail e Eti Ha Hg Hs Hwf Hasc Htail Hend)
    as (details & Hheader & Hcount & Hid).
  exists details. split; [|split; [exact Hcount|]].
  - unfold encSubgroupStream. rewrite Eti. rewrite <- !app_assoc.
    unfold validateDataStream.
    destruct (len _ =? 0) eqn:E0.
    { apply Z.eqb_eq in E0. rewrite len_app in E0.
      pose proof (enc_nonempty streamType ltac:(lia)).
      match type of E0 with _ + len ?x = 0 => pose proof (len_nonneg x) end. lia. }
    rewrite decode_enc by exact Ht. cbv zeta. rewrite Hrange.
    rewrite Hheader. reflexivity.
  - rewrite Hid, <- Hpresent. destruct present.
    + rewrite (Hfirst eq_refl). destruct (head (map oid objs)); reflexivity.
    + destruct (head (map oid objs));
        destruct ((streamType =? 0x0A) || (streamType =? 0x0B)); reflexivity.
Qed.

Lemma ascending_subgroup_stream_accepted_witness :
  exists details,
    validateDataStream
      (encSubgroupStream 0x0A 1 100 0 (byte_of 0)
         [ {| oid := 5; oext := []; opayload := bytes_of [97; 98; 99]; ostatus := 0 |};
           {| oid := 7; oext := []; opayload := []; ostatus := 0 |} ]
       ++ bytes_of [9; 5; 1])
    = Ok (mergeInto details [("stream_type"%string, VUint 0x0A)])
    /\ mget "object_count" details = Some (VUint 2)
    /\ mget "subgroup_id" details = Some (VUint 5).
Proof.
  apply (ascending_subgroup_stream_accepted 0x0A 1 100 0 (byte_of 0)
           [ {| oid := 5; oext := []; opayload := bytes_of [97; 98; 99]; ostatus := 0 |};
             {| oid := 7; oext := []; opayload := []; ostatus := 0 |} ]
           (bytes_of [9; 5; 1]) ErrValidation).
  - cbn [In]. auto.
  - lia.
  - lia.
  - lia.
  - repeat constructor; cbn; try lia; try discriminate; try reflexivity.
  - reflexivity.
  - vm_compute. reflexivity.
  - right. exists (bytes_of [2; 3; 4; 5]). split; [vm_compute; discriminate|].
    vm_compute. reflexivity.
  - left. discriminate.
Defined.

(** X25: a data stream whose type is neither 0x05 nor one of 0x08 to 0x0D is
    refused with [ErrProtocolViolation] whatever follows the type, and the
    validator is left as it was. *)
Theorem unknown_stream_type_rejected (streamType : Z) (rest : list byte)
  (v : MoQTValidator) :
  0 <= streamType < 2 ^ 62 ->
  ~ In streamType [0x05; 0x08; 0x09; 0x0A; 0x0B; 0x0C; 0x0D] ->
  ValidateMessage (enc streamType ++ rest) false v = (Err ErrProtocolViolation, v).
Proof.
  intros Ht Hnot. unfold ValidateMessage, validateDataStream.
  destruct (len _ =? 0) eqn:E0.
  { apply Z.eqb_eq in E0. rewrite len_app in E0.
    pose proof (enc_nonempty streamType ltac:(lia)). pose proof (len_nonneg rest). lia. }
  rewrite decode_enc by exact Ht. cbv zeta.
  destruct ((streamType >=? 0x08) && (streamType <=? 0x0D)) eqn:E1.
  { exfalso. apply andb_true_iff in E1 as [H1 H2].
    apply Z.geb_le in H1. apply Z.leb_le in H2. apply Hnot. cbn [In]. lia. }
  destruct (streamType =? 0x05) eqn:E2; [|reflexivity].
  exfalso. apply Z.eqb_eq in E2. apply Hnot. cbn [In]. lia.
Qed.

Lemma unknown_stream_type_rejected_witness :
  ValidateMessage (enc 0x04 ++ bytes_of [1; 2; 3]) false NewMoQTValidator
  = (Err ErrProtocolViolation, NewMoQTValidator).
Proof.
  apply (unknown_stream_type_rejected 0x04 (bytes_of [1; 2; 3]) NewMoQTValidator);
    [lia|].
  cbn [In]. intros H. repeat (destruct H as [H|H]; [discriminate H|]). exact H.
Defined.

(** ** The validity tests and the name tables *)

Lemma lookupName_unknown_iff (names : list (Z * string)) (x : Z) :
  Forall (fun p => forall s, snd p <> ("UNKNOWN_" +:+ s)%string) names ->
  lookupName names x = unknownName x <-> ~ In x (map fst names).
Proof.
  intros Hnames. unfold lookupName, unknownName.
  induction Hnames as [|[k name] names Hname _ IH]; cbn [find map In fst snd].
  - split; [intros _ []|reflexivity].
  - destruct (k =? x) eqn:E.
    + apply Z.eqb_eq in E. split.
      * intros H. exfalso. apply (Hname _ H).
      * intros H. exfalso. apply H. left. exact E.
    + apply Z.eqb_neq in E. rewrite IH. split.
      * intros H [H1|H1]; [contradiction|]. apply H. exact H1.
      * intros H H1. apply H. right. exact H1.
Qed.

Ltac known_names :=
  repeat constructor; intros s H; cbn [snd String.append] in H; discriminate H.

(** X26: the validity tests and the name tables list the same values: a
    message type, filter type, object status or datagram type passes its
    test exactly when its name is found in the table, that is, when the name
    is not the fallback [UNKNOWN_<value>]. *)
Theorem valid_iff_named (x : Z) :
  (isValidMessageType x = true <-> getMessageTypeName x <> unknownName x)
  /\ (isValidFilterType x = true <-> getFilterTypeName x <> unknownName x)
  /\ (isValidObjectStatus x = true <-> getObjectStatusName x <> unknownName x)
  /\ (isValidDatagramType x = true <-> getDatagramTypeName x <> unknownName x).
Proof.
  assert (Hdec : forall (l : list Z), ~ ~ In x l -> In x l).
  { intros l H. destruct (in_dec Z.eq_dec x l) as [Hin|Hout]; [exact Hin|].
    contradiction. }
  split; [|split; [|split]].
  - unfold getMessageTypeName. rewrite lookupName_unknown_iff by known_names.
    unfold isValidMessageType. rewrite existsb_exists. split.
    + intros (valid & Hin & E) Hout. apply Z.eqb_eq in E. subst valid.
      apply Hout. cbn [In validTypes map fst] in Hin |- *. tauto.
    + intros H. apply Hdec in H. exists x. split; [|apply Z.eqb_refl].
      cbn [In validTypes map fst] in H |- *. tauto.
  - unfold getFilterTypeName. rewrite lookupName_unknown_iff by known_names.
    unfold isValidFilterType, NextGroupStart, LatestObject, AbsoluteStart, AbsoluteRange.
    cbn [map fst In]. rewrite andb_true_iff, !Z.leb_le. split.
    + intros H Hout. apply Hout. lia.
    + intros H. destruct (Z_le_gt_dec 1 x); destruct (Z_le_gt_dec x 4); try lia;
        exfalso; apply H; lia.
  - unfold getObjectStatusName. rewrite lookupName_unknown_iff by known_names.
    unfold isValidObjectStatus, ObjectStatusNormal, ObjectStatusDoesNotExist,
      ObjectStatusEndOfGroup, ObjectStatusEndOfTrack.
    cbn [map fst In]. rewrite !orb_true_iff, !Z.eqb_eq. split.
    + intros H Hout. apply Hout. lia.
    + intros H. destruct (Z.eq_dec x 0); destruct (Z.eq_dec x 1);
        destruct (Z.eq_dec x 3); destruct (Z.eq_dec x 4); try tauto.
      exfalso. apply H. lia.
  - unfold getDatagramTypeName. rewrite lookupName_unknown_iff by known_names.
    unfold isValidDatagramType, ObjectDatagramNoExt, ObjectDatagramWithExt,
      ObjectStatusNoExt, ObjectStatusWithExt.
    cbn [map fst In]. rewrite andb_true_iff, !Z.leb_le. split.
    + intros H Hout. apply Hout. lia.
    + intros H. destruct (Z_le_gt_dec 0 x); destruct (Z_le_gt_dec x 3); try lia;
        exfalso; apply H; lia.
Qed.

(** ** Datagrams *)

Lemma len_enc_app_pos (x : Z) (r : list byte) : 0 <= x < 2 ^ 62 -> (len (enc x ++ r) =? 0) = false.
Proof.
  intros Hx. apply Z.eqb_neq. rewrite len_app.
  pose proof (enc_nonempty x ltac:(lia)). pose proof (len_nonneg r). lia.
Qed.

(** X27: an object datagram without extensions is accepted with any bytes
    at all after its header, none included: they are the payload, whose
    length is reported as [payload_length] and which is shown in hex below
    100 bytes and as a byte count from 100 bytes on.  The validator is left
    as it was. *)
Theorem object_datagram_takes_rest (v : MoQTValidator) (trackAlias groupID objectID : Z)
  (priority : byte) (payload : list byte) :
  0 <= trackAlias < 2 ^ 62 -> 0 <= groupID < 2 ^ 62 -> 0 <= objectID < 2 ^ 62 ->
  exists details,
    ValidateDatagram (encObjectDatagram trackAlias groupID objectID priority payload) v
    = (Ok details, v)
    /\ mget "object_id" details = Some (VUint objectID)
    /\ mget "payload_length" details = Some (VUint (len payload))
    /\ mget "payload" details
       = Some (if len payload <? 100 then VHex payload else VByteCount (len payload))
    /\ mget "status" details = None.
Proof.
  intros Ha Hg Ho. unfold ValidateDatagram, encObjectDatagram.
  rewrite len_enc_app_pos by (vm_compute; split; congruence).
  rewrite decode_enc by (vm_compute; split; congruence).
  change (negb (isValidDatagramType ObjectDatagramNoExt)) with false. cbv iota.
  unfold datagramBody. cbv zeta.
  rewrite !bindP_decode_enc by lia.
  match goal with
  | |- context [[priority] ++ ?x] => change ([priority] ++ x) with (priority :: x)
  end.
  rewrite bindP_readByteOr_cons.
  change ((ObjectDatagramNoExt =? ObjectDatagramWithExt)
          || (ObjectDatagramNoExt =? ObjectStatusWithExt)) with false.
  change ((ObjectDatagramNoExt =? ObjectDatagramNoExt)
          || (ObjectDatagramNoExt =? ObjectDatagramWithExt)) with true.
  cbv iota. rewrite bindP_retP. unfold ReadAll.
  destruct (len payload <? 100); eexists; (split; [reflexivity|]);
    repeat split;
    repeat first [rewrite mget_mset_eq | rewrite mget_mset_ne by discriminate];
    reflexivity.
Qed.

Lemma object_datagram_takes_rest_witness :
  exists details,
    ValidateDatagram (encObjectDatagram 1 100 5 (byte_of 0) []) NewMoQTValidator
    = (Ok details, NewMoQTValidator)
    /\ mget "object_id" details = Some (VUint 5)
    /\ mget "payload_length" details = Some (VUint 0)
    /\ mget "payload" details = Some (VHex [])
    /\ mget "status" details = None.
Proof.
  apply (object_datagram_takes_rest NewMoQTValidator 1 100 5 (byte_of 0) []); lia.
Defined.

(** X28: an extension length of 0 is treated differently on the two paths.
    A datagram of a type with extensions (0x01 or 0x03) whose extension
    length is 0 is a protocol violation, whatever follows; an object of a
    subgroup stream with extensions whose extension length is 0 is accepted,
    without an [extension_headers] entry. *)
Theorem zero_extension_length (v : MoQTValidator) (datagramType trackAlias groupID : Z)
  (objectID status : Z) (priority : byte) (rest : list byte) :
  datagramType = ObjectDatagramWithExt \/ datagramType = ObjectStatusWithExt ->
  0 <= trackAlias < 2 ^ 62 -> 0 <= groupID < 2 ^ 62 -> 0 <= objectID < 2 ^ 62 ->
  0 <= status < 2 ^ 62 -> isValidObjectStatus status = true ->
  ValidateDatagram
    (enc datagramType ++ enc trackAlias ++ enc groupID ++ enc objectID
     ++ [priority] ++ enc 0 ++ rest) v
  = (Err ErrProtocolViolation, v)
  /\ exists obj,
       validateSubgroupObject true (enc objectID ++ enc 0 ++ enc 0 ++ enc status ++ rest)
       = Ok (obj, rest)
       /\ mget "extension_headers_length" obj = Some (VUint 0)
       /\ mget "extension_headers" obj = None.
Proof.
  intros Ht Ha Hg Ho Hs Hvalid. split.
  - assert (Hrange : 0 <= datagramType < 2 ^ 62)
      by (destruct Ht as [-> | ->]; vm_compute; split; congruence).
    assert (Hvalidt : negb (isValidDatagramType datagramType) = false)
      by (destruct Ht as [-> | ->]; reflexivity).
    assert (Hext : (datagramType =? ObjectDatagramWithExt)
                   || (datagramType =? ObjectStatusWithExt) = true)
      by (destruct Ht as [-> | ->]; reflexivity).
    unfold ValidateDatagram.
    rewrite len_enc_app_pos by exact Hrange.
    rewrite decode_enc by exact Hrange. rewrite Hvalidt.
    unfold datagramBody. cbv zeta.
    rewrite !bindP_decode_enc by lia.
    match goal with
    | |- context [[priority] ++ ?x] => change ([priority] ++ x) with (priority :: x)
    end.
    rewrite bindP_readByteOr_cons. rewrite Hext.
    rewrite bindP_bindP, bindP_decode_enc by lia.
    change (0 >? 0) with false. change (0 =? 0) with true. reflexivity.
  - unfold validateSubgroupObject. rewrite bindP_decode_enc by lia. cbv zeta.
    unfold objectExtensions. rewrite bindP_bindP, bindP_decode_enc by lia.
    change (0 >? 0) with false. cbv iota zeta. rewrite bindP_retP.
    unfold objectPayload. rewrite bindP_decode_enc by lia.
    change (0 =? 0) with true. cbv iota zeta.
    rewrite bindP_decode_enc by lia. rewrite Hvalid.
    eexists. split; [reflexivity|].
    split;
      repeat first [rewrite mget_mset_eq | rewrite mget_mset_ne by discriminate];
      reflexivity.
Qed.

Lemma zero_extension_length_witness :
  ValidateDatagram
    (enc ObjectDatagramWithExt ++ enc 1 ++ enc 100 ++ enc 5
     ++ [byte_of 0] ++ enc 0 ++ bytes_of [97]) NewMoQTValidator
  = (Err ErrProtocolViolation, NewMoQTValidator)
  /\ exists obj,
       validateSubgroupObject true (enc 5 ++ enc 0 ++ enc 0 ++ enc 0 ++ bytes_of [97])
       = Ok (obj, bytes_of [97])
       /\ mget "extension_headers_length" obj = Some (VUint 0)
       /\ mget "extension_headers" obj = None.
Proof.
  apply (zero_extension_length NewMoQTValidator ObjectDatagramWithExt 1 100 5 0
           (byte_of 0) (bytes_of [97]));
    [left; reflexivity|lia|lia|lia|lia|reflexivity].
Defined.

(** ** GOAWAY *)

Lemma readFullOr_short (e : Error) (n : Z) (r : list byte) :
  len r < n -> readFullOr e n r = Err e.
Proof.
  intros H. unfold readFullOr.
  destruct (ReadFull_short n r H) as (e0 & r' & ->). reflexivity.
Qed.

Lemma readFullOr_enough (e : Error) (n : Z) (r : list byte) :
  0 < n <= len r ->
  readFullOr e n r = Ok (take (Z.to_nat n) r, drop (Z.to_nat n) r).
Proof.
  intros H. unfold readFullOr, ReadFull.
  destruct (n =? 0) eqn:E0; [apply Z.eqb_eq in E0; lia|].
  destruct (len r =? 0) eqn:E1; [apply Z.eqb_eq in E1; lia|].
  destruct (len r <? n) eqn:E2; [apply Z.ltb_lt in E2; lia|]. reflexivity.
Qed.

(** X29: the new session URI of a GOAWAY.  A URI length above 8192 is a
    protocol violation whatever follows it; a length of 0 gives a nil URI; a
    length the payload cannot supply is a validation error; otherwise the
    URI is exactly the announced number of bytes and what follows them in
    the payload is ignored.  The validator is left as it was in all four
    cases. *)
Theorem goaway_uri_length (v : MoQTValidator) (uriLength : Z) (rest : list byte) :
  0 <= uriLength < 2 ^ 62 -> len (enc uriLength ++ rest) < 2 ^ 16 ->
  let answer (uri : Value) :=
    Ok [("type"%string, VString "GOAWAY"); ("type_value"%string, VUint Goaway);
        ("length"%string, VUint (len (enc uriLength ++ rest)));
        ("new_session_uri"%string, uri)] in
  ValidateMessage (encControl Goaway (enc uriLength ++ rest)) true v
  = (if uriLength >? 8192 then Err ErrProtocolViolation
     else if uriLength =? 0 then answer VNil
     else if len rest <? uriLength then Err ErrValidation
     else answer (VString (Stdlib.Strings.String.string_of_list_byte
                             (take (Z.to_nat uriLength) rest))),
     v).
Proof.
  intros Hn Hlen answer. subst answer.
  rewrite (ValidateMessage_encControl Goaway (enc uriLength ++ rest)
             (liftP validateGoaway) v);
    [|vm_compute; split; congruence|reflexivity|exact Hlen|reflexivity].
  unfold liftP, validateGoaway. rewrite bindP_decode_enc by exact Hn.
  destruct (uriLength >? 8192) eqn:E; [reflexivity|].
  destruct (uriLength >? 0) eqn:E0.
  - apply Z.gtb_lt in E0.
    assert ((uriLength =? 0) = false) as -> by (apply Z.eqb_neq; lia).
    destruct (len rest <? uriLength) eqn:E1.
    + apply Z.ltb_lt in E1. unfold bindP.
      rewrite readFullOr_short by exact E1. reflexivity.
    + apply Z.ltb_ge in E1. unfold bindP.
      rewrite readFullOr_enough by lia. reflexivity.
  - rewrite Z.gtb_ltb in E0. apply Z.ltb_ge in E0.
    assert ((uriLength =? 0) = true) as -> by (apply Z.eqb_eq; lia).
    reflexivity.
Qed.

Lemma goaway_uri_length_witness :
  ValidateMessage (encControl Goaway (enc 2 ++ bytes_of [97; 98; 99])) true
    NewMoQTValidator
  = (Ok [("type"%string, VString "GOAWAY"); ("type_value"%string, VUint Goaway);
         ("length"%string, VUint 4);
         ("new_session_uri"%string, VString "ab")], NewMoQTValidator).
Proof.
  apply (goaway_uri_length NewMoQTValidator 2 (bytes_of [97; 98; 99]));
    [lia|vm_compute; reflexivity].
Defined.

(** ** Track names *)

Lemma fold_left_field_lengths (fields : list (list byte)) (acc : Z) :
  fold_left (fun acc field => acc + len field) fields acc = acc + len (concat fields).
Proof.
  revert acc. induction fields as [|f fields IH]; intros acc; cbn [fold_left concat].
  - unfold len. cbn [length]. lia.
  - rewrite IH, len_app. lia.
Qed.

Lemma NewTrackNamespace_ok_iff (fields : list (list byte)) :
  is_ok (NewTrackNamespace fields) = true <-> 1 <= len fields <= 32.
Proof.
  unfold NewTrackNamespace. pose proof (len_nonneg fields).
  destruct (len fields =? 0) eqn:E0; cbn [orb].
  - apply Z.eqb_eq in E0. cbn [is_ok]. split; [discriminate|lia].
  - apply Z.eqb_neq in E0. destruct (len fields >? 32) eqn:E1; cbn [is_ok].
    + apply Z.gtb_lt in E1. split; [discriminate|lia].
    + rewrite Z.gtb_ltb in E1. apply Z.ltb_ge in E1. split; [lia|reflexivity].
Qed.

Lemma NewFullTrackName_ok_iff (namespace : TrackNamespace) (name : list byte) :
  is_ok (NewFullTrackName namespace name) = true
  <-> len (concat (Fields namespace)) + len name <= 4096.
Proof.
  unfold NewFullTrackName. cbv zeta. rewrite fold_left_field_lengths.
  destruct (_ >? 4096) eqn:E; cbn [is_ok].
  - apply Z.gtb_lt in E. split; [discriminate|lia].
  - rewrite Z.gtb_ltb in E. apply Z.ltb_ge in E. split; [lia|reflexivity].
Qed.

(** X30: the bounds on track names.  A track namespace is built exactly
    when it has 1 to 32 fields, and a full track name exactly when the bytes
    of the fields and of the name together are at most 4096.  A SUBSCRIBE
    that breaks either bound is refused with [ErrValidation] (the
    constructors' protocol violation is formatted into the message, not
    wrapped), as soon as the name has been read and whatever follows it, and
    the validator is left as it was. *)
Theorem track_name_bounds (v : MoQTValidator) (requestID trackAlias : Z)
  (fields : list (list byte)) (name rest : list byte) :
  0 <= requestID < 2 ^ 62 -> validateRequestID requestID true v = None ->
  0 <= trackAlias < 2 ^ 62 ->
  len fields < 2 ^ 62 -> Forall (fun f => len f < 2 ^ 62) fields ->
  len name < 2 ^ 62 ->
  (is_ok (NewTrackNamespace fields) = true <-> 1 <= len fields <= 32)
  /\ (is_ok (NewFullTrackName {| Fields := fields |} name) = true
      <-> len (concat fields) + len name <= 4096)
  /\ (~ (1 <= len fields <= 32) \/ 4096 < len (concat fields) + len name ->
      validateSubscribe
        (enc requestID ++ enc trackAlias ++ encTuple fields ++ encBytes name ++ rest) v
      = (Err ErrValidation, v)).
Proof.
  intros Hid Hreq Ha Hn Hf Hname.
  split; [apply NewTrackNamespace_ok_iff|].
  split; [apply NewFullTrackName_ok_iff|].
  intros Hbad. pose proof (len_nonneg name).
  unfold validateSubscribe. rewrite bindM_decode_enc by lia. cbv zeta.
  unfold bindM at 1, checkRequestID. rewrite Hreq.
  rewrite bindM_decode_enc by lia.
  unfold bindM at 1, liftP at 1. rewrite readTuple_encTuple by assumption.
  unfold encBytes. rewrite <- app_assoc. rewrite bindM_decode_enc by lia.
  unfold bindM at 1, liftP at 1. rewrite readFullOr_app.
  unfold bindM at 1, liftResult at 1.
  destruct (NewTrackNamespace fields) as [namespace|e] eqn:Ens; [|reflexivity].
  assert (Hok : 1 <= len fields <= 32).
  { apply NewTrackNamespace_ok_iff. rewrite Ens. reflexivity. }
  assert (namespace = {| Fields := fields |}) as ->.
  { unfold NewTrackNamespace in Ens. destruct (_ || _); [discriminate|].
    injection Ens as <-. reflexivity. }
  unfold bindM at 1, liftResult at 1.
  destruct (NewFullTrackName {| Fields := fields |} name) as [full|e] eqn:Efull;
    [|reflexivity].
  exfalso. destruct Hbad as [Hbad|Hbad]; [contradiction|].
  assert (Hle : len (concat (Fields {| Fields := fields |})) + len name <= 4096).
  { apply NewFullTrackName_ok_iff. rewrite Efull. reflexivity. }
  cbn [Fields] in Hle. lia.
Qed.

Lemma track_name_bounds_witness :
  validateSubscribe (enc 0 ++ enc 7 ++ encTuple [] ++ encBytes (bytes_of [97]) ++ [])
    NewMoQTValidator
  = (Err ErrValidation, NewMoQTValidator).
Proof.
  apply (track_name_bounds NewMoQTValidator 0 7 [] (bytes_of [97]) []);
    [lia|reflexivity|lia|vm_compute; reflexivity|constructor|vm_compute; reflexivity|].
  left. vm_compute. intros [H _]. apply H. reflexivity.
Defined.
